(** * Trivy exporters: a shallow embedding of the three Python programs

    - [Exporter]            Security/trivy/trivy-exporter.py
    - [Dashboard]           Security/trivy/dashboard/trivy_exporter.py
    - [PrometheusExporter]  Security/trivy/trivy-prometheus-exporter.py

    The programs talk to the world through four things, each of which is an
    explicit input or output of the embedding:
    - the file system and [json.load] / [json.loads]: what a path holds is
      given as the value the decoder returns or the exception it raises;
    - the scanner subprocess and the wall clock: given per scan attempt,
      the readings of the clock as integers;
    - the [prometheus_client] metric objects: the registry is a record of
      finite maps, and every call on a metric object is one registry
      operation, so that a cycle is a sequence of operations another thread
      can observe between any two of them;
    - [logging] and [time.sleep]: a log line and a sleep are calls like the
      others, which leave the registry as it is; a sleep of a length that
      [time.sleep] refuses raises instead of waiting. *)

From stdpp Require Import gmap strings list fin_maps pretty.
From Stdlib Require Import ZArith Ascii.

Set Warnings "-register-all".
Open Scope string_scope.
Open Scope list_scope.

(** ** Python values and exceptions *)

Module Py.

(** What [json.load] returns.  Numbers are the integer literals (a literal
    with a fraction or an exponent decodes to a float, which is left out);
    an object keeps its members in document order and the last binding of a
    repeated key is the one the decoded [dict] holds.  A [string] stands
    for a Python [str], one character per code point. *)
Inductive json :=
  | JNull
  | JBool (b : bool)
  | JNum (n : Z)
  | JStr (s : string)
  | JArr (items : list json)
  | JObj (members : list (string * json)).

(** The subclasses of [Exception] that the modelled statements raise. *)
Inductive exn :=
  | AttributeError
  | TypeError
  | KeyError
  | ValueError
  | JSONDecodeError
  | OSError
  | PermissionError
  | OverflowError
  | TimeoutExpired.

Inductive result (A : Type) :=
  | Ok (a : A)
  | Raise (e : exn).
Arguments Ok {A} a.
Arguments Raise {A} e.

(** [bool(v)] *)
Definition truthy (v : json) : bool :=
  match v with
  | JNull => false
  | JBool b => b
  | JNum n => negb (n =? 0)%Z
  | JStr s => negb (String.eqb s "")
  | JArr l => match l with [] => false | _ => true end
  | JObj l => match l with [] => false | _ => true end
  end.

(** The binding a decoded object holds for [k]: the last one in the text. *)
Fixpoint dict_lookup (k : string) (members : list (string * json)) : option json :=
  match members with
  | [] => None
  | (k', v) :: rest =>
      match dict_lookup k rest with
      | Some w => Some w
      | None => if String.eqb k k' then Some v else None
      end
  end.

(** The keys of a decoded object, each once, in order of first appearance. *)
Fixpoint dict_keys (seen : list string) (members : list (string * json)) : list string :=
  match members with
  | [] => []
  | (k, _) :: rest =>
      if bool_decide (k ∈ seen) then dict_keys seen rest
      else k :: dict_keys (k :: seen) rest
  end.

(** [v.get(k, default)]: only a [dict] has the method. *)
Definition py_get (v : json) (k : string) (default : json) : result json :=
  match v with
  | JObj members =>
      Ok (match dict_lookup k members with Some w => w | None => default end)
  | _ => Raise AttributeError
  end.

Fixpoint chars (s : string) : list json :=
  match s with
  | EmptyString => []
  | String c rest => JStr (String c EmptyString) :: chars rest
  end.

(** [for x in v]: the items of a list, the keys of a dict, the characters of
    a string; anything else is not iterable. *)
Definition py_iter (v : json) : result (list json) :=
  match v with
  | JArr l => Ok l
  | JObj members => Ok (JStr <$> dict_keys [] members)
  | JStr s => Ok (chars s)
  | _ => Raise TypeError
  end.

(** [k in v] *)
Definition py_contains (k : string) (v : json) : result bool :=
  match v with
  | JObj members => Ok (bool_decide (is_Some (dict_lookup k members)))
  | JArr l => Ok (existsb (λ x, match x with JStr s => String.eqb s k | _ => false end) l)
  | JStr s => Ok (match String.index 0 k s with Some _ => true | None => false end)
  | _ => Raise TypeError
  end.

(** A value can be part of a dict key unless it is a list or a dict. *)
Definition hashable (v : json) : bool :=
  match v with
  | JArr _ | JObj _ => false
  | _ => true
  end.

(** [a == b] on hashable values: [True == 1] and [False == 0]. *)
Definition py_eqb (a b : json) : bool :=
  match a, b with
  | JNull, JNull => true
  | JStr s, JStr t => String.eqb s t
  | JBool x, JBool y => Bool.eqb x y
  | JNum x, JNum y => (x =? y)%Z
  | JBool x, JNum y | JNum y, JBool x => ((if x then 1 else 0) =? y)%Z
  | _, _ => false
  end.

(** [s[:n]] *)
Definition str_prefix (n : nat) (s : string) : string := String.substring 0 n s.

(** [s.replace('Z', '+00:00')] *)
Fixpoint replace_Z (s : string) : string :=
  match s with
  | EmptyString => EmptyString
  | String c rest =>
      if Ascii.eqb c "Z"%char then "+00:00" +:+ replace_Z rest
      else String c (replace_Z rest)
  end.

Section Str.
(** [str] of a list or a dict is its [repr], which this development takes
    as given. *)
Variable repr_container : json → string.

(** [str(v)], which [labels(...)] applies to every label value. *)
Definition py_str (v : json) : string :=
  match v with
  | JNull => "None"
  | JBool true => "True"
  | JBool false => "False"
  | JNum n => pretty n
  | JStr s => s
  | JArr _ | JObj _ => repr_container v
  end.
End Str.

(** Statements that call metric objects: the calls made so far, in order,
    and either a value or the exception that ended the statement. *)
Definition eff (W A : Type) : Type := list W * result A.

Definition emit {W} (w : W) : eff W unit := ([w], Ok ()).
Definition lift {W A} (r : result A) : eff W A := ([], r).

#[global] Instance eff_ret {W} : MRet (eff W) := λ A a, ([], Ok a).

#[global] Instance eff_bind {W} : MBind (eff W) := λ A B f m,
  match m with
  | (ws, Ok a) => let '(ws', r) := f a in (ws ++ ws', r)
  | (ws, Raise e) => (ws, Raise e)
  end.

(** [try: m  except Exception: h] *)
Definition try_except {W A} (m : eff W A) (h : exn → eff W A) : eff W A :=
  match m with
  | (ws, Raise e) => let '(ws', r) := h e in (ws ++ ws', r)
  | returned => returned
  end.

(** [for x in xs: body x] *)
Fixpoint for_each {W A} (xs : list A) (body : A → eff W unit) : eff W unit :=
  match xs with
  | [] => mret ()
  | x :: rest => body x;; for_each rest body
  end.

Definition calls {W A} (m : eff W A) : list W := m.1.
Definition outcome {W A} (m : eff W A) : result A := m.2.

Definition raised {A} (r : result A) : bool :=
  match r with Ok _ => false | Raise _ => true end.

(** [time.sleep(secs)] for an integer [secs]: a negative length raises
    ValueError before anything is waited for, and so does, with
    OverflowError, a length whose nanoseconds do not fit the 64-bit clock
    of CPython. *)
Definition sleep_limit : Z := 9223372036.

Definition py_sleep (secs : Z) : result unit :=
  if (secs <? 0)%Z then Raise ValueError
  else if (sleep_limit <? secs)%Z then Raise OverflowError
  else Ok ().

End Py.

Import Py.

(** ** Labelled gauges

    A [Gauge] with label names is a dictionary from label-value tuples to
    child values.  [labels(...)] returns the child for a tuple and creates
    it with value 0 when it is missing; [set] stores into that child;
    [clear] drops every child. *)

Module Gauge.

Inductive call (K : Type) :=
  | Clear
  | Labels (k : K)
  | SetChild (k : K) (v : Z).
Arguments Clear {K}.
Arguments Labels {K} k.
Arguments SetChild {K} k v.

Definition apply `{Countable K} (c : call K) (g : gmap K Z) : gmap K Z :=
  match c with
  | Clear => ∅
  | Labels k => match g !! k with Some _ => g | None => <[k := 0%Z]> g end
  | SetChild k v => <[k := v]> g
  end.

(** The sum of the samples a scrape of the family returns. *)
Definition total `{Countable K} (g : gmap K Z) : Z :=
  map_fold (λ _ v acc, (v + acc)%Z) 0%Z g.

End Gauge.

Inductive level := Info | Warning | Error.

(** What [open(report_path)] followed by [json.load(f)] does for one file. *)
Inductive loaded :=
  | LoadFails (e : exn)
  | Loads (data : json).

Definition load (file : loaded) : result json :=
  match file with
  | LoadFails e => Raise e
  | Loads data => Ok data
  end.

(** What [Path(REPORTS_DIR)] answers: [exists()], [is_dir()] and
    [list(glob('*.json'))].  [exists()] and [is_dir()] answer [False] for a
    path that is not there and raise for one that cannot be examined
    (PermissionError on a parent that cannot be searched). *)
Record reports_dir := {
  dir_exists : result bool;
  dir_is_dir : result bool;
  dir_glob : result (list loaded);
}.

(** [v[:n]]: strings and lists can be sliced, a number, a boolean or [None]
    cannot, and a dict takes the slice for a key. *)
Definition py_slice (n : nat) (v : json) : result json :=
  match v with
  | JStr s => Ok (JStr (str_prefix n s))
  | JArr l => Ok (JArr (take n l))
  | _ => Raise TypeError
  end.

(** The keys of [vuln_counts]: tuples [(image, severity, package)]. *)
Definition count_key : Type := json * json * json.

Definition key_hashable (k : count_key) : bool :=
  let '(a, b, c) := k in hashable a && hashable b && hashable c.

Definition key_eqb (k1 k2 : count_key) : bool :=
  let '(a1, b1, c1) := k1 in
  let '(a2, b2, c2) := k2 in
  py_eqb a1 a2 && py_eqb b1 b2 && py_eqb c1 c2.

(** The dict after [d[key] = d.get(key, 0) + 1], once [key] has hashed. *)
Fixpoint dict_increment (key : count_key) (d : list (count_key * Z)) : list (count_key * Z) :=
  match d with
  | [] => [(key, 1%Z)]
  | (k, c) :: rest =>
      if key_eqb k key then (k, (c + 1)%Z) :: rest
      else (k, c) :: dict_increment key rest
  end.

(** [vuln_counts[key] = vuln_counts.get(key, 0) + 1] *)
Definition count_one (key : count_key) (d : list (count_key * Z)) : result (list (count_key * Z)) :=
  if key_hashable key then Ok (dict_increment key d) else Raise TypeError.

(** ** Security/trivy/trivy-exporter.py *)

Module Exporter.

(** Label tuples, in the order of the label names of each metric. *)
Definition count_labels : Type := string * string * string.
Definition info_labels : Type := string * string * string * string * string * string.

Record state := {
  trivy_image_vulnerabilities : gmap count_labels Z;
  trivy_last_scan_timestamp : gmap string Z;
  trivy_vulnerability_info : gmap info_labels Z;
  trivy_images_scanned : Z;
  _ready : bool;
}.

(** The module as imported: no children, the unlabelled gauge at 0, the
    event unset. *)
Definition initial : state := {|
  trivy_image_vulnerabilities := ∅;
  trivy_last_scan_timestamp := ∅;
  trivy_vulnerability_info := ∅;
  trivy_images_scanned := 0;
  _ready := false;
|}.

Inductive call :=
  | Vulnerabilities (c : Gauge.call count_labels)
  | LastScan (c : Gauge.call string)
  | VulnerabilityInfo (c : Gauge.call info_labels)
  | ImagesScannedSet (n : Z)
  | ReadySet
  | Log (l : level)
  | Sleep (seconds : Z).

Definition apply (s : state) (c : call) : state :=
  match c with
  | Vulnerabilities g =>
      {| trivy_image_vulnerabilities := Gauge.apply g (trivy_image_vulnerabilities s);
         trivy_last_scan_timestamp := trivy_last_scan_timestamp s;
         trivy_vulnerability_info := trivy_vulnerability_info s;
         trivy_images_scanned := trivy_images_scanned s;
         _ready := _ready s |}
  | LastScan g =>
      {| trivy_image_vulnerabilities := trivy_image_vulnerabilities s;
         trivy_last_scan_timestamp := Gauge.apply g (trivy_last_scan_timestamp s);
         trivy_vulnerability_info := trivy_vulnerability_info s;
         trivy_images_scanned := trivy_images_scanned s;
         _ready := _ready s |}
  | VulnerabilityInfo g =>
      {| trivy_image_vulnerabilities := trivy_image_vulnerabilities s;
         trivy_last_scan_timestamp := trivy_last_scan_timestamp s;
         trivy_vulnerability_info := Gauge.apply g (trivy_vulnerability_info s);
         trivy_images_scanned := trivy_images_scanned s;
         _ready := _ready s |}
  | ImagesScannedSet n =>
      {| trivy_image_vulnerabilities := trivy_image_vulnerabilities s;
         trivy_last_scan_timestamp := trivy_last_scan_timestamp s;
         trivy_vulnerability_info := trivy_vulnerability_info s;
         trivy_images_scanned := n;
         _ready := _ready s |}
  | ReadySet =>
      {| trivy_image_vulnerabilities := trivy_image_vulnerabilities s;
         trivy_last_scan_timestamp := trivy_last_scan_timestamp s;
         trivy_vulnerability_info := trivy_vulnerability_info s;
         trivy_images_scanned := trivy_images_scanned s;
         _ready := true |}
  | Log _ | Sleep _ => s
  end.

(** The state once the thread has made the calls [cs], starting from [s]. *)
Definition exec (cs : list call) (s : state) : state := foldl apply s cs.

(** The state another thread finds when it looks after the first [n] calls
    of [m], the cycle having started from [s]. *)
Definition observed {A} (n : nat) (m : eff call A) (s : state) : state :=
  exec (take n (calls m)) s.

Record vulnerability := {
  vuln_image : json;
  vulnerability_id : json;
  package : json;
  installed_version : json;
  fixed_version : json;
  severity : json;
  title : json;
}.

Record report := {
  image : json;
  scan_time : json;
  vulnerabilities : list vulnerability;
}.

Definition parse_vulnerability (image_name vuln : json) : eff call vulnerability :=
  vid ← lift (py_get vuln "VulnerabilityID" (JStr ""));
  pkg ← lift (py_get vuln "PkgName" (JStr ""));
  installed ← lift (py_get vuln "InstalledVersion" (JStr ""));
  fixed ← lift (py_get vuln "FixedVersion" (JStr ""));
  sev ← lift (py_get vuln "Severity" (JStr "UNKNOWN"));
  ttl ← lift (py_get vuln "Title" (JStr ""));
  mret {| vuln_image := image_name; vulnerability_id := vid; package := pkg;
          installed_version := installed; fixed_version := fixed;
          severity := sev; title := ttl |}.

(** The inner loop of the parser: one [append] per item of [vulns]. *)
Fixpoint parse_vulnerabilities (image_name : json) (vulns : list json)
    (acc : list vulnerability) : eff call (list vulnerability) :=
  match vulns with
  | [] => mret acc
  | vuln :: rest =>
      v ← parse_vulnerability image_name vuln;
      parse_vulnerabilities image_name rest (acc ++ [v])
  end.

(** The outer loop: [for result in data.get('Results', [])]. *)
Fixpoint parse_results (image_name : json) (results : list json)
    (acc : list vulnerability) : eff call (list vulnerability) :=
  match results with
  | [] => mret acc
  | result :: rest =>
      vs ← lift (py_get result "Vulnerabilities" (JArr []));
      vulns ← lift (py_iter (if truthy vs then vs else JArr []));
      acc ← parse_vulnerabilities image_name vulns acc;
      parse_results image_name rest acc
  end.

(** The body of the [try] in [parse_trivy_report]. *)
Definition parse_body (file : loaded) : eff call report :=
  data ← lift (load file);
  image_name ← lift (py_get data "ArtifactName" (JStr "unknown"));
  scan_time ← lift (py_get data "CreatedAt" (JStr ""));
  results ← lift (py_get data "Results" (JArr []));
  results ← lift (py_iter results);
  vulnerabilities ← parse_results image_name results [];
  mret {| image := image_name; scan_time := scan_time;
          vulnerabilities := vulnerabilities |}.

(** [None] is the error result. *)
Definition parse_trivy_report (file : loaded) : eff call (option report) :=
  try_except (r ← parse_body file; mret (Some r))
    (λ e, emit (Log Error);; mret None).

(** [time.sleep(secs)] *)
Definition sleep (secs : Z) : eff call unit :=
  lift (py_sleep secs);; emit (Sleep secs).

Section Cycle.
Variable repr_container : json → string.
(** [datetime.fromisoformat(text)]: [None] where it raises, and otherwise
    the datetime, given as what its [timestamp()] returns or raises (a
    datetime without offset that the platform cannot convert). *)
Variable iso_timestamp : string → option (result Z).
Variable SCAN_INTERVAL : Z.

Abbreviation str := (py_str repr_container).

(** "Update last scan timestamp": [labels(image=image)] has returned the
    child before [scan_dt.timestamp()] is evaluated. *)
Definition update_last_scan (r : report) : eff call unit :=
  if truthy (scan_time r) then
    try_except
      (text ← lift (match scan_time r with
                    | JStr s => Ok (replace_Z s)
                    | _ => Raise AttributeError
                    end);
       scan_dt ← lift (match iso_timestamp text with
                       | Some dt => Ok dt
                       | None => Raise ValueError
                       end);
       emit (LastScan (Gauge.Labels (str (image r))));;
       stamp ← lift scan_dt;
       emit (LastScan (Gauge.SetChild (str (image r)) stamp)))
      (λ _, emit (Log Warning))
  else mret ().

(** The [try] around [trivy_vulnerability_info.labels(...).set(1)]: the
    label values are evaluated before [labels] is called. *)
Definition set_vulnerability_info (img : json) (vuln : vulnerability) : eff call unit :=
  try_except
    (fixed ← lift (if truthy (fixed_version vuln)
                   then py_slice 64 (fixed_version vuln)
                   else Ok (JStr ""));
     let labels := (str (vulnerability_id vuln), str img, str (package vuln),
                    str (severity vuln), str (installed_version vuln), str fixed) in
     emit (VulnerabilityInfo (Gauge.Labels labels));;
     emit (VulnerabilityInfo (Gauge.SetChild labels 1)))
    (λ _, emit (Log Warning)).

(** [for vuln in report_data['vulnerabilities']] *)
Fixpoint count_vulnerabilities (img : json) (vulns : list vulnerability)
    (vuln_counts : list (count_key * Z)) : eff call (list (count_key * Z)) :=
  match vulns with
  | [] => mret vuln_counts
  | vuln :: rest =>
      vuln_counts ← lift (count_one (img, severity vuln, package vuln) vuln_counts);
      set_vulnerability_info img vuln;;
      count_vulnerabilities img rest vuln_counts
  end.

(** [for (img, sev, pkg), count in vuln_counts.items()] *)
Definition publish_counts (vuln_counts : list (count_key * Z)) : eff call unit :=
  for_each vuln_counts (λ '((img, sev, pkg), count),
    emit (Vulnerabilities (Gauge.Labels (str img, str sev, str pkg)));;
    emit (Vulnerabilities (Gauge.SetChild (str img, str sev, str pkg) count))).

(** Everything the loop does with one parsed report. *)
Definition publish_report (r : report) : eff call unit :=
  update_last_scan r;;
  vuln_counts ← count_vulnerabilities (image r) (vulnerabilities r) [];
  publish_counts vuln_counts.

(** [for report_file in report_files], returning [images_scanned]. *)
Fixpoint process_reports (report_files : list loaded) (images_scanned : Z) : eff call Z :=
  match report_files with
  | [] => mret images_scanned
  | report_file :: rest =>
      report_data ← parse_trivy_report report_file;
      match report_data with
      | None => process_reports rest images_scanned
      | Some r => publish_report r;; process_reports rest (images_scanned + 1)%Z
      end
  end.

(** [update_metrics] from [reports_path = Path(REPORTS_DIR)] on. *)
Definition read_reports (d : reports_dir) : eff call unit :=
  is_there ← lift (dir_exists d);
  if negb is_there then
    emit (Log Warning);; emit (ImagesScannedSet 0)
  else
    is_dir ← lift (dir_is_dir d);
    if negb is_dir then
      emit (Log Error);; emit (ImagesScannedSet 0)
    else
      match dir_glob d with
      | Raise _ => emit (Log Error);; emit (ImagesScannedSet 0)
      | Ok [] => emit (Log Info);; emit (ImagesScannedSet 0)
      | Ok report_files =>
          emit (Log Info);;
          images_scanned ← process_reports report_files 0;
          emit (ImagesScannedSet images_scanned);;
          emit (Log Info)
      end.

Definition update_metrics (d : reports_dir) : eff call unit :=
  emit (Vulnerabilities Gauge.Clear);;
  emit (VulnerabilityInfo Gauge.Clear);;
  read_reports d.

(** One turn of [while True] in [main]; the sleep is outside the [try]. *)
Definition main_cycle (d : reports_dir) : eff call unit :=
  try_except (update_metrics d;; emit ReadySet) (λ _, emit (Log Error));;
  sleep SCAN_INTERVAL.

(** The [while True] of [main], one turn per successive state of the
    directory; an exception that leaves a turn leaves the loop. *)
Definition main_loop (dirs : list reports_dir) : eff call unit :=
  for_each dirs main_cycle.
End Cycle.

Inductive body :=
  | Plain (text : string)
  | Exposition (vulnerabilities : gmap count_labels Z) (last_scan : gmap string Z)
               (info : gmap info_labels Z) (images_scanned : Z).

Record response := { code : nat; content : body }.

Definition nl : string := String "010"%char "".

Definition generate_latest (s : state) : body :=
  Exposition (trivy_image_vulnerabilities s) (trivy_last_scan_timestamp s)
             (trivy_vulnerability_info s) (trivy_images_scanned s).

(** [MetricsAndHealthHandler.do_GET], with the state it finds. *)
Definition do_GET (path : string) (s : state) : response :=
  if String.eqb path "/-/healthy" then
    {| code := 200; content := Plain ("OK" +:+ nl) |}
  else if String.eqb path "/-/ready" then
    if _ready s then {| code := 200; content := Plain ("Ready" +:+ nl) |}
    else {| code := 503; content := Plain ("Not ready yet" +:+ nl) |}
  else if bool_decide (path ∈ ["/metrics"; "/metrics/"]) then
    {| code := 200; content := generate_latest s |}
  else {| code := 404; content := Plain ("Not found" +:+ nl) |}.

End Exporter.

(** ** Security/trivy/dashboard/trivy_exporter.py *)

Module Dashboard.

Definition count_labels : Type := string * string * string.
Definition id_labels : Type := string * string * string * string.

(** The detail family is an [Info]: a child holds the dict last given to
    [info], and the empty dict from [labels] until then. *)
Record state := {
  trivy_image_vulnerabilities : gmap count_labels Z;
  trivy_last_scan_timestamp : gmap string Z;
  trivy_vulnerability_id : gmap id_labels (list (string * json));
  trivy_images_scanned : Z;
}.

Definition initial : state := {|
  trivy_image_vulnerabilities := ∅;
  trivy_last_scan_timestamp := ∅;
  trivy_vulnerability_id := ∅;
  trivy_images_scanned := 0;
|}.

Inductive call :=
  | Vulnerabilities (c : Gauge.call count_labels)
  | LastScan (c : Gauge.call string)
  | VulnerabilityIdLabels (k : id_labels)
  | VulnerabilityIdInfo (k : id_labels) (val : list (string * json))
  | ImagesScannedSet (n : Z)
  | Log (l : level)
  | Sleep (seconds : Z).

Definition apply (s : state) (c : call) : state :=
  match c with
  | Vulnerabilities g =>
      {| trivy_image_vulnerabilities := Gauge.apply g (trivy_image_vulnerabilities s);
         trivy_last_scan_timestamp := trivy_last_scan_timestamp s;
         trivy_vulnerability_id := trivy_vulnerability_id s;
         trivy_images_scanned := trivy_images_scanned s |}
  | LastScan g =>
      {| trivy_image_vulnerabilities := trivy_image_vulnerabilities s;
         trivy_last_scan_timestamp := Gauge.apply g (trivy_last_scan_timestamp s);
         trivy_vulnerability_id := trivy_vulnerability_id s;
         trivy_images_scanned := trivy_images_scanned s |}
  | VulnerabilityIdLabels k =>
      {| trivy_image_vulnerabilities := trivy_image_vulnerabilities s;
         trivy_last_scan_timestamp := trivy_last_scan_timestamp s;
         trivy_vulnerability_id :=
           match trivy_vulnerability_id s !! k with
           | Some _ => trivy_vulnerability_id s
           | None => <[k := []]> (trivy_vulnerability_id s)
           end;
         trivy_images_scanned := trivy_images_scanned s |}
  | VulnerabilityIdInfo k val =>
      {| trivy_image_vulnerabilities := trivy_image_vulnerabilities s;
         trivy_last_scan_timestamp := trivy_last_scan_timestamp s;
         trivy_vulnerability_id := <[k := val]> (trivy_vulnerability_id s);
         trivy_images_scanned := trivy_images_scanned s |}
  | ImagesScannedSet n =>
      {| trivy_image_vulnerabilities := trivy_image_vulnerabilities s;
         trivy_last_scan_timestamp := trivy_last_scan_timestamp s;
         trivy_vulnerability_id := trivy_vulnerability_id s;
         trivy_images_scanned := n |}
  | Log _ | Sleep _ => s
  end.

Definition exec (cs : list call) (s : state) : state := foldl apply s cs.

Record vulnerability := {
  vuln_image : json;
  target : json;
  vulnerability_id : json;
  package : json;
  installed_version : json;
  fixed_version : json;
  severity : json;
  title : json;
}.

Record report := {
  image : json;
  scan_time : json;
  vulnerabilities : list vulnerability;
}.

Definition parse_vulnerability (image_name target vuln : json) : eff call vulnerability :=
  vid ← lift (py_get vuln "VulnerabilityID" (JStr ""));
  pkg ← lift (py_get vuln "PkgName" (JStr ""));
  installed ← lift (py_get vuln "InstalledVersion" (JStr ""));
  fixed ← lift (py_get vuln "FixedVersion" (JStr ""));
  sev ← lift (py_get vuln "Severity" (JStr "UNKNOWN"));
  ttl ← lift (py_get vuln "Title" (JStr ""));
  mret {| vuln_image := image_name; target := target; vulnerability_id := vid;
          package := pkg; installed_version := installed; fixed_version := fixed;
          severity := sev; title := ttl |}.

Fixpoint parse_vulnerabilities (image_name target : json) (vulns : list json)
    (acc : list vulnerability) : eff call (list vulnerability) :=
  match vulns with
  | [] => mret acc
  | vuln :: rest =>
      v ← parse_vulnerability image_name target vuln;
      parse_vulnerabilities image_name target rest (acc ++ [v])
  end.

(** Here a [null] under "Vulnerabilities" is iterated as it is. *)
Fixpoint parse_results (image_name : json) (results : list json)
    (acc : list vulnerability) : eff call (list vulnerability) :=
  match results with
  | [] => mret acc
  | result :: rest =>
      target ← lift (py_get result "Target" (JStr ""));
      vs ← lift (py_get result "Vulnerabilities" (JArr []));
      vulns ← lift (py_iter vs);
      acc ← parse_vulnerabilities image_name target vulns acc;
      parse_results image_name rest acc
  end.

Definition parse_body (file : loaded) : eff call report :=
  data ← lift (load file);
  image_name ← lift (py_get data "ArtifactName" (JStr "unknown"));
  scan_time ← lift (py_get data "CreatedAt" (JStr ""));
  results ← lift (py_get data "Results" (JArr []));
  results ← lift (py_iter results);
  vulnerabilities ← parse_results image_name results [];
  mret {| image := image_name; scan_time := scan_time;
          vulnerabilities := vulnerabilities |}.

Definition parse_trivy_report (file : loaded) : eff call (option report) :=
  try_except (r ← parse_body file; mret (Some r))
    (λ e, emit (Log Error);; mret None).

Definition sleep (secs : Z) : eff call unit :=
  lift (py_sleep secs);; emit (Sleep secs).

Section Cycle.
Variable repr_container : json → string.
Variable iso_timestamp : string → option (result Z).
Variable SCAN_INTERVAL : Z.

Abbreviation str := (py_str repr_container).

Definition update_last_scan (r : report) : eff call unit :=
  if truthy (scan_time r) then
    try_except
      (text ← lift (match scan_time r with
                    | JStr s => Ok (replace_Z s)
                    | _ => Raise AttributeError
                    end);
       scan_dt ← lift (match iso_timestamp text with
                       | Some dt => Ok dt
                       | None => Raise ValueError
                       end);
       emit (LastScan (Gauge.Labels (str (image r))));;
       stamp ← lift scan_dt;
       emit (LastScan (Gauge.SetChild (str (image r)) stamp)))
      (λ _, emit (Log Warning))
  else mret ().

(** The [try] around [trivy_vulnerability_id.labels(...).info({...})]:
    [labels] has returned the child before the dict is built. *)
Definition set_vulnerability_id (img : json) (vuln : vulnerability) : eff call unit :=
  try_except
    (let labels := (str (vulnerability_id vuln), str img, str (package vuln),
                    str (severity vuln)) in
     emit (VulnerabilityIdLabels labels);;
     ttl ← lift (py_slice 100 (title vuln));
     emit (VulnerabilityIdInfo labels
             [("installed_version", installed_version vuln);
              ("fixed_version", fixed_version vuln);
              ("title", ttl)]))
    (λ _, emit (Log Warning)).

Fixpoint count_vulnerabilities (img : json) (vulns : list vulnerability)
    (vuln_counts : list (count_key * Z)) : eff call (list (count_key * Z)) :=
  match vulns with
  | [] => mret vuln_counts
  | vuln :: rest =>
      vuln_counts ← lift (count_one (img, severity vuln, package vuln) vuln_counts);
      set_vulnerability_id img vuln;;
      count_vulnerabilities img rest vuln_counts
  end.

Definition publish_counts (vuln_counts : list (count_key * Z)) : eff call unit :=
  for_each vuln_counts (λ '((img, sev, pkg), count),
    emit (Vulnerabilities (Gauge.Labels (str img, str sev, str pkg)));;
    emit (Vulnerabilities (Gauge.SetChild (str img, str sev, str pkg) count))).

Definition publish_report (r : report) : eff call unit :=
  update_last_scan r;;
  vuln_counts ← count_vulnerabilities (image r) (vulnerabilities r) [];
  publish_counts vuln_counts.

Fixpoint process_reports (report_files : list loaded) (images_scanned : Z) : eff call Z :=
  match report_files with
  | [] => mret images_scanned
  | report_file :: rest =>
      report_data ← parse_trivy_report report_file;
      match report_data with
      | None => process_reports rest images_scanned
      | Some r => publish_report r;; process_reports rest (images_scanned + 1)%Z
      end
  end.

(** No [is_dir] test and no handler around [glob] in this file; only the
    count family is cleared, and only once the directory exists. *)
Definition update_metrics (d : reports_dir) : eff call unit :=
  is_there ← lift (dir_exists d);
  if negb is_there then emit (Log Warning)
  else
    emit (Vulnerabilities Gauge.Clear);;
    report_files ← lift (dir_glob d);
    match report_files with
    | [] => emit (Log Info)
    | _ =>
        emit (Log Info);;
        images_scanned ← process_reports report_files 0;
        emit (ImagesScannedSet images_scanned);;
        emit (Log Info)
    end.

Definition main_cycle (d : reports_dir) : eff call unit :=
  try_except (update_metrics d) (λ _, emit (Log Error));;
  sleep SCAN_INTERVAL.

Definition main_loop (dirs : list reports_dir) : eff call unit :=
  for_each dirs main_cycle.
End Cycle.

End Dashboard.

(** ** Security/trivy/trivy-prometheus-exporter.py *)

Module PrometheusExporter.

(** image, severity, namespace, vuln_id, package_name, installed_version,
    fixed_version *)
Definition vulnerability_labels : Type :=
  string * string * string * string * string * string * string.

(** A child of the histogram is kept as the list of the values observed,
    oldest first. *)
Record state := {
  vulnerability_gauge : gmap vulnerability_labels Z;
  last_scan_timestamp : gmap (string * string) Z;
  scan_duration : gmap string (list Z);
  scan_errors : gmap (string * string) Z;
}.

Definition initial : state := {|
  vulnerability_gauge := ∅;
  last_scan_timestamp := ∅;
  scan_duration := ∅;
  scan_errors := ∅;
|}.

Inductive call :=
  | VulnerabilityGauge (c : Gauge.call vulnerability_labels)
  | LastScan (c : Gauge.call (string * string))
  | ScanErrors (c : Gauge.call (string * string))
  | ScanDurationLabels (image : string)
  | ScanDurationObserve (image : string) (amount : Z)
  | Log (l : level)
  | Sleep (seconds : Z).

Definition apply (s : state) (c : call) : state :=
  match c with
  | VulnerabilityGauge g =>
      {| vulnerability_gauge := Gauge.apply g (vulnerability_gauge s);
         last_scan_timestamp := last_scan_timestamp s;
         scan_duration := scan_duration s;
         scan_errors := scan_errors s |}
  | LastScan g =>
      {| vulnerability_gauge := vulnerability_gauge s;
         last_scan_timestamp := Gauge.apply g (last_scan_timestamp s);
         scan_duration := scan_duration s;
         scan_errors := scan_errors s |}
  | ScanErrors g =>
      {| vulnerability_gauge := vulnerability_gauge s;
         last_scan_timestamp := last_scan_timestamp s;
         scan_duration := scan_duration s;
         scan_errors := Gauge.apply g (scan_errors s) |}
  | ScanDurationLabels image =>
      {| vulnerability_gauge := vulnerability_gauge s;
         last_scan_timestamp := last_scan_timestamp s;
         scan_duration :=
           match scan_duration s !! image with
           | Some _ => scan_duration s
           | None => <[image := []]> (scan_duration s)
           end;
         scan_errors := scan_errors s |}
  | ScanDurationObserve image amount =>
      {| vulnerability_gauge := vulnerability_gauge s;
         last_scan_timestamp := last_scan_timestamp s;
         scan_duration :=
           <[image := default [] (scan_duration s !! image) ++ [amount]]> (scan_duration s);
         scan_errors := scan_errors s |}
  | Log _ | Sleep _ => s
  end.

Definition exec (cs : list call) (s : state) : state := foldl apply s cs.

(** The [CompletedProcess] of [subprocess.run]; [stdout] is given as what
    [json.loads] makes of it. *)
Record completed := {
  returncode : Z;
  stdout : loaded;
  stderr : string;
}.

(** One scan attempt: the three readings of [time.time()] in [scan_image]
    and what [subprocess.run] does between the first two. *)
Record attempt := {
  start_time : Z;
  run_result : result completed;
  end_time : Z;
  stamp_time : Z;
}.

Definition sleep (secs : Z) : eff call unit :=
  lift (py_sleep secs);; emit (Sleep secs).

(** [scan_image]: [None] or the decoded scan output. *)
Definition scan_image (image namespace : string) (a : attempt) : eff call (option json) :=
  emit (Log Info);;
  try_except
    (result ← lift (run_result a);
     let duration := (end_time a - start_time a)%Z in
     emit (ScanDurationLabels image);;
     emit (ScanDurationObserve image duration);;
     if negb (returncode result =? 0)%Z then
       emit (Log Error);;
       emit (ScanErrors (Gauge.Labels (image, namespace)));;
       emit (ScanErrors (Gauge.SetChild (image, namespace) 1));;
       mret None
     else
       scan_data ← lift (load (stdout result));
       emit (Log Info);;
       emit (LastScan (Gauge.Labels (image, namespace)));;
       emit (LastScan (Gauge.SetChild (image, namespace) (stamp_time a)));;
       emit (ScanErrors (Gauge.Labels (image, namespace)));;
       emit (ScanErrors (Gauge.SetChild (image, namespace) 0));;
       mret (Some scan_data))
    (λ e,
       (* [except subprocess.TimeoutExpired] and [except Exception] differ
          in the message only *)
       emit (Log Error);;
       emit (ScanErrors (Gauge.Labels (image, namespace)));;
       emit (ScanErrors (Gauge.SetChild (image, namespace) 1));;
       mret None).

Section Cycle.
Variable repr_container : json → string.

Abbreviation str := (py_str repr_container).

(** [for vuln in vulnerabilities], returning [vulnerability_count]. *)
Fixpoint process_vulnerabilities (image namespace : string) (vulns : list json)
    (vulnerability_count : Z) : eff call Z :=
  match vulns with
  | [] => mret vulnerability_count
  | vuln :: rest =>
      severity ← lift (py_get vuln "Severity" (JStr "UNKNOWN"));
      vuln_id ← lift (py_get vuln "VulnerabilityID" (JStr "N/A"));
      pkg_name ← lift (py_get vuln "PkgName" (JStr "N/A"));
      installed_ver ← lift (py_get vuln "InstalledVersion" (JStr "N/A"));
      fixed_ver ← lift (py_get vuln "FixedVersion" (JStr "N/A"));
      let labels := (image, str severity, namespace, str vuln_id, str pkg_name,
                     str installed_ver, str fixed_ver) in
      emit (VulnerabilityGauge (Gauge.Labels labels));;
      emit (VulnerabilityGauge (Gauge.SetChild labels 1));;
      process_vulnerabilities image namespace rest (vulnerability_count + 1)%Z
  end.

(** [for result in scan_data.get('Results', [])] *)
Fixpoint process_results (image namespace : string) (results : list json)
    (vulnerability_count : Z) : eff call Z :=
  match results with
  | [] => mret vulnerability_count
  | result :: rest =>
      vulnerabilities ← lift (py_get result "Vulnerabilities" (JArr []));
      vulns ← lift (py_iter vulnerabilities);
      vulnerability_count ← process_vulnerabilities image namespace vulns vulnerability_count;
      process_results image namespace rest vulnerability_count
  end.

Definition process_scan_results (image namespace : string) (scan_data : json) : eff call unit :=
  if negb (truthy scan_data) then mret ()
  else
    has_results ← lift (py_contains "Results" scan_data);
    if negb has_results then mret ()
    else
      results ← lift (py_get scan_data "Results" (JArr []));
      results ← lift (py_iter results);
      vulnerability_count ← process_results image namespace results 0;
      emit (Log Info).

(** The body of the loop of [scan_all_images] for one subject. *)
Definition scan_one (subject : string * string * attempt) : eff call unit :=
  let '(image, namespace, a) := subject in
  scan_data ← scan_image image namespace a;
  match scan_data with
  | Some data => if truthy data then process_scan_results image namespace data else mret ()
  | None => mret ()
  end;;
  sleep 2.

(** [scan_all_images], given what [get_images_from_cluster] returned and
    how the scan of each image goes. *)
Definition scan_all_images (images : list (string * string * attempt)) : eff call unit :=
  match images with
  | [] => emit (Log Warning)
  | _ => for_each images scan_one
  end.

(** One turn of [while True] in [run].  [KeyboardInterrupt], which leaves
    the loop, is not an [Exception] and is not modelled. *)
Definition run_cycle (interval : Z) (images : list (string * string * attempt)) : eff call unit :=
  try_except
    (emit (Log Info);;
     scan_all_images images;;
     emit (Log Info);;
     sleep interval)
    (λ e, emit (Log Error);; sleep 60).

Definition run (interval : Z) (cycles : list (list (string * string * attempt))) : eff call unit :=
  emit (Log Info);;
  for_each cycles (run_cycle interval).
End Cycle.

End PrometheusExporter.

(** ** trivy-exporter.py: the access log of the handler *)

Module Handler.

(** [MetricsAndHealthHandler.log_message(fmt, *args)]: [None] when the line
    is dropped, the arguments handed to [logger.debug] otherwise.  [any]
    tests the two probe paths in order and stops at the first that is
    found; [in] raises on a first argument that is not a container. *)
Definition log_message (fmt : string) (args : list json)
    : result (option (string * list json)) :=
  let first := match args with [] => JStr "" | a :: _ => a end in
  match py_contains "/-/healthy" first with
  | Raise e => Raise e
  | Ok true => Ok None
  | Ok false =>
      match py_contains "/-/ready" first with
      | Raise e => Raise e
      | Ok true => Ok None
      | Ok false => Ok (Some (fmt, args))
      end
  end.

End Handler.

(** ** trivy-prometheus-exporter.py: the images running in the cluster *)

Module Inventory.

(** What the loops read of a pod: the image of each container, and of each
    init container when the pod has any. *)
Record pod := {
  containers : list string;
  init_containers : option (list string);
}.

(** The exporter's filter and what the two calls on [self.v1] answer. *)
Record cluster := {
  namespace_filter : option string;
  list_namespace : result (list string);
  list_namespaced_pod : string → result (list pod);
}.

Definition system_namespaces : list string :=
  ["kube-system"; "kube-public"; "kube-node-lease"].

(** [namespaces] as the [if self.namespace_filter] leaves it. *)
Definition namespaces (c : cluster) : result (list string) :=
  match namespace_filter c with
  | Some f => if truthy (JStr f) then Ok [f] else list_namespace c
  | None => list_namespace c
  end.

(** [images.add((container.image, namespace))] for each image in turn. *)
Definition add_images (namespace : string) (images_of_pod : list string)
    (images : gset (string * string)) : gset (string * string) :=
  foldl (λ acc image, {[ (image, namespace) ]} ∪ acc) images images_of_pod.

(** The body of [for pod in pods.items]. *)
Definition add_pod (namespace : string) (p : pod)
    (images : gset (string * string)) : gset (string * string) :=
  let images := add_images namespace (containers p) images in
  match init_containers p with
  | Some ((_ :: _) as inits) => add_images namespace inits images
  | _ => images
  end.

(** [for namespace in namespaces] *)
Fixpoint visit_namespaces (c : cluster) (todo : list string)
    (images : gset (string * string)) : result (gset (string * string)) :=
  match todo with
  | [] => Ok images
  | namespace :: rest =>
      if bool_decide (namespace ∈ system_namespaces) then visit_namespaces c rest images
      else
        match list_namespaced_pod c namespace with
        | Raise e => Raise e
        | Ok pods =>
            visit_namespaces c rest (foldl (λ acc p, add_pod namespace p acc) images pods)
        end
  end.

(** [list(images)] lists the set in an order Python does not fix; here it is
    the order of [elements]. *)
Definition get_images_from_cluster (c : cluster)
    : eff PrometheusExporter.call (list (string * string)) :=
  try_except
    (todo ← lift (namespaces c);
     images ← lift (visit_namespaces c todo ∅);
     emit (PrometheusExporter.Log Info);;
     mret (elements images))
    (λ _, emit (PrometheusExporter.Log Error);; mret []).

Section Cycle.
Variable repr_container : json → string.

(** [scan_all_images] from the lookup on, [scan] telling how the scan of
    each image goes. *)
Definition scan_all_images (c : cluster)
    (scan : string → string → PrometheusExporter.attempt)
    : eff PrometheusExporter.call unit :=
  images ← get_images_from_cluster c;
  PrometheusExporter.scan_all_images repr_container
    ((λ '(image, namespace), (image, namespace, scan image namespace)) <$> images).
End Cycle.

End Inventory.

(** * Vocabulary of the statements *)

(** The value [members.get(k, d)] yields. *)
Definition field (members : list (string * json)) (k : string) (d : json) : json :=
  default d (dict_lookup k members).

Definition is_object (v : json) : bool :=
  match v with JObj _ => true | _ => false end.

(** Results of the shape Trivy writes, with any member left out: objects
    whose "Vulnerabilities", when present, is empty, [null] or a list of
    objects. *)
Definition findings_shaped (vs : json) : bool :=
  negb (truthy vs) || match vs with JArr l => forallb is_object l | _ => false end.

Definition result_shaped (r : json) : bool :=
  match r with
  | JObj m => findings_shaped (field m "Vulnerabilities" (JArr []))
  | _ => false
  end.

(** Everything but [clear] keeps the children it finds. *)
Definition keeps_children {K} (c : Gauge.call K) : bool :=
  match c with Gauge.Clear => false | _ => true end.

(** Calls of trivy-exporter.py that create or set a child, set the
    unlabelled gauge, or log: all that [update_metrics] makes after its two
    [clear()]. *)
Definition publishes (c : Exporter.call) : Prop :=
  match c with
  | Exporter.Vulnerabilities g => keeps_children g = true
  | Exporter.LastScan g => keeps_children g = true
  | Exporter.VulnerabilityInfo g => keeps_children g = true
  | Exporter.ImagesScannedSet _ | Exporter.Log _ => True
  | Exporter.ReadySet | Exporter.Sleep _ => False
  end.

(** Calls of trivy-exporter.py other than [_ready.set()]. *)
Definition leaves_ready (c : Exporter.call) : Prop :=
  match c with Exporter.ReadySet => False | _ => True end.

(** A directory on which [update_metrics] raises. *)
Definition cycle_raises (repr_container : json → string)
    (iso_timestamp : string → option (result Z)) (d : reports_dir) : Prop :=
  raised (outcome (Exporter.update_metrics repr_container iso_timestamp d)) = true.

(** A length that [time.sleep] accepts. *)
Definition sleep_accepts (secs : Z) : Prop := (0 ≤ secs ≤ sleep_limit)%Z.

(** No usable report: the directory is absent, is not a directory, cannot
    be listed, or holds no [*.json] file. *)
Definition no_reports (d : reports_dir) : bool :=
  match dir_exists d, dir_is_dir d with
  | Ok false, _ | Ok true, Ok false => true
  | Ok true, Ok true =>
      match dir_glob d with
      | Ok [] | Raise _ => true
      | Ok _ => false
      end
  | _, _ => false
  end.

(** A directory that exists and lists [files]. *)
Definition listing (files : list loaded) : reports_dir :=
  {| dir_exists := Ok true; dir_is_dir := Ok true; dir_glob := Ok files |}.

(** The reports of a listing that parse, in order. *)
Definition parsed (files : list loaded) : list Exporter.report :=
  omap (λ file, match outcome (Exporter.parse_trivy_report file) with
                | Ok r => r
                | Raise _ => None
                end) files.

Definition is_str (v : json) : bool :=
  match v with JStr _ => true | _ => false end.

(** A report whose label material is text: the artifact name, and the
    severity and the package name of every finding. *)
Definition text_labels (r : Exporter.report) : Prop :=
  is_str (Exporter.image r) = true ∧
  Forall (λ v, is_str (Exporter.severity v) = true ∧ is_str (Exporter.package v) = true)
         (Exporter.vulnerabilities r).

(** The number of findings in a list of reports. *)
Definition findings (reports : list Exporter.report) : Z :=
  foldr (λ r acc, (Z.of_nat (length (Exporter.vulnerabilities r)) + acc)%Z) 0%Z reports.

(** The sum of the counts held in [vuln_counts]. *)
Definition dict_total (d : list (count_key * Z)) : Z :=
  foldr (λ kc acc, (kc.2 + acc)%Z) 0%Z d.

(** Calls that do not touch the count family. *)
Definition leaves_counts (c : Exporter.call) : Prop :=
  match c with Exporter.Vulnerabilities _ => False | _ => True end.

(** The label values [labels(...)] makes of a key of [vuln_counts]. *)
Definition key_labels (repr_container : json → string) (k : count_key)
    : string * string * string :=
  let '(img, sev, pkg) := k in
  (py_str repr_container img, py_str repr_container sev, py_str repr_container pkg).

(** A key of [vuln_counts] made of the image name [i] and two strings. *)
Definition text_key (i : string) (k : count_key) : Prop :=
  ∃ a b, k = (JStr i, JStr a, JStr b).

(** [vuln_counts] after the loop over the findings of one report. *)
Definition tally (img : json) (vulns : list Exporter.vulnerability)
    (d : list (count_key * Z)) : list (count_key * Z) :=
  foldl (λ d v, dict_increment (img, Exporter.severity v, Exporter.package v) d) d vulns.

(** Every label of the family carries one of the image names [seen]. *)
Definition images_within (seen : list string) (g : gmap (string * string * string) Z) : Prop :=
  ∀ l, l ∈ dom g → l.1.1 ∈ seen.

(** A scan attempt that fails: [subprocess.run] raises (the timeout
    included), the scanner exits non-zero, or its output does not decode. *)
Definition scan_fails (a : PrometheusExporter.attempt) : bool :=
  match PrometheusExporter.run_result a with
  | Raise _ => true
  | Ok result =>
      negb (PrometheusExporter.returncode result =? 0)%Z ||
      match PrometheusExporter.stdout result with
      | LoadFails _ => true
      | Loads _ => false
      end
  end.

(** The images the lookup reads off a pod. *)
Definition pod_images (p : Inventory.pod) : list string :=
  Inventory.containers p ++ default [] (Inventory.init_containers p).

(** [(image, namespace)] is an image of a pod that the API lists in
    [namespace]. *)
Definition runs_in (c : Inventory.cluster) (image namespace : string) : Prop :=
  ∃ pods p, Inventory.list_namespaced_pod c namespace = Ok pods
            ∧ p ∈ pods ∧ image ∈ pod_images p.

(** The finding [parse_trivy_report] makes of an object with these
    members. *)
Definition finding_record (img : json) (members : list (string * json))
    : Exporter.vulnerability :=
  {| Exporter.vuln_image := img;
     Exporter.vulnerability_id := field members "VulnerabilityID" (JStr "");
     Exporter.package := field members "PkgName" (JStr "");
     Exporter.installed_version := field members "InstalledVersion" (JStr "");
     Exporter.fixed_version := field members "FixedVersion" (JStr "");
     Exporter.severity := field members "Severity" (JStr "UNKNOWN");
     Exporter.title := field members "Title" (JStr "") |}.

(** The findings listed under "Vulnerabilities" in one result, in order. *)
Definition findings_of (img : json) (result : json) : list Exporter.vulnerability :=
  match result with
  | JObj m =>
      match field m "Vulnerabilities" (JArr []) with
      | JArr vs =>
          omap (λ v, match v with
                     | JObj vm => Some (finding_record img vm)
                     | _ => None
                     end) vs
      | _ => []
      end
  | _ => []
  end.

(** The documents [parse_trivy_report] makes a report of: objects whose
    "Results" can be iterated and yields well-shaped results only. *)
Definition readable (d : json) : bool :=
  match d with
  | JObj m =>
      match py_iter (field m "Results" (JArr [])) with
      | Ok items => forallb result_shaped items
      | Raise _ => false
      end
  | _ => false
  end.

(** A finding of the dashboard parser without its target. *)
Definition forget_target (v : Dashboard.vulnerability) : Exporter.vulnerability :=
  {| Exporter.vuln_image := Dashboard.vuln_image v;
     Exporter.vulnerability_id := Dashboard.vulnerability_id v;
     Exporter.package := Dashboard.package v;
     Exporter.installed_version := Dashboard.installed_version v;
     Exporter.fixed_version := Dashboard.fixed_version v;
     Exporter.severity := Dashboard.severity v;
     Exporter.title := Dashboard.title v |}.

(** The report the exporter parser makes of what the dashboard parser read. *)
Definition as_exporter_report (r : Dashboard.report) : Exporter.report :=
  {| Exporter.image := Dashboard.image r;
     Exporter.scan_time := Dashboard.scan_time r;
     Exporter.vulnerabilities := forget_target <$> Dashboard.vulnerabilities r |}.

(** What a call on a gauge does to the child under [k]. *)
Definition child_step `{Countable K} (c : Gauge.call K) (k : K) (o : option Z) : option Z :=
  match c with
  | Gauge.Clear => None
  | Gauge.Labels k' => if decide (k' = k) then Some (default 0%Z o) else o
  | Gauge.SetChild k' v => if decide (k' = k) then Some v else o
  end.

(** The calls of a list that are made on each family of trivy-exporter.py. *)
Definition on_vulnerabilities (cs : list Exporter.call) : list (Gauge.call Exporter.count_labels) :=
  omap (λ c, match c with Exporter.Vulnerabilities g => Some g | _ => None end) cs.

Definition on_last_scan (cs : list Exporter.call) : list (Gauge.call string) :=
  omap (λ c, match c with Exporter.LastScan g => Some g | _ => None end) cs.

Definition on_vulnerability_info (cs : list Exporter.call) : list (Gauge.call Exporter.info_labels) :=
  omap (λ c, match c with Exporter.VulnerabilityInfo g => Some g | _ => None end) cs.

(** The seconds slept in a list of calls. *)
Definition slept (cs : list Exporter.call) : Z :=
  foldr (λ c acc, match c with Exporter.Sleep n => (n + acc)%Z | _ => acc end) 0%Z cs.

Definition scan_slept (cs : list PrometheusExporter.call) : Z :=
  foldr (λ c acc, match c with PrometheusExporter.Sleep n => (n + acc)%Z | _ => acc end)
        0%Z cs.

(** Calls of trivy-prometheus-exporter.py that leave the vulnerability
    gauge alone and remove no child of the other families. *)
Definition beside_findings (c : PrometheusExporter.call) : Prop :=
  match c with
  | PrometheusExporter.VulnerabilityGauge _ => False
  | PrometheusExporter.LastScan g
  | PrometheusExporter.ScanErrors g => keeps_children g = true
  | _ => True
  end.

(** [m] keeps the property [Inv] of the registry: it holds after the calls
    of [m] when it held before them. *)
Definition scan_keeps {A} (Inv : PrometheusExporter.state → Prop)
    (m : eff PrometheusExporter.call A) : Prop :=
  ∀ s, Inv s → Inv (PrometheusExporter.exec (calls m) s).

(** Every sample of the vulnerability gauge reads 1. *)
Definition findings_read_one (s : PrometheusExporter.state) : Prop :=
  map_Forall (λ _ v, v = 1%Z) (PrometheusExporter.vulnerability_gauge s).

(** Every child of every family of [s] is a child in [s']. *)
Definition children_within (s s' : PrometheusExporter.state) : Prop :=
  dom (PrometheusExporter.vulnerability_gauge s) ⊆ dom (PrometheusExporter.vulnerability_gauge s')
  ∧ dom (PrometheusExporter.last_scan_timestamp s) ⊆ dom (PrometheusExporter.last_scan_timestamp s')
  ∧ dom (PrometheusExporter.scan_duration s) ⊆ dom (PrometheusExporter.scan_duration s')
  ∧ dom (PrometheusExporter.scan_errors s) ⊆ dom (PrometheusExporter.scan_errors s').

(** The number of subjects [scan_all_images] is through with when it
    returns or raises: those before the first whose loop body raises. *)
Fixpoint completed_scans (repr_container : json → string)
    (images : list (string * string * PrometheusExporter.attempt)) : nat :=
  match images with
  | [] => 0
  | subject :: rest =>
      match outcome (PrometheusExporter.scan_one repr_container subject) with
      | Ok _ => S (completed_scans repr_container rest)
      | Raise _ => 0
      end
  end.

(** [k] occurs in [s] as a substring. *)
Definition occurs_in (k s : string) : Prop :=
  ∃ pre post, s = String.append pre (String.append k post).

(** Calls of dashboard/trivy_exporter.py that remove no timestamp; no call
    of that program removes a child of the detail family. *)
Definition dashboard_keeps (c : Dashboard.call) : Prop :=
  match c with
  | Dashboard.LastScan g => keeps_children g = true
  | _ => True
  end.

(** Calls other than [time.sleep]. *)
Definition quiet_call (c : PrometheusExporter.call) : Prop :=
  match c with PrometheusExporter.Sleep _ => False | _ => True end.

(** The labels [process_scan_results] gives the finding with these
    members. *)
Definition finding_labels (repr_container : json → string) (image namespace : string)
    (vm : list (string * json)) : PrometheusExporter.vulnerability_labels :=
  (image,
   py_str repr_container (field vm "Severity" (JStr "UNKNOWN")),
   namespace,
   py_str repr_container (field vm "VulnerabilityID" (JStr "N/A")),
   py_str repr_container (field vm "PkgName" (JStr "N/A")),
   py_str repr_container (field vm "InstalledVersion" (JStr "N/A")),
   py_str repr_container (field vm "FixedVersion" (JStr "N/A"))).

(** A result of scanner output whose "Vulnerabilities" is absent or a list
    of objects, and the members of those objects. *)
Definition result_listed (r : json) : bool :=
  match r with
  | JObj m =>
      match field m "Vulnerabilities" (JArr []) with
      | JArr vs => forallb is_object vs
      | _ => false
      end
  | _ => false
  end.

Definition listed_findings (r : json) : list (list (string * json)) :=
  match r with
  | JObj m =>
      match field m "Vulnerabilities" (JArr []) with
      | JArr vs => omap (λ v, match v with JObj vm => Some vm | _ => None end) vs
      | _ => []
      end
  | _ => []
  end.

(** The two calls that publish one finding. *)
Definition publish_finding (repr_container : json → string) (image namespace : string)
    (vm : list (string * json)) : list PrometheusExporter.call :=
  [PrometheusExporter.VulnerabilityGauge
     (Gauge.Labels (finding_labels repr_container image namespace vm));
   PrometheusExporter.VulnerabilityGauge
     (Gauge.SetChild (finding_labels repr_container image namespace vm) 1)].

(** A scan attempt in which the scanner exits with 0 and prints an object
    [m] that holds under "Results" the list [rs] of results, each an
    object with "Vulnerabilities" absent or a list of objects. *)
Definition scanned_well (a : PrometheusExporter.attempt)
    (m : list (string * json)) (rs : list json) : Prop :=
  ∃ result,
    PrometheusExporter.run_result a = Ok result
    ∧ PrometheusExporter.returncode result = 0%Z
    ∧ PrometheusExporter.stdout result = Loads (JObj m)
    ∧ dict_lookup "Results" m = Some (JArr rs)
    ∧ forallb result_listed rs = true.

(** Inputs used to evaluate the programs. *)
Module Sample.
Definition finding (id pkg sev : string) : json :=
  JObj [("VulnerabilityID", JStr id); ("PkgName", JStr pkg); ("Severity", JStr sev)].

Definition document (artifact : string) (findings : list json) : json :=
  JObj [("ArtifactName", JStr artifact);
        ("Results", JArr [JObj [("Target", JStr artifact);
                                ("Vulnerabilities", JArr findings)]])].

Definition absent : reports_dir :=
  {| dir_exists := Ok false; dir_is_dir := Ok false; dir_glob := Ok [] |}.

(** A path under a directory the process may not search. *)
Definition unreadable : reports_dir :=
  {| dir_exists := Raise PermissionError; dir_is_dir := Raise PermissionError;
     dir_glob := Raise PermissionError |}.

(** A report whose artifact name is a list. *)
Definition unhashable : loaded :=
  Loads (JObj [("ArtifactName", JArr [JStr "app:1.0"]);
               ("Results", JArr [JObj [("Vulnerabilities",
                  JArr [finding "CVE-1" "libfoo" "HIGH"])]])]).

(** A scan that takes 7 seconds, exits with [rc] and prints [out]. *)
Definition exits (rc : Z) (out : loaded) : PrometheusExporter.attempt :=
  {| PrometheusExporter.start_time := 1000;
     PrometheusExporter.run_result :=
       Ok {| PrometheusExporter.returncode := rc;
             PrometheusExporter.stdout := out;
             PrometheusExporter.stderr := "" |};
     PrometheusExporter.end_time := 1007;
     PrometheusExporter.stamp_time := 1008 |}.

(** A scan that [subprocess.run] gives up on after 300 seconds. *)
Definition timed_out : PrometheusExporter.attempt :=
  {| PrometheusExporter.start_time := 1000;
     PrometheusExporter.run_result := Raise TimeoutExpired;
     PrometheusExporter.end_time := 1300;
     PrometheusExporter.stamp_time := 1300 |}.

(** A cluster with a web pod (one container, one init container) in
    "default", a pod in "kube-system", and a namespace "broken" whose pods
    cannot be listed. *)
Definition pods_of (namespace : string) : result (list Inventory.pod) :=
  if String.eqb namespace "default" then
    Ok [{| Inventory.containers := ["web:3"]; Inventory.init_containers := Some ["init:1"] |}]
  else if String.eqb namespace "kube-system" then
    Ok [{| Inventory.containers := ["dns:1"]; Inventory.init_containers := None |}]
  else Raise OSError.

Definition cluster (filter : option string) (listed : list string) : Inventory.cluster :=
  {| Inventory.namespace_filter := filter;
     Inventory.list_namespace := Ok listed;
     Inventory.list_namespaced_pod := pods_of |}.

(** No list or dict reaches a label and no report carries "CreatedAt" in
    these inputs. *)
Definition repr : json → string := λ _, "".
Definition clock : string → option (result Z) := λ _, None.
End Sample.

(** * Properties *)

(** ** Calls and outcomes of composed statements *)

Section EffFacts.
Context {W : Type}.

Lemma calls_bind {A B} (m : eff W A) (f : A → eff W B) :
  calls (m ≫= f) =
  calls m ++ match outcome m with Ok a => calls (f a) | Raise _ => [] end.
Proof.
  destruct m as [ws [a|e]]; unfold calls, outcome, mbind, eff_bind; simpl.
  - by destruct (f a).
  - by rewrite app_nil_r.
Qed.

Lemma outcome_bind {A B} (m : eff W A) (f : A → eff W B) :
  outcome (m ≫= f) =
  match outcome m with Ok a => outcome (f a) | Raise e => Raise e end.
Proof.
  destruct m as [ws [a|e]]; unfold calls, outcome, mbind, eff_bind; simpl.
  - by destruct (f a).
  - done.
Qed.

Lemma calls_bind_ok {A B} (m : eff W A) (f : A → eff W B) a :
  outcome m = Ok a → calls (m ≫= f) = calls m ++ calls (f a).
Proof. intros Hm. by rewrite calls_bind, Hm. Qed.

Lemma outcome_bind_ok {A B} (m : eff W A) (f : A → eff W B) a :
  outcome m = Ok a → outcome (m ≫= f) = outcome (f a).
Proof. intros Hm. by rewrite outcome_bind, Hm. Qed.

Lemma bind_ok {A B} (m : eff W A) (f : A → eff W B) ws a :
  m = (ws, Ok a) → m ≫= f = (ws ++ calls (f a), outcome (f a)).
Proof. intros ->. unfold mbind, eff_bind, calls, outcome. by destruct (f a). Qed.

Lemma bind_raise {A B} (m : eff W A) (f : A → eff W B) ws e :
  m = (ws, Raise e) → m ≫= f = (ws, Raise e).
Proof. by intros ->. Qed.

Lemma eff_eta {A} (m : eff W A) : m = (calls m, outcome m).
Proof. by destruct m. Qed.

Lemma lift_bind_ok {A B} (a : A) (f : A → eff W B) : lift (Ok a) ≫= f = f a.
Proof. unfold lift, mbind, eff_bind. by destruct (f a). Qed.

Lemma pure_bind {A B} (a : A) (f : A → eff W B) : (([], Ok a) : eff W A) ≫= f = f a.
Proof. unfold mbind, eff_bind. by destruct (f a). Qed.

Lemma mret_bind {A B} (a : A) (f : A → eff W B) : mret a ≫= f = f a.
Proof. unfold mret, eff_ret, mbind, eff_bind. by destruct (f a). Qed.

Lemma emit_bind {B} (w : W) (f : unit → eff W B) :
  emit w ≫= f = (w :: calls (f ()), outcome (f ())).
Proof. unfold emit, mbind, eff_bind, calls, outcome. by destruct (f ()). Qed.

Lemma try_except_ok {A} (m : eff W A) h ws a :
  m = (ws, Ok a) → try_except m h = (ws, Ok a).
Proof. by intros ->. Qed.

Lemma outcome_try_except {A} (m : eff W A) h :
  outcome (try_except m h) =
  match outcome m with Ok a => Ok a | Raise e => outcome (h e) end.
Proof.
  destruct m as [ws [a|e]]; unfold try_except, outcome; simpl; [done|].
  by destruct (h e).
Qed.

Lemma calls_try_except {A} (m : eff W A) h :
  calls (try_except m h) =
  calls m ++ match outcome m with Ok _ => [] | Raise e => calls (h e) end.
Proof.
  destruct m as [ws [a|e]]; unfold try_except, calls, outcome; simpl.
  - by rewrite app_nil_r.
  - by destruct (h e).
Qed.

Lemma calls_for_each_app {A} (xs ys : list A) (body : A → eff W unit) :
  calls (for_each (xs ++ ys) body) =
  calls (for_each xs body) ++
  match outcome (for_each xs body) with
  | Ok _ => calls (for_each ys body)
  | Raise _ => []
  end.
Proof.
  induction xs as [|x xs IH]; [done|].
  simpl. rewrite !calls_bind, !outcome_bind, IH.
  destruct (outcome (body x)); [by rewrite app_assoc | by rewrite !app_nil_r].
Qed.

Lemma outcome_for_each_app {A} (xs ys : list A) (body : A → eff W unit) :
  outcome (for_each (xs ++ ys) body) =
  match outcome (for_each xs body) with
  | Ok _ => outcome (for_each ys body)
  | Raise e => Raise e
  end.
Proof.
  induction xs as [|x xs IH]; [done|].
  simpl. rewrite !outcome_bind, IH. by destruct (outcome (body x)).
Qed.

Lemma calls_for_each_cons {A} (x : A) xs (body : A → eff W unit) :
  calls (for_each (x :: xs) body) =
  calls (body x) ++
  match outcome (body x) with Ok _ => calls (for_each xs body) | Raise _ => [] end.
Proof. simpl. by rewrite calls_bind. Qed.

Lemma outcome_for_each_cons {A} (x : A) xs (body : A → eff W unit) :
  outcome (for_each (x :: xs) body) =
  match outcome (body x) with Ok _ => outcome (for_each xs body) | Raise e => Raise e end.
Proof. simpl. by rewrite outcome_bind. Qed.

Section AllCalls.
Variable P : W → Prop.

Lemma all_bind {A B} (m : eff W A) (f : A → eff W B) :
  Forall P (calls m) → (∀ a, Forall P (calls (f a))) → Forall P (calls (m ≫= f)).
Proof.
  intros Hm Hf. rewrite calls_bind. apply Forall_app. split; [done|].
  destruct (outcome m); [apply Hf | constructor].
Qed.

Lemma all_lift {A} (r : result A) : Forall P (calls (lift r : eff W A)).
Proof. constructor. Qed.

Lemma all_mret {A} (a : A) : Forall P (calls (mret a : eff W A)).
Proof. constructor. Qed.

Lemma all_emit w : P w → Forall P (calls (emit w)).
Proof. intros. by repeat constructor. Qed.

Lemma all_try_except {A} (m : eff W A) h :
  Forall P (calls m) → (∀ e, Forall P (calls (h e))) → Forall P (calls (try_except m h)).
Proof.
  intros Hm Hh. rewrite calls_try_except. apply Forall_app. split; [done|].
  destruct (outcome m); [constructor | apply Hh].
Qed.

Lemma all_for_each {A} (xs : list A) (body : A → eff W unit) :
  (∀ x, Forall P (calls (body x))) → Forall P (calls (for_each xs body)).
Proof.
  intros Hb. induction xs as [|x xs IH]; [constructor|].
  simpl. by apply all_bind.
Qed.
End AllCalls.
End EffFacts.

(** Splits a goal about all calls of a statement along its binds. *)
Ltac all_calls :=
  repeat lazymatch goal with
  | |- Forall _ (calls (lift _)) => apply all_lift
  | |- Forall _ (calls (mret _)) => apply all_mret
  | |- Forall _ (calls (emit _)) => apply all_emit
  | |- Forall _ (calls (_ ≫= _)) => apply all_bind; [|intros ?]
  | |- Forall _ (calls (try_except _ _)) => apply all_try_except; [|intros ?]
  | |- Forall _ (calls (for_each _ _)) => apply all_for_each; intros ?
  end.

(** ** [time.sleep] *)

Lemma py_sleep_accepts secs : sleep_accepts secs → py_sleep secs = Ok ().
Proof.
  unfold sleep_accepts, py_sleep. intros [Hlo Hhi].
  destruct (Z.ltb_spec secs 0); [lia|]. by destruct (Z.ltb_spec sleep_limit secs); [lia|].
Qed.

Lemma py_sleep_refuses secs : ¬ sleep_accepts secs → raised (py_sleep secs) = true.
Proof.
  unfold sleep_accepts, py_sleep. intros Hno.
  destruct (Z.ltb_spec secs 0); [done|]. by destruct (Z.ltb_spec sleep_limit secs); [|lia].
Qed.

(** ** The report parser *)

Section ParserFacts.
Import Exporter.

Lemma parse_vulnerability_object img members :
  parse_vulnerability img (JObj members) =
  ([], Ok {| vuln_image := img;
             vulnerability_id := field members "VulnerabilityID" (JStr "");
             package := field members "PkgName" (JStr "");
             installed_version := field members "InstalledVersion" (JStr "");
             fixed_version := field members "FixedVersion" (JStr "");
             severity := field members "Severity" (JStr "UNKNOWN");
             title := field members "Title" (JStr "") |}).
Proof. reflexivity. Qed.

Lemma parse_vulnerabilities_cons img v vs acc :
  parse_vulnerabilities img (v :: vs) acc =
  (x ← parse_vulnerability img v; parse_vulnerabilities img vs (acc ++ [x])).
Proof. reflexivity. Qed.

Lemma parse_results_cons img r rs acc :
  parse_results img (r :: rs) acc =
  (vs ← lift (py_get r "Vulnerabilities" (JArr []));
   vulns ← lift (py_iter (if truthy vs then vs else JArr []));
   acc ← parse_vulnerabilities img vulns acc;
   parse_results img rs acc).
Proof. reflexivity. Qed.

Lemma parse_vulnerabilities_objects img vs :
  forallb is_object vs = true →
  ∀ acc, ∃ found, length found = length vs ∧
    parse_vulnerabilities img vs acc = ([], Ok (acc ++ found)).
Proof.
  induction vs as [|v vs IH]; intros Hvs acc.
  - exists []. by rewrite app_nil_r.
  - apply andb_prop in Hvs as [Hv Hvs]. destruct v as [| | | | |members]; try done.
    rewrite parse_vulnerabilities_cons, parse_vulnerability_object, pure_bind.
    destruct (IH Hvs (acc ++ [{|
      vuln_image := img;
      vulnerability_id := field members "VulnerabilityID" (JStr "");
      package := field members "PkgName" (JStr "");
      installed_version := field members "InstalledVersion" (JStr "");
      fixed_version := field members "FixedVersion" (JStr "");
      severity := field members "Severity" (JStr "UNKNOWN");
      title := field members "Title" (JStr "") |}])) as (found & Hlen & ->).
    eexists (_ :: found). split; [simpl; by rewrite Hlen|].
    by rewrite <- app_assoc.
Qed.

Lemma findings_shaped_iter vs :
  findings_shaped vs = true →
  ∃ items, py_iter (if truthy vs then vs else JArr []) = Ok items
           ∧ forallb is_object items = true.
Proof.
  unfold findings_shaped. intros Hr.
  destruct (truthy vs) eqn:Ht; simpl in Hr.
  - destruct vs; try done. by eexists.
  - by exists [].
Qed.

Lemma parse_results_shaped img rs :
  forallb result_shaped rs = true →
  ∀ acc, ∃ found, parse_results img rs acc = ([], Ok (acc ++ found)).
Proof.
  induction rs as [|r rs IH]; intros Hrs acc.
  - exists []. by rewrite app_nil_r.
  - apply andb_prop in Hrs as [Hr Hrs]. destruct r as [| | | | |m]; try done.
    rewrite parse_results_cons.
    change (py_get (JObj m) "Vulnerabilities" (JArr []))
      with (Ok (field m "Vulnerabilities" (JArr []))).
    rewrite lift_bind_ok.
    destruct (findings_shaped_iter _ Hr) as (vs & -> & Hvs).
    rewrite lift_bind_ok.
    destruct (parse_vulnerabilities_objects img vs Hvs acc) as (f1 & _ & ->).
    rewrite pure_bind.
    destruct (IH Hrs (acc ++ f1)) as (f2 & ->).
    exists (f1 ++ f2). by rewrite app_assoc.
Qed.

Lemma parse_trivy_report_never_raises file :
  outcome (parse_trivy_report file) = Ok None ∨
  ∃ r, outcome (parse_trivy_report file) = Ok (Some r).
Proof.
  unfold parse_trivy_report. rewrite outcome_try_except, outcome_bind.
  destruct (outcome (parse_body file)) as [r|e].
  - right. by exists r.
  - left. done.
Qed.

Lemma parse_trivy_report_undecodable e :
  parse_trivy_report (LoadFails e) = ([Exporter.Log Error], Ok None).
Proof. reflexivity. Qed.
End ParserFacts.

(** ** Gauges as finite maps *)

Section GaugeFacts.
Context `{Countable K}.
Implicit Types g : gmap K Z.

Lemma gauge_labels_set k v g :
  Gauge.apply (Gauge.SetChild k v) (Gauge.apply (Gauge.Labels k) g) = <[k := v]> g.
Proof.
  simpl. destruct (g !! k) eqn:Hk; [done|]. by rewrite insert_insert_eq.
Qed.

Lemma gauge_total_empty : Gauge.total (∅ : gmap K Z) = 0%Z.
Proof. unfold Gauge.total. by rewrite map_fold_empty. Qed.

Lemma gauge_total_insert_fresh k v g :
  g !! k = None → Gauge.total (<[k := v]> g) = (v + Gauge.total g)%Z.
Proof.
  intros Hk. unfold Gauge.total.
  rewrite map_fold_insert_L; [done| |done]. intros. lia.
Qed.

Lemma gauge_apply_dom_mono c g :
  keeps_children c = true → dom g ⊆ dom (Gauge.apply c g).
Proof.
  destruct c as [|k|k v]; intros Hc; [done| |]; simpl.
  - destruct (g !! k); [done|]. rewrite dom_insert_L. set_solver.
  - rewrite dom_insert_L. set_solver.
Qed.
End GaugeFacts.

(** ** trivy-exporter.py: what a cycle calls *)

Section ExporterCalls.
Import Exporter.
Variable repr_container : json → string.
Variable iso_timestamp : string → option (result Z).

Lemma parse_vulnerabilities_calls (P : call → Prop) img vs acc :
  Forall P (calls (parse_vulnerabilities img vs acc)).
Proof.
  revert acc. induction vs as [|v vs IH]; intros acc; [apply all_mret|].
  rewrite parse_vulnerabilities_cons. unfold parse_vulnerability.
  all_calls. apply IH.
Qed.

Lemma parse_results_calls (P : call → Prop) img rs acc :
  Forall P (calls (parse_results img rs acc)).
Proof.
  revert acc. induction rs as [|r rs IH]; intros acc; [apply all_mret|].
  rewrite parse_results_cons. all_calls; [apply parse_vulnerabilities_calls|apply IH].
Qed.

Lemma parse_trivy_report_logs file :
  Forall publishes (calls (parse_trivy_report file)).
Proof.
  unfold parse_trivy_report, parse_body. all_calls; try done.
  apply parse_results_calls.
Qed.

Lemma update_last_scan_publishes r :
  Forall publishes (calls (update_last_scan repr_container iso_timestamp r)).
Proof.
  unfold update_last_scan. destruct (truthy (scan_time r)); all_calls; done.
Qed.

Lemma set_vulnerability_info_publishes img v :
  Forall publishes (calls (set_vulnerability_info repr_container img v)).
Proof. unfold set_vulnerability_info. all_calls; done. Qed.

Lemma count_vulnerabilities_publishes img vs acc :
  Forall publishes (calls (count_vulnerabilities repr_container img vs acc)).
Proof.
  revert acc. induction vs as [|v vs IH]; intros acc; [apply all_mret|].
  change (count_vulnerabilities repr_container img (v :: vs) acc) with
    (vuln_counts ← lift (count_one (img, severity v, package v) acc);
     set_vulnerability_info repr_container img v;;
     count_vulnerabilities repr_container img vs vuln_counts).
  all_calls; [apply set_vulnerability_info_publishes | apply IH].
Qed.

Lemma publish_counts_publishes d :
  Forall publishes (calls (publish_counts repr_container d)).
Proof.
  unfold publish_counts. apply all_for_each. intros [[[img sev] pkg] n].
  all_calls; done.
Qed.

Lemma publish_report_publishes r :
  Forall publishes (calls (publish_report repr_container iso_timestamp r)).
Proof.
  unfold publish_report. all_calls.
  - apply update_last_scan_publishes.
  - apply count_vulnerabilities_publishes.
  - apply publish_counts_publishes.
Qed.

Lemma process_reports_cons file rest n :
  process_reports repr_container iso_timestamp (file :: rest) n =
  (report_data ← parse_trivy_report file;
   match report_data with
   | None => process_reports repr_container iso_timestamp rest n
   | Some r =>
       publish_report repr_container iso_timestamp r;;
       process_reports repr_container iso_timestamp rest (n + 1)%Z
   end).
Proof. reflexivity. Qed.

Lemma process_reports_publishes files n :
  Forall publishes (calls (process_reports repr_container iso_timestamp files n)).
Proof.
  revert n. induction files as [|file rest IH]; intros n; [apply all_mret|].
  rewrite process_reports_cons. apply all_bind; [apply parse_trivy_report_logs|].
  intros [r|]; [|apply IH].
  apply all_bind; [apply publish_report_publishes | intros; apply IH].
Qed.

Lemma read_reports_publishes d :
  Forall publishes (calls (read_reports repr_container iso_timestamp d)).
Proof.
  unfold read_reports.
  apply all_bind; [apply all_lift|]. intros is_there.
  destruct (negb is_there); [all_calls; done|].
  apply all_bind; [apply all_lift|]. intros is_dir.
  destruct (negb is_dir); [all_calls; done|].
  destruct (dir_glob d) as [[|file rest]|e]; all_calls; try done.
  apply process_reports_publishes.
Qed.

Lemma update_metrics_calls d :
  calls (update_metrics repr_container iso_timestamp d) =
  Vulnerabilities Gauge.Clear :: VulnerabilityInfo Gauge.Clear ::
  calls (read_reports repr_container iso_timestamp d).
Proof. unfold update_metrics. by rewrite !emit_bind. Qed.

Lemma update_metrics_outcome d :
  outcome (update_metrics repr_container iso_timestamp d) =
  outcome (read_reports repr_container iso_timestamp d).
Proof. unfold update_metrics. by rewrite !emit_bind. Qed.
End ExporterCalls.

(** ** trivy-exporter.py: states during and after a cycle *)

Section ExporterStates.
Import Exporter.
Variable repr_container : json → string.
Variable iso_timestamp : string → option (result Z).
Variable SCAN_INTERVAL : Z.

Abbreviation update_metrics' := (update_metrics repr_container iso_timestamp).
Abbreviation main_cycle' := (main_cycle repr_container iso_timestamp SCAN_INTERVAL).
Abbreviation main' := (main_loop repr_container iso_timestamp SCAN_INTERVAL).

Lemma exec_app cs1 cs2 s : exec (cs1 ++ cs2) s = exec cs2 (exec cs1 s).
Proof. apply foldl_app. Qed.

Lemma exec_cons c cs s : exec (c :: cs) s = exec cs (apply s c).
Proof. reflexivity. Qed.

Lemma exec_take_drop n cs s : exec cs s = exec (drop n cs) (exec (take n cs) s).
Proof. by rewrite <- exec_app, take_drop. Qed.

(** The event is only ever set. *)
Lemma ready_stays cs s : _ready s = true → _ready (exec cs s) = true.
Proof.
  revert s. induction cs as [|c cs IH]; intros s Hs; [done|].
  apply IH. by destruct c.
Qed.

Lemma publishes_dom cs s :
  Forall publishes cs →
  dom (trivy_image_vulnerabilities s) ⊆ dom (trivy_image_vulnerabilities (exec cs s)) ∧
  dom (trivy_vulnerability_info s) ⊆ dom (trivy_vulnerability_info (exec cs s)).
Proof.
  revert s. induction cs as [|c cs IH]; intros s Hcs; [done|].
  inversion_clear Hcs as [|?? Hc Hrest]. simpl.
  destruct (IH (apply s c) Hrest) as [IHv IHi].
  split; (etrans; [|done]); destruct c; simpl in *; try done;
    by apply gauge_apply_dom_mono.
Qed.

Lemma update_metrics_publishes d :
  Forall publishes (drop 2 (calls (update_metrics' d))).
Proof. rewrite update_metrics_calls. apply read_reports_publishes. Qed.

Lemma sleep_unfold secs :
  sleep secs = (if raised (py_sleep secs) then [] else [Sleep secs], py_sleep secs).
Proof. unfold sleep. by destruct (py_sleep secs) as [[]|e]. Qed.

Lemma main_cycle_calls d :
  calls (main_cycle' d) =
  calls (update_metrics' d) ++
  (if raised (outcome (update_metrics' d)) then [Log Error] else [ReadySet]) ++
  (if raised (py_sleep SCAN_INTERVAL) then [] else [Sleep SCAN_INTERVAL]).
Proof.
  unfold main_cycle. rewrite calls_bind, calls_try_except, outcome_try_except.
  rewrite calls_bind, outcome_bind, sleep_unfold.
  destruct (outcome (update_metrics' d)) as [[]|e]; simpl;
    by rewrite <- !app_assoc.
Qed.

Lemma main_cycle_outcome d : outcome (main_cycle' d) = py_sleep SCAN_INTERVAL.
Proof.
  unfold main_cycle. rewrite outcome_bind, outcome_try_except, outcome_bind, sleep_unfold.
  by destruct (outcome (update_metrics' d)) as [[]|e].
Qed.

Lemma main_calls_cons d rest :
  calls (main' (d :: rest)) =
  calls (main_cycle' d) ++
  (if raised (py_sleep SCAN_INTERVAL) then [] else calls (main' rest)).
Proof.
  unfold main_loop. rewrite calls_for_each_cons, main_cycle_outcome.
  by destruct (py_sleep SCAN_INTERVAL) as [[]|e].
Qed.

(** A cycle that finds no report makes four calls and returns. *)
Lemma update_metrics_no_reports d :
  no_reports d = true →
  ∃ l, update_metrics' d =
       ([Vulnerabilities Gauge.Clear; VulnerabilityInfo Gauge.Clear; Log l;
         ImagesScannedSet 0], Ok ()).
Proof.
  unfold no_reports, update_metrics, read_reports. intros Hd.
  destruct (dir_exists d) as [[]|e1]; simpl; [|by eexists|done].
  destruct (dir_is_dir d) as [[]|e2]; simpl; [|by eexists|done].
  destruct (dir_glob d) as [[|??]|e]; try done; by eexists.
Qed.
End ExporterStates.

(** ** Readiness *)

Section Readiness.
Import Exporter.
Variable repr_container : json → string.
Variable iso_timestamp : string → option (result Z).
Variable SCAN_INTERVAL : Z.

Abbreviation update := (update_metrics repr_container iso_timestamp).
Abbreviation turn := (main_cycle repr_container iso_timestamp SCAN_INTERVAL).
Abbreviation loop := (main_loop repr_container iso_timestamp SCAN_INTERVAL).

Lemma ready_code s : code (do_GET "/-/ready" s) = if _ready s then 200 else 503.
Proof. unfold do_GET. simpl. by destruct (_ready s). Qed.

Lemma leaves_ready_exec cs s : Forall leaves_ready cs → _ready (exec cs s) = _ready s.
Proof.
  revert s. induction cs as [|c cs IH]; intros s Hcs; [done|].
  inversion_clear Hcs as [|?? Hc Hrest]. simpl. rewrite (IH _ Hrest).
  by destruct c.
Qed.

Lemma update_leaves_ready d : Forall leaves_ready (calls (update d)).
Proof.
  rewrite update_metrics_calls. do 2 (constructor; [done|]).
  eapply Forall_impl; [apply read_reports_publishes|]. intros c Hc. by destruct c.
Qed.

Lemma raising_turn_leaves_ready d :
  cycle_raises repr_container iso_timestamp d → Forall leaves_ready (calls (turn d)).
Proof.
  unfold cycle_raises. intros Hd. rewrite main_cycle_calls, Hd.
  apply Forall_app. split; [apply update_leaves_ready|].
  by destruct (raised (py_sleep SCAN_INTERVAL)); repeat constructor.
Qed.

Lemma raising_turns_leave_ready pre :
  Forall (cycle_raises repr_container iso_timestamp) pre →
  Forall leaves_ready (calls (loop pre)).
Proof.
  induction 1 as [|d pre Hd _ IH]; [constructor|].
  rewrite main_calls_cons. apply Forall_app. split; [by apply raising_turn_leaves_ready|].
  by destruct (raised _); [constructor|].
Qed.

Lemma loop_calls_app pre post :
  calls (loop (pre ++ post)) =
  calls (loop pre) ++ (if raised (outcome (loop pre)) then [] else calls (loop post)).
Proof.
  unfold main_loop. rewrite calls_for_each_app.
  by destruct (outcome (for_each pre _)) as [[]|e].
Qed.

Lemma loop_returns dirs : sleep_accepts SCAN_INTERVAL → outcome (loop dirs) = Ok ().
Proof.
  intros Hok. induction dirs as [|d dirs IH]; [done|].
  unfold main_loop in *.
  by rewrite outcome_for_each_cons, main_cycle_outcome, (py_sleep_accepts _ Hok).
Qed.

(** Up to the end of [update_metrics] in the turn of [d], and in the turns
    before it, which raised, the event is as the loop found it. *)
Lemma not_ready_until_cycle_returns pre d rest n s :
  Forall (cycle_raises repr_container iso_timestamp) pre →
  (n ≤ length (calls (loop pre)) + length (calls (update d)))%nat →
  _ready (observed n (loop (pre ++ d :: rest)) s) = _ready s.
Proof.
  intros Hpre Hn. unfold observed. apply leaves_ready_exec.
  assert (Forall leaves_ready (calls (loop pre) ++ calls (update d))) as Hall.
  { apply Forall_app. split; [by apply raising_turns_leave_ready|apply update_leaves_ready]. }
  rewrite loop_calls_app. destruct (raised (outcome (loop pre))).
  - rewrite app_nil_r. apply Forall_take. by apply raising_turns_leave_ready.
  - rewrite main_calls_cons, main_cycle_calls, <- !app_assoc, app_assoc.
    rewrite take_app_le by (rewrite length_app; lia). by apply Forall_take.
Qed.

Lemma ready_after_cycle_returns pre d rest n s :
  outcome (loop pre) = Ok () →
  outcome (update d) = Ok () →
  (length (calls (loop pre)) + length (calls (update d)) < n)%nat →
  _ready (observed n (loop (pre ++ d :: rest)) s) = true.
Proof.
  intros Hpre Hok Hn. unfold observed.
  rewrite loop_calls_app, Hpre. simpl raised. cbv iota.
  rewrite main_calls_cons, main_cycle_calls, Hok. simpl raised. cbv iota.
  rewrite <- !app_assoc, app_assoc.
  rewrite take_app_ge by (rewrite length_app; lia). rewrite length_app.
  destruct (n - (length (calls (loop pre)) + length (calls (update d)))) as [|n'] eqn:Hn';
    [lia|].
  rewrite exec_app. simpl take. rewrite exec_cons. by apply ready_stays.
Qed.

(** C2 (as amended): the event is set by the first turn of the loop in
    which [update_metrics] returns.  When the turns [pre] all raised,
    [GET /-/ready] answers 503 whenever it is served during them or
    during [update_metrics] in the turn after them (after any number of
    its calls); when that [update_metrics] returns, as it does when it
    finds no report, the answer is 200 whenever the request is served
    after it, however many later turns have run since; the loop reaches
    that turn when SCAN_INTERVAL is a length that [time.sleep] accepts;
    and from any state, once the answer is 200 it stays 200. *)
Theorem readiness_latch
    (pre : list reports_dir) (d : reports_dir) (rest : list reports_dir)
    (s : state) (n k : nat) :
  Forall (cycle_raises repr_container iso_timestamp) pre →
  let during := (length (calls (loop pre)) + length (calls (update d)))%nat in
  ((n ≤ during)%nat →
   code (do_GET "/-/ready" (observed n (loop (pre ++ d :: rest)) initial)) = 503)
  ∧ (outcome (loop pre) = Ok () → outcome (update d) = Ok () → (during < n)%nat →
     code (do_GET "/-/ready" (observed n (loop (pre ++ d :: rest)) initial)) = 200)
  ∧ (sleep_accepts SCAN_INTERVAL → outcome (loop pre) = Ok ())
  ∧ (no_reports d = true → outcome (update d) = Ok ())
  ∧ ((n ≤ k)%nat →
     code (do_GET "/-/ready" (observed n (loop (pre ++ d :: rest)) s)) = 200 →
     code (do_GET "/-/ready" (observed k (loop (pre ++ d :: rest)) s)) = 200).
Proof.
  intros Hpre during. subst during. repeat split.
  - intros Hn. by rewrite ready_code, not_ready_until_cycle_returns.
  - intros Hloop Hok Hn. by rewrite ready_code, ready_after_cycle_returns.
  - apply loop_returns.
  - intros Hd. by destruct (update_metrics_no_reports repr_container iso_timestamp d Hd) as [l ->].
  - intros Hnk. rewrite !ready_code.
    destruct (_ready (observed n (loop (pre ++ d :: rest)) s)) eqn:Hr; [intros _|done].
    unfold observed in *.
    rewrite (exec_take_drop n), take_take, Nat.min_l by lia.
    by rewrite ready_stays.
Qed.
End Readiness.

Lemma readiness_latch_witness :
  let dirs := [listing [Sample.unhashable]; Sample.absent; Sample.absent] in
  let answer n := Exporter.code (Exporter.do_GET "/-/ready"
                    (Exporter.observed n (Exporter.main_loop Sample.repr Sample.clock 300 dirs)
                       Exporter.initial)) in
  Forall (cycle_raises Sample.repr Sample.clock) [listing [Sample.unhashable]]
  ∧ answer 9%nat = 503 ∧ answer 10%nat = 200 ∧ answer 16%nat = 200.
Proof.
  intros dirs answer.
  assert (Forall (cycle_raises Sample.repr Sample.clock) [listing [Sample.unhashable]])
    as Hpre by (by repeat constructor).
  assert (sleep_accepts 300) as H300 by (unfold sleep_accepts, sleep_limit; lia).
  pose proof (readiness_latch Sample.repr Sample.clock 300 [listing [Sample.unhashable]]
                Sample.absent [Sample.absent] Exporter.initial 9 16 Hpre) as (H1 & _).
  pose proof (readiness_latch Sample.repr Sample.clock 300 [listing [Sample.unhashable]]
                Sample.absent [Sample.absent] Exporter.initial 10 16 Hpre)
    as (_ & H2 & H3 & H4 & H5).
  split; [exact Hpre|].
  split; [apply H1; vm_compute; lia|].
  assert (answer 10%nat = 200) as H10.
  { apply H2; [exact (H3 H300) | apply H4; reflexivity | vm_compute; lia]. }
  split; [exact H10 | apply H5; [lia | exact H10]].
Defined.

(** C2 (as stated) fails: a first cycle that raises completes without
    setting the event.  With a reports directory that [exists()] may not
    examine, [update_metrics] raises after the two [clear()], having found
    no subject; [main] logs the error and sleeps, and [GET /-/ready]
    still answers 503 when the turn is over.  The same happens when
    [update_metrics] raises on a report whose artifact name is a list. *)
Lemma first_cycle_that_raises_is_not_ready :
  let update := Exporter.update_metrics Sample.repr Sample.clock in
  let turn := Exporter.main_cycle Sample.repr Sample.clock 300 in
  let answer d := Exporter.code (Exporter.do_GET "/-/ready"
                    (Exporter.exec (calls (turn d)) Exporter.initial)) in
  outcome (update Sample.unreadable) = Raise PermissionError
  ∧ calls (turn Sample.unreadable) =
    [Exporter.Vulnerabilities Gauge.Clear; Exporter.VulnerabilityInfo Gauge.Clear;
     Exporter.Log Error; Exporter.Sleep 300]
  ∧ outcome (turn Sample.unreadable) = Ok ()
  ∧ answer Sample.unreadable = 503
  ∧ outcome (update (listing [Sample.unhashable])) = Raise TypeError
  ∧ calls (turn (listing [Sample.unhashable])) =
    [Exporter.Vulnerabilities Gauge.Clear; Exporter.VulnerabilityInfo Gauge.Clear;
     Exporter.Log Info; Exporter.Log Error; Exporter.Sleep 300]
  ∧ answer (listing [Sample.unhashable]) = 503.
Proof. repeat split; vm_compute; reflexivity. Qed.

(** ** Replacing the count and detail families *)

Section Replacement.
Import Exporter.
Variable repr_container : json → string.
Variable iso_timestamp : string → option (result Z).

Abbreviation cycle := (update_metrics repr_container iso_timestamp).

(** After the two [clear()] the families no longer depend on what the
    previous cycle left. *)
Lemma exec_families_from_cleared cs s1 s2 :
  trivy_image_vulnerabilities s1 = trivy_image_vulnerabilities s2 →
  trivy_vulnerability_info s1 = trivy_vulnerability_info s2 →
  trivy_image_vulnerabilities (exec cs s1) = trivy_image_vulnerabilities (exec cs s2) ∧
  trivy_vulnerability_info (exec cs s1) = trivy_vulnerability_info (exec cs s2).
Proof.
  revert s1 s2. induction cs as [|c cs IH]; intros s1 s2 Hv Hi; [done|].
  rewrite !exec_cons. apply IH; destruct c; simpl; congruence.
Qed.

Lemma cycle_families_fresh d s :
  trivy_image_vulnerabilities (exec (calls (cycle d)) s) =
    trivy_image_vulnerabilities (exec (calls (cycle d)) initial) ∧
  trivy_vulnerability_info (exec (calls (cycle d)) s) =
    trivy_vulnerability_info (exec (calls (cycle d)) initial).
Proof.
  rewrite update_metrics_calls, !exec_cons. by apply exec_families_from_cleared.
Qed.

Lemma cycle_observed_families d s n :
  let seen := observed n (cycle d) s in
  let final := exec (calls (cycle d)) s in
  (trivy_image_vulnerabilities seen = trivy_image_vulnerabilities s ∨
   dom (trivy_image_vulnerabilities seen) ⊆ dom (trivy_image_vulnerabilities final)) ∧
  (trivy_vulnerability_info seen = trivy_vulnerability_info s ∨
   dom (trivy_vulnerability_info seen) ⊆ dom (trivy_vulnerability_info final)).
Proof.
  intros seen final. subst seen final. unfold observed.
  destruct (decide (n ≤ 1)%nat) as [Hle|Hgt].
  - rewrite update_metrics_calls.
    destruct n as [|[|n]]; [| |lia].
    + split; by left.
    + split; [right|by left]. simpl. rewrite dom_empty_L. set_solver.
  - rewrite (exec_take_drop n (calls (cycle d)) s).
    assert (Forall publishes (drop n (calls (cycle d)))) as Hp.
    { replace n with (2 + (n - 2))%nat by lia. rewrite <- drop_drop.
      apply Forall_drop, update_metrics_publishes. }
    split; right; by apply publishes_dom.
Qed.

(** C1 (as amended): in trivy-exporter.py the count and the detail family
    at the end of a cycle are those the cycle builds from the empty
    families, whatever the previous cycle exposed; and a scrape served
    after any number of the cycle's calls finds each family either exactly
    as the previous cycle left it, or holding only labels that the family
    holds at the end of this cycle. *)
Theorem cycle_replaces_families (d : reports_dir) (s : state) (n : nat) :
  let seen := observed n (cycle d) s in
  let final := exec (calls (cycle d)) s in
  trivy_image_vulnerabilities final =
    trivy_image_vulnerabilities (exec (calls (cycle d)) initial)
  ∧ trivy_vulnerability_info final =
      trivy_vulnerability_info (exec (calls (cycle d)) initial)
  ∧ (trivy_image_vulnerabilities seen = trivy_image_vulnerabilities s ∨
     dom (trivy_image_vulnerabilities seen) ⊆ dom (trivy_image_vulnerabilities final))
  ∧ (trivy_vulnerability_info seen = trivy_vulnerability_info s ∨
     dom (trivy_vulnerability_info seen) ⊆ dom (trivy_vulnerability_info final)).
Proof.
  intros seen final. subst seen final.
  destruct (cycle_families_fresh d s) as [Hv Hi].
  destruct (cycle_observed_families d s n) as [Hsv Hsi].
  done.
Qed.
End Replacement.

(** C1 (as stated) fails: the cycle over a directory holding a report for
    app:2.0 starts from what the cycle over a report for app:1.0 exposed; a
    scrape served after its first two calls finds both families empty,
    which is neither the old nor the new label set. *)
Lemma scrape_between_clear_and_refill :
  let old_dir := listing
                   [Loads (Sample.document "app:1.0" [Sample.finding "CVE-1" "libfoo" "HIGH"])] in
  let new_dir := listing
                   [Loads (Sample.document "app:2.0" [Sample.finding "CVE-2" "libbar" "LOW"])] in
  let cycle := Exporter.update_metrics Sample.repr Sample.clock in
  let old := Exporter.exec (calls (cycle old_dir)) Exporter.initial in
  let new := Exporter.exec (calls (cycle new_dir)) old in
  let seen := Exporter.observed 2 (cycle new_dir) old in
  Exporter.content (Exporter.do_GET "/metrics" seen) =
    Exporter.Exposition ∅ ∅ ∅ 1
  ∧ Exporter.trivy_image_vulnerabilities old !! ("app:1.0", "HIGH", "libfoo") = Some 1%Z
  ∧ Exporter.trivy_image_vulnerabilities new !! ("app:2.0", "LOW", "libbar") = Some 1%Z
  ∧ Exporter.trivy_image_vulnerabilities seen ≠ Exporter.trivy_image_vulnerabilities old
  ∧ Exporter.trivy_image_vulnerabilities seen ≠ Exporter.trivy_image_vulnerabilities new
  ∧ Exporter.trivy_vulnerability_info seen ≠ Exporter.trivy_vulnerability_info old
  ∧ Exporter.trivy_vulnerability_info seen ≠ Exporter.trivy_vulnerability_info new.
Proof.
  intros old_dir new_dir cycle old new seen.
  split. { vm_compute. reflexivity. }
  split. { vm_compute. reflexivity. }
  split. { vm_compute. reflexivity. }
  repeat split; intros Heq.
  - apply (f_equal (λ m, m !! ("app:1.0", "HIGH", "libfoo"))) in Heq.
    vm_compute in Heq. discriminate.
  - apply (f_equal (λ m, m !! ("app:2.0", "LOW", "libbar"))) in Heq.
    vm_compute in Heq. discriminate.
  - apply (f_equal (λ m, m !! ("CVE-1", "app:1.0", "libfoo", "HIGH", "", ""))) in Heq.
    vm_compute in Heq. discriminate.
  - apply (f_equal (λ m, m !! ("CVE-2", "app:2.0", "libbar", "LOW", "", ""))) in Heq.
    vm_compute in Heq. discriminate.
Qed.

(** In dashboard/trivy_exporter.py the detail family is never cleared: the
    label of the finding of the first cycle is still exposed, next to the
    new one, when the second cycle is over. *)
Lemma dashboard_detail_labels_linger :
  let old_dir := listing
                   [Loads (Sample.document "app:1.0" [Sample.finding "CVE-1" "libfoo" "HIGH"])] in
  let new_dir := listing
                   [Loads (Sample.document "app:2.0" [Sample.finding "CVE-2" "libbar" "LOW"])] in
  let cycle := Dashboard.update_metrics Sample.repr Sample.clock in
  let old := Dashboard.exec (calls (cycle old_dir)) Dashboard.initial in
  let new := Dashboard.exec (calls (cycle new_dir)) old in
  let info := [("installed_version", JStr ""); ("fixed_version", JStr "");
               ("title", JStr "")] in
  Dashboard.trivy_vulnerability_id new !! ("CVE-1", "app:1.0", "libfoo", "HIGH") = Some info
  ∧ Dashboard.trivy_vulnerability_id new !! ("CVE-2", "app:2.0", "libbar", "LOW") = Some info
  ∧ Dashboard.trivy_image_vulnerabilities new !! ("app:1.0", "HIGH", "libfoo") = None.
Proof. repeat split; vm_compute; reflexivity. Qed.

(** ** Cycles that find no report, and reports that do not parse *)

Section Skipping.
Import Exporter.
Variable repr_container : json → string.
Variable iso_timestamp : string → option (result Z).
Variable SCAN_INTERVAL : Z.

Abbreviation reports_loop := (process_reports repr_container iso_timestamp).

(** In trivy-exporter.py a cycle that finds no report returns, leaves
    both families empty and the number of images at 0, and the loop sets
    the event after it. *)
Lemma exporter_cycle_without_reports d s :
  no_reports d = true →
  let after := exec (calls (main_cycle repr_container iso_timestamp SCAN_INTERVAL d)) s in
  outcome (update_metrics repr_container iso_timestamp d) = Ok ()
  ∧ trivy_images_scanned after = 0%Z
  ∧ trivy_image_vulnerabilities after = ∅
  ∧ trivy_vulnerability_info after = ∅
  ∧ _ready after = true.
Proof.
  intros Hd after. subst after. rewrite main_cycle_calls.
  destruct (update_metrics_no_reports repr_container iso_timestamp d Hd) as [l ->].
  by destruct (py_sleep SCAN_INTERVAL).
Qed.

Lemma exec_log l cs s : exec (Log l :: cs) s = exec cs s.
Proof. reflexivity. Qed.

Lemma process_reports_skips pre post e n :
  outcome (reports_loop (pre ++ LoadFails e :: post) n) = outcome (reports_loop (pre ++ post) n)
  ∧ ∀ s, exec (calls (reports_loop (pre ++ LoadFails e :: post) n)) s =
         exec (calls (reports_loop (pre ++ post) n)) s.
Proof.
  revert n. induction pre as [|file pre IH]; intros n.
  - simpl app. rewrite process_reports_cons, parse_trivy_report_undecodable.
    rewrite (bind_ok _ _ [Log Error] None) by done. split; reflexivity.
  - rewrite <- !app_comm_cons, !process_reports_cons.
    rewrite !outcome_bind, !calls_bind.
    destruct (outcome (parse_trivy_report file)) as [[r|]|e']; [| |done].
    + rewrite !outcome_bind, !calls_bind.
      destruct (outcome (publish_report repr_container iso_timestamp r)) as [[]|]; [|done].
      destruct (IH (n + 1)%Z) as [-> Hs]. split; [done|].
      intros s. rewrite !exec_app. apply Hs.
    + destruct (IH n) as [-> Hs]. split; [done|].
      intros s. rewrite !exec_app. apply Hs.
Qed.

Lemma read_reports_listing file rest :
  read_reports repr_container iso_timestamp (listing (file :: rest)) =
  (emit (Log Info);;
   images_scanned ← reports_loop (file :: rest) 0;
   emit (ImagesScannedSet images_scanned);;
   emit (Log Info)).
Proof.
  unfold read_reports.
  change (dir_exists (listing (file :: rest))) with (Ok true : result bool).
  rewrite lift_bind_ok. simpl negb. cbv iota.
  change (dir_is_dir (listing (file :: rest))) with (Ok true : result bool).
  by rewrite lift_bind_ok.
Qed.

Lemma exec_counted_loop (m : eff call Z) s :
  exec (calls (emit (Log Info);;
               images_scanned ← m;
               emit (ImagesScannedSet images_scanned);;
               emit (Log Info))) s =
  match outcome m with
  | Ok n => apply (exec (calls m) s) (ImagesScannedSet n)
  | Raise _ => exec (calls m) s
  end.
Proof.
  rewrite emit_bind. unfold calls at 1. simpl fst. rewrite exec_log, calls_bind.
  destruct (outcome m) as [n|e].
  - by rewrite exec_app.
  - by rewrite app_nil_r.
Qed.

Lemma exec_read_reports_listing files s :
  exec (calls (read_reports repr_container iso_timestamp (listing files))) s =
  match outcome (reports_loop files 0) with
  | Ok n => apply (exec (calls (reports_loop files 0)) s) (ImagesScannedSet n)
  | Raise _ => exec (calls (reports_loop files 0)) s
  end.
Proof.
  destruct files as [|file rest]; [done|].
  rewrite read_reports_listing. apply exec_counted_loop.
Qed.

Lemma outcome_counted_loop (m : eff call Z) :
  outcome (emit (Log Info);;
           images_scanned ← m;
           emit (ImagesScannedSet images_scanned);;
           emit (Log Info)) =
  match outcome m with
  | Ok _ => Ok ()
  | Raise e => Raise e
  end.
Proof.
  rewrite emit_bind. unfold outcome at 1. simpl snd. rewrite outcome_bind.
  by destruct (outcome m).
Qed.

Lemma outcome_read_reports_listing files :
  outcome (read_reports repr_container iso_timestamp (listing files)) =
  match outcome (reports_loop files 0) with
  | Ok _ => Ok ()
  | Raise e => Raise e
  end.
Proof.
  destruct files as [|file rest]; [done|].
  rewrite read_reports_listing. apply outcome_counted_loop.
Qed.

(** C8 (as amended): an undecodable report makes [parse_trivy_report]
    log an error and return [None], and the cycle passes over it: it ends
    the same way and leaves the same state, hence the same metrics, as
    the cycle over the directory without that file. *)
Theorem undecodable_report_is_passed_over
    (pre post : list loaded) (e : exn) (s : state) :
  parse_trivy_report (LoadFails e) = ([Log Error], Ok None)
  ∧ outcome (update_metrics repr_container iso_timestamp (listing (pre ++ LoadFails e :: post))) =
    outcome (update_metrics repr_container iso_timestamp (listing (pre ++ post)))
  ∧ exec (calls (update_metrics repr_container iso_timestamp
                   (listing (pre ++ LoadFails e :: post)))) s =
    exec (calls (update_metrics repr_container iso_timestamp (listing (pre ++ post)))) s.
Proof.
  split; [done|].
  destruct (process_reports_skips pre post e 0) as [Ho Hs].
  split.
  - by rewrite !update_metrics_outcome, !outcome_read_reports_listing, Ho.
  - rewrite !update_metrics_calls, !exec_cons, !exec_read_reports_listing.
    rewrite Ho, Hs. done.
Qed.
End Skipping.

(** C8 (as stated) fails: with an undecodable file next to a good report the
    cycle exposes exactly what it exposes for the good report alone, and
    nothing in the state tells that a file was passed over. *)
Lemma undecodable_report_leaves_no_metric :
  let good := Loads (Sample.document "app:1.0" [Sample.finding "CVE-1" "libfoo" "HIGH"]) in
  let cycle := Exporter.update_metrics Sample.repr Sample.clock in
  outcome (Exporter.parse_trivy_report (LoadFails JSONDecodeError)) = Ok None
  ∧ Exporter.exec (calls (cycle (listing [LoadFails JSONDecodeError; good]))) Exporter.initial =
    Exporter.exec (calls (cycle (listing [good]))) Exporter.initial
  ∧ Exporter.trivy_images_scanned
      (Exporter.exec (calls (cycle (listing [LoadFails JSONDecodeError; good]))) Exporter.initial)
    = 1%Z.
Proof. repeat split; vm_compute; reflexivity. Qed.

(** C7 (failing input, dashboard/trivy_exporter.py): after a cycle that
    exposed two findings of one image, a cycle that finds the directory
    missing makes no call on any metric, and a cycle that finds it empty
    clears the counts only: the number of images stays at 1, and with the
    directory missing the count stays exposed as well. *)
Theorem dashboard_cycle_without_reports_keeps_metrics :
  let cycle := Dashboard.update_metrics Sample.repr Sample.clock in
  let report := Loads (Sample.document "app:1.0"
                         [Sample.finding "CVE-1" "libfoo" "HIGH";
                          Sample.finding "CVE-2" "libfoo" "HIGH"]) in
  let previous := Dashboard.exec (calls (cycle (listing [report]))) Dashboard.initial in
  let missing := Dashboard.exec (calls (cycle Sample.absent)) previous in
  let empty := Dashboard.exec (calls (cycle (listing []))) previous in
  cycle Sample.absent = ([Dashboard.Log Warning], Ok ())
  ∧ Dashboard.trivy_images_scanned missing = 1%Z
  ∧ Dashboard.trivy_image_vulnerabilities missing !! ("app:1.0", "HIGH", "libfoo") = Some 2%Z
  ∧ cycle (listing []) = ([Dashboard.Vulnerabilities Gauge.Clear; Dashboard.Log Info], Ok ())
  ∧ Dashboard.trivy_images_scanned empty = 1%Z.
Proof. repeat split; vm_compute; reflexivity. Qed.

(** ** Counting findings *)

Section Tally.
Variable repr_container : json → string.

Abbreviation labels_of := (key_labels repr_container).

Lemma text_key_hashable i k : text_key i k → key_hashable k = true.
Proof. by intros (a & b & ->). Qed.

Lemma text_key_eqb_refl i k : text_key i k → key_eqb k k = true.
Proof. intros (a & b & ->). simpl. by rewrite !String.eqb_refl. Qed.

Lemma text_key_labels_inj i k1 k2 :
  text_key i k1 → text_key i k2 → labels_of k1 = labels_of k2 → k1 = k2.
Proof. intros (a1 & b1 & ->) (a2 & b2 & ->). simpl. congruence. Qed.

Lemma text_key_image i k : text_key i k → (labels_of k).1.1 = i.
Proof. by intros (a & b & ->). Qed.

Lemma dict_increment_total key d :
  dict_total (dict_increment key d) = (1 + dict_total d)%Z.
Proof.
  induction d as [|[k c] d IH]; simpl; [done|].
  destruct (key_eqb k key); simpl; [lia|]. rewrite IH. lia.
Qed.

Lemma dict_increment_keys key d :
  (dict_increment key d).*1 = d.*1 ∨
  ((dict_increment key d).*1 = d.*1 ++ [key] ∧ Forall (λ k, key_eqb k key = false) d.*1).
Proof.
  induction d as [|[k c] d IH]; [by right|].
  simpl dict_increment. destruct (key_eqb k key) eqn:Hk; [by left|].
  rewrite !fmap_cons. simpl fst.
  destruct IH as [Heq|[Heq Hd]]; rewrite Heq; [by left|right].
  split; [done|]. by constructor.
Qed.

Lemma dict_increment_text i key d :
  text_key i key → Forall (text_key i) d.*1 → NoDup d.*1 →
  Forall (text_key i) (dict_increment key d).*1 ∧ NoDup (dict_increment key d).*1.
Proof.
  intros Hkey Hd Hnd.
  destruct (dict_increment_keys key d) as [Heq|[Heq Hne]]; rewrite Heq; [done|].
  split.
  - apply Forall_app. split; [done|]. by constructor.
  - apply NoDup_app. split; [done|]. split; [|apply NoDup_singleton].
    intros k Hk Hin. apply list_elem_of_singleton in Hin as ->.
    rewrite Forall_forall in Hne. specialize (Hne _ Hk).
    by rewrite (text_key_eqb_refl i) in Hne.
Qed.

Lemma tally_text i vulns d :
  Forall (λ v, is_str (Exporter.severity v) = true ∧ is_str (Exporter.package v) = true) vulns →
  Forall (text_key i) d.*1 → NoDup d.*1 →
  Forall (text_key i) (tally (JStr i) vulns d).*1
  ∧ NoDup (tally (JStr i) vulns d).*1
  ∧ dict_total (tally (JStr i) vulns d) = (Z.of_nat (length vulns) + dict_total d)%Z.
Proof.
  intros Hv. revert d. induction Hv as [|v vulns [Hs Hp] _ IH]; intros d Hd Hnd.
  - simpl. repeat split; try done.
  - assert (text_key i (JStr i, Exporter.severity v, Exporter.package v)) as Hkey.
    { destruct (Exporter.severity v); try done. destruct (Exporter.package v); try done.
      by eexists _, _. }
    destruct (dict_increment_text i _ d Hkey Hd Hnd) as [Hd' Hnd'].
    destruct (IH _ Hd' Hnd') as (H1 & H2 & H3).
    unfold tally in *. simpl foldl. repeat split; [done..|].
    rewrite H3, dict_increment_total. simpl length. lia.
Qed.

(** Storing the counts of one report under labels none of which is in
    the family yet. *)
Lemma insert_counts_fresh (d : list (count_key * Z)) (g : gmap (string * string * string) Z) :
  NoDup (labels_of <$> d.*1) →
  Forall (λ k, g !! labels_of k = None) d.*1 →
  let g' := foldl (λ g kc, <[labels_of kc.1 := kc.2]> g) g d in
  Gauge.total g' = (Gauge.total g + dict_total d)%Z
  ∧ ∀ l, l ∈ dom g' ↔ l ∈ dom g ∨ l ∈ labels_of <$> d.*1.
Proof.
  revert g. induction d as [|[k c] d IH]; intros g Hnd Hfresh; simpl.
  - split; [lia|]. intros l. rewrite elem_of_nil. tauto.
  - simpl in Hnd, Hfresh. apply NoDup_cons in Hnd as [Hk Hnd].
    apply Forall_cons in Hfresh as [Hgk Hfresh].
    destruct (IH (<[labels_of k := c]> g) Hnd) as [Ht Hdom].
    { rewrite Forall_forall in Hfresh |- *. intros k' Hk'.
      rewrite lookup_insert_ne; [by apply Hfresh|].
      intros Heq. apply Hk. rewrite Heq. by apply list_elem_of_fmap_2. }
    split.
    + rewrite Ht, gauge_total_insert_fresh by done. lia.
    + intros l. rewrite Hdom, dom_insert_L, elem_of_union, elem_of_singleton, elem_of_cons.
      tauto.
Qed.
End Tally.

Section Counting.
Import Exporter.
Variable repr_container : json → string.
Variable iso_timestamp : string → option (result Z).

Abbreviation labels := (key_labels repr_container).
Abbreviation counts := trivy_image_vulnerabilities.

Lemma exec_leaves_counts cs s :
  Forall leaves_counts cs → counts (exec cs s) = counts s.
Proof.
  revert s. induction cs as [|c cs IH]; intros s Hcs; [done|].
  inversion_clear Hcs as [|?? Hc Hrest]. rewrite exec_cons, IH by done.
  by destruct c.
Qed.

Lemma parse_trivy_report_leaves_counts file :
  Forall leaves_counts (calls (parse_trivy_report file)).
Proof.
  unfold parse_trivy_report, parse_body. all_calls; try done.
  apply parse_results_calls.
Qed.

Lemma update_last_scan_leaves_counts r :
  Forall leaves_counts (calls (update_last_scan repr_container iso_timestamp r)).
Proof.
  unfold update_last_scan. destruct (truthy (scan_time r)); all_calls; done.
Qed.

Lemma update_last_scan_outcome r :
  outcome (update_last_scan repr_container iso_timestamp r) = Ok ().
Proof.
  unfold update_last_scan. destruct (truthy (scan_time r)); [|done].
  rewrite outcome_try_except.
  by destruct (outcome _) as [[]|].
Qed.

Lemma set_vulnerability_info_leaves_counts img v :
  Forall leaves_counts (calls (set_vulnerability_info repr_container img v)).
Proof. unfold set_vulnerability_info. all_calls; done. Qed.

Lemma set_vulnerability_info_outcome img v :
  outcome (set_vulnerability_info repr_container img v) = Ok ().
Proof.
  unfold set_vulnerability_info. rewrite outcome_try_except.
  by destruct (outcome _) as [[]|].
Qed.

Lemma count_vulnerabilities_cons img v vs d :
  count_vulnerabilities repr_container img (v :: vs) d =
  (vuln_counts ← lift (count_one (img, severity v, package v) d);
   set_vulnerability_info repr_container img v;;
   count_vulnerabilities repr_container img vs vuln_counts).
Proof. reflexivity. Qed.

Lemma count_vulnerabilities_leaves_counts img vs d :
  Forall leaves_counts (calls (count_vulnerabilities repr_container img vs d)).
Proof.
  revert d. induction vs as [|v vs IH]; intros d; [apply all_mret|].
  rewrite count_vulnerabilities_cons.
  all_calls; [apply set_vulnerability_info_leaves_counts | apply IH].
Qed.

Lemma count_vulnerabilities_text i vs d :
  Forall (λ v, is_str (severity v) = true ∧ is_str (package v) = true) vs →
  outcome (count_vulnerabilities repr_container (JStr i) vs d) = Ok (tally (JStr i) vs d).
Proof.
  intros Hvs. revert d. induction Hvs as [|v vs [Hs Hp] _ IH]; intros d; [done|].
  rewrite count_vulnerabilities_cons.
  assert (count_one (JStr i, severity v, package v) d =
          Ok (dict_increment (JStr i, severity v, package v) d)) as ->.
  { unfold count_one. destruct (severity v); try done. by destruct (package v). }
  rewrite lift_bind_ok, outcome_bind, set_vulnerability_info_outcome. apply IH.
Qed.

Lemma publish_counts_cons k c d :
  publish_counts repr_container ((k, c) :: d) =
  (emit (Vulnerabilities (Gauge.Labels (labels k)));;
   emit (Vulnerabilities (Gauge.SetChild (labels k) c));;
   publish_counts repr_container d).
Proof.
  destruct k as [[img sev] pkg]. unfold publish_counts.
  rewrite !emit_bind. simpl for_each.
  rewrite (eff_eta (for_each d _)).
  unfold mbind, eff_bind, emit, calls, outcome. simpl.
  by destruct (for_each d _) as [ws [[]|e]].
Qed.

Lemma publish_counts_outcome d : outcome (publish_counts repr_container d) = Ok ().
Proof.
  induction d as [|[k c] d IH]; [done|].
  by rewrite publish_counts_cons, !emit_bind.
Qed.

Lemma exec_publish_counts d s :
  counts (exec (calls (publish_counts repr_container d)) s) =
  foldl (λ g kc, <[labels kc.1 := kc.2]> g) (counts s) d.
Proof.
  revert s. induction d as [|[k c] d IH]; intros s; [done|].
  rewrite publish_counts_cons, !emit_bind. unfold calls at 1. simpl fst.
  rewrite !exec_cons, IH. simpl foldl. f_equal.
  apply (gauge_labels_set (labels k) c (counts s)).
Qed.
Lemma publish_report_text r i s seen :
  image r = JStr i →
  Forall (λ v, is_str (severity v) = true ∧ is_str (package v) = true) (vulnerabilities r) →
  i ∉ seen →
  images_within seen (counts s) →
  let after := exec (calls (publish_report repr_container iso_timestamp r)) s in
  outcome (publish_report repr_container iso_timestamp r) = Ok ()
  ∧ Gauge.total (counts after) =
    (Gauge.total (counts s) + Z.of_nat (length (vulnerabilities r)))%Z
  ∧ images_within (i :: seen) (counts after).
Proof.
  intros Hi Hvs Hseen Hwithin after. subst after. unfold publish_report.
  rewrite Hi.
  rewrite (outcome_bind_ok _ _ _ (update_last_scan_outcome r)).
  rewrite (calls_bind_ok _ _ _ (update_last_scan_outcome r)).
  rewrite (outcome_bind_ok _ _ _ (count_vulnerabilities_text i _ [] Hvs)).
  rewrite (calls_bind_ok _ _ _ (count_vulnerabilities_text i _ [] Hvs)).
  rewrite publish_counts_outcome. split; [done|].
  rewrite !exec_app, exec_publish_counts.
  rewrite !exec_leaves_counts
    by (apply count_vulnerabilities_leaves_counts || apply update_last_scan_leaves_counts).
  destruct (tally_text i (vulnerabilities r) [] Hvs) as (Htext & Hnd & Htotal);
    [constructor | constructor |].
  rewrite Forall_forall in Htext.
  destruct (insert_counts_fresh repr_container (tally (JStr i) (vulnerabilities r) [])
              (counts s)) as [Hsum Hdom].
  - apply NoDup_fmap_2_strong; [|done]. intros k1 k2 Hk1 Hk2.
    apply (text_key_labels_inj repr_container i); by apply Htext.
  - apply Forall_forall. intros k Hk.
    destruct (counts s !! labels k) eqn:Hl; [|done]. exfalso. apply Hseen.
    rewrite <- (text_key_image repr_container i k) by by apply Htext.
    apply Hwithin, elem_of_dom. by eexists.
  - split; [etrans; [exact Hsum|]; rewrite Htotal; simpl; by rewrite Z.add_0_r|].
    intros l Hl. apply Hdom in Hl as [Hl|Hl].
    + apply elem_of_cons. right. by apply Hwithin.
    + apply list_elem_of_fmap in Hl as (k & -> & Hk).
      apply elem_of_cons. left. apply (text_key_image repr_container i). by apply Htext.
Qed.

Lemma parsed_cons file files :
  parsed (file :: files) =
  match outcome (parse_trivy_report file) with
  | Ok (Some r) => r :: parsed files
  | _ => parsed files
  end.
Proof.
  unfold parsed. simpl omap.
  by destruct (outcome (parse_trivy_report file)) as [[r|]|e].
Qed.

Lemma process_reports_text files :
  ∀ n s seen,
    Forall text_labels (parsed files) →
    NoDup (image <$> parsed files) →
    (∀ i, JStr i ∈ image <$> parsed files → i ∉ seen) →
    images_within seen (counts s) →
    let after := exec (calls (process_reports repr_container iso_timestamp files n)) s in
    outcome (process_reports repr_container iso_timestamp files n) =
      Ok (n + Z.of_nat (length (parsed files)))%Z
    ∧ Gauge.total (counts after) = (Gauge.total (counts s) + findings (parsed files))%Z.
Proof.
  induction files as [|file files IH]; intros n s seen Htext Hnd Hnew Hwithin after;
    subst after.
  - simpl. split; [f_equal|]; lia.
  - rewrite process_reports_cons, outcome_bind, calls_bind.
    rewrite parsed_cons in Htext, Hnd, Hnew |- *.
    pose proof (parse_trivy_report_leaves_counts file) as Hparse.
    destruct (parse_trivy_report_never_raises file) as [Hp|[r Hp]]; rewrite Hp in *.
    + rewrite exec_app.
      destruct (IH n (exec (calls (parse_trivy_report file)) s) seen) as [Ho Ht];
        try done.
      { by rewrite exec_leaves_counts. }
      by rewrite Ho, Ht, exec_leaves_counts.
    + apply Forall_cons in Htext as [[Himg Hvs] Htext].
      rewrite fmap_cons in Hnd, Hnew. apply NoDup_cons in Hnd as [Hfresh Hnd].
      destruct (image r) as [| | |i| |] eqn:Hi; try done.
      set (s1 := exec (calls (parse_trivy_report file)) s).
      destruct (publish_report_text r i s1 seen Hi Hvs) as (Hok & Hsum & Hwithin').
      { apply Hnew. by left. }
      { subst s1. by rewrite exec_leaves_counts. }
      rewrite outcome_bind, calls_bind, Hok, !exec_app. fold s1.
      destruct (IH (n + 1)%Z
                  (exec (calls (publish_report repr_container iso_timestamp r)) s1)
                  (i :: seen)) as [Ho Ht]; try done.
      { intros j Hj. apply not_elem_of_cons. split.
        - by intros ->.
        - apply Hnew. by right. }
      rewrite Ho, Ht, Hsum. subst s1. rewrite exec_leaves_counts by done.
      simpl length. simpl findings. split; [f_equal|]; lia.
Qed.
End Counting.

Section CountTotal.
Import Exporter.
Variable repr_container : json → string.
Variable iso_timestamp : string → option (result Z).

(** C3 (as amended): when the reports that parse carry pairwise distinct
    artifact names, and their artifact names, severities and package
    names are strings, the cycle returns, the values of the count family
    it leaves sum to the number of findings of those reports, and the
    number of images is the number of those reports. *)
Theorem counts_sum_to_findings (files : list loaded) (s : state) :
  Forall text_labels (parsed files) →
  NoDup (image <$> parsed files) →
  let after := exec (calls (update_metrics repr_container iso_timestamp (listing files))) s in
  outcome (update_metrics repr_container iso_timestamp (listing files)) = Ok ()
  ∧ Gauge.total (trivy_image_vulnerabilities after) = findings (parsed files)
  ∧ trivy_images_scanned after = Z.of_nat (length (parsed files)).
Proof.
  intros Htext Hnd after. subst after.
  rewrite update_metrics_outcome, outcome_read_reports_listing.
  rewrite update_metrics_calls, !exec_cons, exec_read_reports_listing.
  set (s0 := apply (apply s (Vulnerabilities Gauge.Clear)) (VulnerabilityInfo Gauge.Clear)).
  destruct (process_reports_text repr_container iso_timestamp files 0 s0 [] Htext Hnd)
    as [Ho Ht].
  { intros i _. apply not_elem_of_nil. }
  { intros l Hl. subst s0. simpl in Hl. by rewrite dom_empty_L in Hl. }
  rewrite Ho. split; [done|]. split.
  - etrans; [exact Ht|]. subst s0. simpl.
    rewrite (gauge_total_empty (K := count_labels)). lia.
  - simpl. lia.
Qed.
End CountTotal.

Lemma counts_sum_to_findings_witness :
  let files := [Loads (Sample.document "app:1.0"
                         [Sample.finding "CVE-1" "libfoo" "HIGH";
                          Sample.finding "CVE-2" "libfoo" "HIGH";
                          Sample.finding "CVE-3" "libbar" "LOW"]);
                LoadFails JSONDecodeError;
                Loads (Sample.document "app:2.0" [Sample.finding "CVE-1" "libfoo" "HIGH"])] in
  let after := Exporter.exec
                 (calls (Exporter.update_metrics Sample.repr Sample.clock (listing files)))
                 Exporter.initial in
  findings (parsed files) = 4%Z
  ∧ Gauge.total (Exporter.trivy_image_vulnerabilities after) = findings (parsed files)
  ∧ Exporter.trivy_images_scanned after = 2%Z.
Proof.
  intros files after.
  destruct (counts_sum_to_findings Sample.repr Sample.clock files Exporter.initial)
    as (_ & Hsum & Hn).
  - vm_compute. repeat constructor.
  - vm_compute. apply NoDup_cons. split; [|apply NoDup_singleton].
    rewrite list_elem_of_singleton. discriminate.
  - split; [reflexivity|]. split; [exact Hsum|exact Hn].
Defined.

(** C3 (as stated) fails: two report files for the same image, one finding
    each, are two findings; the later report stores its own count under
    the label of the earlier one, and the family sums to 1. *)
Lemma same_image_reports_overwrite_counts :
  let report := Loads (Sample.document "app:1.0" [Sample.finding "CVE-1" "libfoo" "HIGH"]) in
  let files := [report; report] in
  let after := Exporter.exec
                 (calls (Exporter.update_metrics Sample.repr Sample.clock (listing files)))
                 Exporter.initial in
  length (parsed files) = 2
  ∧ findings (parsed files) = 2%Z
  ∧ Exporter.trivy_image_vulnerabilities after !! ("app:1.0", "HIGH", "libfoo") = Some 1%Z
  ∧ Gauge.total (Exporter.trivy_image_vulnerabilities after) = 1%Z.
Proof. repeat split; vm_compute; reflexivity. Qed.

(** ** trivy-prometheus-exporter.py: one scan attempt *)

Section ScanAttempt.
Import PrometheusExporter.
Variable repr_container : json → string.

Lemma scan_image_raises image namespace a e :
  run_result a = Raise e →
  scan_image image namespace a =
  ([Log Info; Log Error;
    ScanErrors (Gauge.Labels (image, namespace));
    ScanErrors (Gauge.SetChild (image, namespace) 1)], Ok None).
Proof. unfold scan_image. by intros ->. Qed.

Lemma scan_image_exit_code image namespace a result :
  run_result a = Ok result → (returncode result =? 0)%Z = false →
  scan_image image namespace a =
  ([Log Info; ScanDurationLabels image;
    ScanDurationObserve image (end_time a - start_time a);
    Log Error;
    ScanErrors (Gauge.Labels (image, namespace));
    ScanErrors (Gauge.SetChild (image, namespace) 1)], Ok None).
Proof. unfold scan_image. intros -> Hrc. simpl. by rewrite Hrc. Qed.

Lemma scan_image_undecodable image namespace a result e :
  run_result a = Ok result → (returncode result =? 0)%Z = true →
  stdout result = LoadFails e →
  scan_image image namespace a =
  ([Log Info; ScanDurationLabels image;
    ScanDurationObserve image (end_time a - start_time a);
    Log Error;
    ScanErrors (Gauge.Labels (image, namespace));
    ScanErrors (Gauge.SetChild (image, namespace) 1)], Ok None).
Proof. unfold scan_image. intros -> Hrc Hout. simpl. by rewrite Hrc, Hout. Qed.

Lemma scan_image_succeeds image namespace a result data :
  run_result a = Ok result → (returncode result =? 0)%Z = true →
  stdout result = Loads data →
  scan_image image namespace a =
  ([Log Info; ScanDurationLabels image;
    ScanDurationObserve image (end_time a - start_time a);
    Log Info;
    LastScan (Gauge.Labels (image, namespace));
    LastScan (Gauge.SetChild (image, namespace) (stamp_time a));
    ScanErrors (Gauge.Labels (image, namespace));
    ScanErrors (Gauge.SetChild (image, namespace) 0)], Ok (Some data)).
Proof. unfold scan_image. intros -> Hrc Hout. simpl. by rewrite Hrc, Hout. Qed.

(** What a failed attempt calls: no call on the vulnerability gauge, and
    the error gauge of the subject set to 1 last. *)
Lemma scan_image_fails image namespace a :
  scan_fails a = true →
  ∃ cs, scan_image image namespace a =
        (cs ++ [ScanErrors (Gauge.Labels (image, namespace));
                ScanErrors (Gauge.SetChild (image, namespace) 1)], Ok None)
        ∧ Forall (λ c, match c with
                       | VulnerabilityGauge _ | ScanErrors _ | LastScan _ => False
                       | _ => True
                       end) cs.
Proof.
  unfold scan_fails. intros Hf.
  destruct (run_result a) as [result|e] eqn:Hrun.
  - destruct (returncode result =? 0)%Z eqn:Hrc; simpl in Hf.
    + destruct (stdout result) as [e|data] eqn:Hout; [|done].
      rewrite (scan_image_undecodable _ _ _ _ _ Hrun Hrc Hout).
      eexists [_; _; _; _]. split; [done|]. by repeat constructor.
    + rewrite (scan_image_exit_code _ _ _ _ Hrun Hrc).
      eexists [_; _; _; _]. split; [done|]. by repeat constructor.
  - rewrite (scan_image_raises _ _ _ _ Hrun).
    eexists [_; _]. split; [done|]. by repeat constructor.
Qed.
End ScanAttempt.

(** ** trivy-prometheus-exporter.py: a cycle over the images *)

Section ScanCycle.
Import PrometheusExporter.
Variable repr_container : json → string.

Abbreviation scan_step := (scan_one repr_container).
Abbreviation scan_cycle := (scan_all_images repr_container).

Lemma scan_exec_app cs1 cs2 s : exec (cs1 ++ cs2) s = exec cs2 (exec cs1 s).
Proof. apply foldl_app. Qed.

Lemma scan_exec_gauge_untouched cs s :
  Forall (λ c, match c with VulnerabilityGauge _ => False | _ => True end) cs →
  vulnerability_gauge (exec cs s) = vulnerability_gauge s.
Proof.
  revert s. induction cs as [|c cs IH]; intros s Hcs; [done|].
  inversion_clear Hcs as [|?? Hc Hrest].
  change (exec (c :: cs) s) with (exec cs (apply s c)).
  rewrite IH by done. by destruct c.
Qed.

Lemma scan_exec_gauge_only cs s1 s2 :
  vulnerability_gauge s1 = vulnerability_gauge s2 →
  vulnerability_gauge (exec cs s1) = vulnerability_gauge (exec cs s2).
Proof.
  revert s1 s2. induction cs as [|c cs IH]; intros s1 s2 Hg; [done|].
  change (exec (c :: cs) ?s) with (exec cs (apply s c)).
  apply IH. destruct c; simpl; congruence.
Qed.

Lemma scan_one_fails image namespace a :
  scan_fails a = true →
  scan_step (image, namespace, a) =
  (calls (scan_image image namespace a) ++ [Sleep 2], Ok ()).
Proof.
  intros Hf. destruct (scan_image_fails image namespace a Hf) as (cs & Hs & _).
  unfold scan_one. rewrite Hs. by rewrite (bind_ok _ _ _ None eq_refl).
Qed.

Lemma scan_all_images_gauge images s :
  vulnerability_gauge (exec (calls (scan_cycle images)) s) =
  vulnerability_gauge (exec (calls (for_each images scan_step)) s).
Proof. by destruct images. Qed.

End ScanCycle.

Section ScanTelemetry.
Import PrometheusExporter.

(** C5 (failing input): an attempt that times out makes no call on the
    duration histogram, so the histogram is as before; an attempt in
    which the scanner returns, whatever its exit code and its output,
    observes [end_time - start_time] for the image. *)
Theorem timed_out_scan_records_no_duration
    (image namespace : string) (t0 t1 t2 : Z) (result : completed) (s : state) :
  let timed_out := {| start_time := t0; run_result := Raise TimeoutExpired;
                      end_time := t1; stamp_time := t2 |} in
  let returned := {| start_time := t0; run_result := Ok result;
                     end_time := t1; stamp_time := t2 |} in
  scan_image image namespace timed_out =
    ([Log Info; Log Error;
      ScanErrors (Gauge.Labels (image, namespace));
      ScanErrors (Gauge.SetChild (image, namespace) 1)], Ok None)
  ∧ scan_duration (exec (calls (scan_image image namespace timed_out)) s) = scan_duration s
  ∧ scan_duration (exec (calls (scan_image image namespace returned)) s) !! image =
    Some (default [] (scan_duration s !! image) ++ [(t1 - t0)%Z]).
Proof.
  intros timed_out returned. split; [done|]. split; [done|].
  assert (∃ cs, calls (scan_image image namespace returned) =
                [Log Info; ScanDurationLabels image;
                 ScanDurationObserve image (t1 - t0)] ++ cs
                ∧ Forall (λ c, match c with
                               | ScanDurationLabels _ | ScanDurationObserve _ _ => False
                               | _ => True
                               end) cs) as (cs & -> & Hcs).
  { destruct (returncode result =? 0)%Z eqn:Hrc.
    - destruct (stdout result) as [e|data] eqn:Hout.
      + rewrite (scan_image_undecodable _ _ returned result e eq_refl Hrc Hout).
        eexists. split; [done|]. by repeat constructor.
      + rewrite (scan_image_succeeds _ _ returned result data eq_refl Hrc Hout).
        eexists. split; [done|]. by repeat constructor.
    - rewrite (scan_image_exit_code _ _ returned result eq_refl Hrc).
      eexists. split; [done|]. by repeat constructor. }
  rewrite scan_exec_app.
  assert (∀ s0, scan_duration (exec cs s0) = scan_duration s0) as ->.
  { clear -Hcs. induction cs as [|c cs IH]; intros s0; [done|].
    inversion_clear Hcs as [|?? Hc Hrest].
    change (exec (c :: cs) s0) with (exec cs (apply s0 c)).
    rewrite IH by done. by destruct c. }
  simpl. destruct (scan_duration s !! image) as [seen|] eqn:Hseen; simpl.
  - by rewrite Hseen, lookup_insert_eq.
  - by rewrite lookup_insert_eq, lookup_insert_eq.
Qed.

(** C10: when the scanner exits with 0 and its output decodes,
    [scan_image] returns the decoded output, and after it the error
    gauge of the subject reads 0 and its last-scan timestamp reads the
    clock, whatever they read before. *)
Theorem successful_scan_clears_error
    (image namespace : string) (a : attempt) (result : completed) (data : json)
    (s : state) :
  run_result a = Ok result →
  returncode result = 0%Z →
  stdout result = Loads data →
  let s' := exec (calls (scan_image image namespace a)) s in
  outcome (scan_image image namespace a) = Ok (Some data)
  ∧ scan_errors s' !! (image, namespace) = Some 0%Z
  ∧ last_scan_timestamp s' !! (image, namespace) = Some (stamp_time a).
Proof.
  intros Hrun Hrc Hout s'. subst s'.
  rewrite (scan_image_succeeds image namespace a result data Hrun) by (by rewrite ?Hrc).
  split; [done|]. split; simpl; apply lookup_insert_eq.
Qed.
End ScanTelemetry.

Lemma successful_scan_clears_error_witness :
  let data := Sample.document "app:1.0" [Sample.finding "CVE-1" "libfoo" "HIGH"] in
  let failed := PrometheusExporter.exec
                  (calls (PrometheusExporter.scan_image "app:1.0" "default" Sample.timed_out))
                  PrometheusExporter.initial in
  let rescanned := PrometheusExporter.exec
                     (calls (PrometheusExporter.scan_image "app:1.0" "default"
                               (Sample.exits 0 (Loads data))))
                     failed in
  PrometheusExporter.scan_errors failed !! ("app:1.0", "default") = Some 1%Z
  ∧ PrometheusExporter.scan_errors rescanned !! ("app:1.0", "default") = Some 0%Z
  ∧ PrometheusExporter.last_scan_timestamp rescanned !! ("app:1.0", "default") = Some 1008%Z.
Proof.
  intros data failed rescanned.
  pose proof (successful_scan_clears_error "app:1.0" "default" (Sample.exits 0 (Loads data))
                _ data failed eq_refl eq_refl eq_refl) as (_ & Herr & Hstamp).
  split; [vm_compute; reflexivity|]. split; [exact Herr|exact Hstamp].
Defined.

(** ** Sleeping between cycles *)

Section Sleeping.
Variable repr_container : json → string.
Variable iso_timestamp : string → option (result Z).
Variable SCAN_INTERVAL : Z.

Lemma scan_sleep_unfold secs :
  PrometheusExporter.sleep secs =
  (if raised (py_sleep secs) then [] else [PrometheusExporter.Sleep secs], py_sleep secs).
Proof. unfold PrometheusExporter.sleep. by destruct (py_sleep secs) as [[]|e]. Qed.

(** The calls of one turn of [run]: the sleep of the interval is inside
    the [try], so that an interval [time.sleep] refuses ends the turn in
    the handler. *)
Lemma run_cycle_calls interval images :
  calls (PrometheusExporter.run_cycle repr_container interval images) =
  [PrometheusExporter.Log Info] ++
  calls (PrometheusExporter.scan_all_images repr_container images) ++
  (if raised (outcome (PrometheusExporter.scan_all_images repr_container images))
   then [PrometheusExporter.Log Error; PrometheusExporter.Sleep 60]
   else if raised (py_sleep interval)
   then [PrometheusExporter.Log Info; PrometheusExporter.Log Error;
         PrometheusExporter.Sleep 60]
   else [PrometheusExporter.Log Info; PrometheusExporter.Sleep interval]).
Proof.
  unfold PrometheusExporter.run_cycle.
  rewrite calls_try_except, !emit_bind. unfold calls at 1, outcome at 1. simpl fst. simpl snd.
  rewrite calls_bind, outcome_bind, (scan_sleep_unfold interval).
  destruct (outcome (PrometheusExporter.scan_all_images repr_container images)) as [[]|e];
    [destruct (py_sleep interval) as [[]|e]|];
    simpl; by rewrite <- ?app_assoc, ?app_nil_r.
Qed.

Lemma run_cycle_outcome interval images :
  outcome (PrometheusExporter.run_cycle repr_container interval images) = Ok ().
Proof.
  unfold PrometheusExporter.run_cycle.
  rewrite outcome_try_except, !emit_bind. unfold outcome at 1. simpl snd.
  rewrite outcome_bind, (scan_sleep_unfold interval).
  destruct (outcome (PrometheusExporter.scan_all_images repr_container images)) as [[]|e];
    [by destruct (py_sleep interval) as [[]|e]|done].
Qed.

Lemma last_two {A} (l : list A) a b : last (l ++ [a; b]) = Some b.
Proof. change [a; b] with ([a] ++ [b]). by rewrite app_assoc, last_snoc. Qed.

Lemma last_three {A} (l : list A) a b c : last (l ++ [a; b; c]) = Some c.
Proof. change [a; b; c] with ([a; b] ++ [c]). by rewrite app_assoc, last_snoc. Qed.

(** C6 (as amended): when the configured interval is a length that
    [time.sleep] accepts, every turn of the loop of trivy-exporter.py ends
    by sleeping SCAN_INTERVAL seconds, whether [update_metrics] returned
    or raised, and the turn returns; in trivy-prometheus-exporter.py a
    turn whose cycle returned ends by sleeping the interval and a turn
    whose cycle raised ends by sleeping 60 seconds.  The turn of [run]
    returns in every case, so its loop goes on.  An interval that
    [time.sleep] refuses (a negative one) makes every turn of [run] end
    by sleeping 60 seconds, and makes the turn of [main] raise without
    sleeping, which ends its loop. *)
Theorem sleep_after_cycle
    (d : reports_dir) (interval : Z) (images : list (string * string * PrometheusExporter.attempt)) :
  (sleep_accepts SCAN_INTERVAL →
   last (calls (Exporter.main_cycle repr_container iso_timestamp SCAN_INTERVAL d)) =
     Some (Exporter.Sleep SCAN_INTERVAL)
   ∧ outcome (Exporter.main_cycle repr_container iso_timestamp SCAN_INTERVAL d) = Ok ())
  ∧ (sleep_accepts interval →
     last (calls (PrometheusExporter.run_cycle repr_container interval images)) =
       Some (PrometheusExporter.Sleep
               (if raised (outcome (PrometheusExporter.scan_all_images repr_container images))
                then 60 else interval)))
  ∧ outcome (PrometheusExporter.run_cycle repr_container interval images) = Ok ()
  ∧ (¬ sleep_accepts interval →
     last (calls (PrometheusExporter.run_cycle repr_container interval images)) =
       Some (PrometheusExporter.Sleep 60))
  ∧ (¬ sleep_accepts SCAN_INTERVAL →
     raised (outcome (Exporter.main_cycle repr_container iso_timestamp SCAN_INTERVAL d)) = true
     ∧ Forall (λ c, c ≠ Exporter.Sleep SCAN_INTERVAL)
         (calls (Exporter.main_cycle repr_container iso_timestamp SCAN_INTERVAL d))).
Proof.
  split; [|split; [|split; [|split]]].
  - intros Hok. rewrite main_cycle_calls, main_cycle_outcome, (py_sleep_accepts _ Hok).
    simpl raised. cbv iota. split; [|done]. by rewrite !app_assoc, last_snoc.
  - intros Hok. rewrite run_cycle_calls, (py_sleep_accepts _ Hok). simpl raised.
    destruct (raised _); cbv iota; by rewrite app_assoc, last_two.
  - apply run_cycle_outcome.
  - intros Hno. rewrite run_cycle_calls, (py_sleep_refuses _ Hno).
    destruct (raised _); cbv iota; by rewrite app_assoc, ?last_two, ?last_three.
  - intros Hno. rewrite main_cycle_calls, main_cycle_outcome.
    split; [by apply py_sleep_refuses|].
    rewrite (py_sleep_refuses _ Hno). cbv iota. rewrite app_nil_r. apply Forall_app. split.
    + rewrite update_metrics_calls. do 2 (constructor; [done|]).
      eapply Forall_impl; [apply read_reports_publishes|].
      intros c Hc ->. exact Hc.
    + by destruct (raised _); repeat constructor.
Qed.
End Sleeping.

Lemma sleep_after_cycle_witness :
  sleep_accepts 300 ∧ sleep_accepts 3600 ∧ ¬ sleep_accepts (-5)
  ∧ last (calls (Exporter.main_cycle Sample.repr Sample.clock 300 Sample.unreadable)) =
    Some (Exporter.Sleep 300)
  ∧ last (calls (PrometheusExporter.run_cycle Sample.repr 3600 [])) =
    Some (PrometheusExporter.Sleep 3600)
  ∧ last (calls (PrometheusExporter.run_cycle Sample.repr (-5) [])) =
    Some (PrometheusExporter.Sleep 60)
  ∧ raised (outcome (Exporter.main_cycle Sample.repr Sample.clock (-5) Sample.unreadable)) =
    true.
Proof.
  assert (sleep_accepts 300) as H300 by (unfold sleep_accepts, sleep_limit; lia).
  assert (sleep_accepts 3600) as H3600 by (unfold sleep_accepts, sleep_limit; lia).
  assert (¬ sleep_accepts (-5)) as Hno by (unfold sleep_accepts; lia).
  destruct (sleep_after_cycle Sample.repr Sample.clock 300 Sample.unreadable 3600 [])
    as (Hmain & Hrun & _).
  destruct (sleep_after_cycle Sample.repr Sample.clock (-5) Sample.unreadable (-5) [])
    as (_ & _ & _ & Hsixty & Hout).
  split; [exact H300|]. split; [exact H3600|]. split; [exact Hno|].
  split; [exact (proj1 (Hmain H300))|]. split; [exact (Hrun H3600)|].
  split; [exact (Hsixty Hno)|exact (proj1 (Hout Hno))].
Defined.

(** C6 (as stated) fails: with an interval of 3600 seconds, a cycle in which
    the scanner prints a result whose "Vulnerabilities" is [null] raises
    out of [scan_all_images], and the loop sleeps 60 seconds before the
    next cycle. *)
Lemma failed_cycle_sleeps_sixty_seconds :
  let images := [("app:1.0", "default",
                  Sample.exits 0 (Loads (JObj [("Results",
                    JArr [JObj [("Target", JStr "app:1.0"); ("Vulnerabilities", JNull)]])])))] in
  outcome (PrometheusExporter.scan_all_images Sample.repr images) = Raise TypeError
  ∧ last (calls (PrometheusExporter.run_cycle Sample.repr 3600 images)) =
    Some (PrometheusExporter.Sleep 60)
  ∧ (60 < 3600)%Z.
Proof. repeat split; vm_compute; reflexivity. Qed.

(** ** dashboard/trivy_exporter.py: the same loop over the reports *)

(** The dashboard copy of the loop overwrites the count of an image that
    two report files name, as trivy-exporter.py does. *)
Lemma dashboard_same_image_reports_overwrite_counts :
  let report := Loads (Sample.document "app:1.0" [Sample.finding "CVE-1" "libfoo" "HIGH"]) in
  let after := Dashboard.exec
                 (calls (Dashboard.update_metrics Sample.repr Sample.clock
                           (listing [report; report])))
                 Dashboard.initial in
  Dashboard.trivy_image_vulnerabilities after !! ("app:1.0", "HIGH", "libfoo") = Some 1%Z
  ∧ Gauge.total (Dashboard.trivy_image_vulnerabilities after) = 1%Z
  ∧ Dashboard.trivy_images_scanned after = 2%Z.
Proof. repeat split; vm_compute; reflexivity. Qed.

(** It passes over a file that does not decode in the same way, and also
    over a report in which "Vulnerabilities" is [null], which
    trivy-exporter.py reads as an empty list. *)
Lemma dashboard_passes_over_unparsed_reports :
  let good := Loads (Sample.document "app:1.0" [Sample.finding "CVE-1" "libfoo" "HIGH"]) in
  let null := Loads (JObj [("ArtifactName", JStr "web:3");
                           ("Results", JArr [JObj [("Vulnerabilities", JNull)]])]) in
  let cycle := Dashboard.update_metrics Sample.repr Sample.clock in
  outcome (Dashboard.parse_trivy_report (LoadFails JSONDecodeError)) = Ok None
  ∧ outcome (Dashboard.parse_trivy_report null) = Ok None
  ∧ Dashboard.exec (calls (cycle (listing [LoadFails JSONDecodeError; null; good])))
      Dashboard.initial =
    Dashboard.exec (calls (cycle (listing [good]))) Dashboard.initial
  ∧ ∃ r, outcome (Exporter.parse_trivy_report null) = Ok (Some r)
         ∧ Exporter.vulnerabilities r = [].
Proof.
  split; [reflexivity|]. split; [reflexivity|]. split; [vm_compute; reflexivity|].
  eexists. split; reflexivity.
Qed.

Set Warnings "-clear-no-such-hyp".

(** ** trivy-prometheus-exporter.py: the lookup of the images *)

Section InventoryFacts.
Import Inventory.

Lemma elem_of_add_images namespace l acc x :
  x ∈ add_images namespace l acc ↔ x ∈ acc ∨ ∃ i, i ∈ l ∧ x = (i, namespace).
Proof.
  unfold add_images. revert acc. induction l as [|i l IH]; intros acc; simpl.
  - split; [by left|]. intros [?|(i & Hi & _)]; [done|]. by apply elem_of_nil in Hi.
  - rewrite IH, elem_of_union, elem_of_singleton. split.
    + intros [[->|?]|(j & Hj & ->)]; [right|by left|right].
      * exists i. split; [by left|done].
      * exists j. split; [by right|done].
    + intros [?|(j & Hj & ->)]; [left; by right|].
      apply elem_of_cons in Hj as [->|Hj]; [left; by left|right; by exists j].
Qed.

Lemma add_pod_images namespace p acc :
  add_pod namespace p acc =
  add_images namespace (default [] (init_containers p))
    (add_images namespace (containers p) acc).
Proof. unfold add_pod. by destruct (init_containers p) as [[|i0 inits]|]. Qed.

Lemma elem_of_add_pod namespace p acc x :
  x ∈ add_pod namespace p acc ↔ x ∈ acc ∨ ∃ i, i ∈ pod_images p ∧ x = (i, namespace).
Proof.
  rewrite add_pod_images, !elem_of_add_images. unfold pod_images. split.
  - intros [[?|(i & Hi & ->)]|(i & Hi & ->)].
    + by left.
    + right. exists i. split; [|done]. apply elem_of_app. by left.
    + right. exists i. split; [|done]. apply elem_of_app. by right.
  - intros [?|(i & Hi & ->)].
    + left. by left.
    + apply elem_of_app in Hi as [Hi|Hi].
      * left. right. by exists i.
      * right. by exists i.
Qed.

Lemma elem_of_add_pods namespace pods acc x :
  x ∈ foldl (λ acc p, add_pod namespace p acc) acc pods ↔
  x ∈ acc ∨ ∃ p i, p ∈ pods ∧ i ∈ pod_images p ∧ x = (i, namespace).
Proof.
  revert acc. induction pods as [|p pods IH]; intros acc; simpl.
  - split; [by left|]. intros [?|(p & i & Hp & _)]; [done|]. by apply elem_of_nil in Hp.
  - rewrite IH, elem_of_add_pod. split.
    + intros [[?|(i & Hi & ->)]|(q & i & Hq & Hi & ->)]; [by left|right..].
      * exists p, i. split; [by left|done].
      * exists q, i. split; [by right|done].
    + intros [?|(q & i & Hq & Hi & ->)]; [left; by left|].
      apply elem_of_cons in Hq as [->|Hq]; [left; right; by exists i|right; by exists q, i].
Qed.

Lemma visit_namespaces_ok c todo acc res x :
  visit_namespaces c todo acc = Ok res →
  (x ∈ res ↔
   x ∈ acc ∨ ((x.2) ∈ todo ∧ ((x.2) ∉ system_namespaces) ∧ runs_in c (x.1) (x.2))).
Proof.
  revert acc. induction todo as [|ns todo IH]; intros acc Hv; simpl in Hv.
  - injection Hv as <-. split; [by left|]. intros [?|[Hx _]]; [done|].
    by apply elem_of_nil in Hx.
  - case_bool_decide as Hsys.
    + rewrite (IH _ Hv). split.
      * intros [?|(Hx & ? & ?)]; [by left|right]. split; [by right|done].
      * intros [?|(Hx & Hn & ?)]; [by left|right].
        apply elem_of_cons in Hx as [Hx|Hx]; [by rewrite Hx in Hn|done].
    + destruct (list_namespaced_pod c ns) as [pods|e] eqn:Hpods; [|done].
      rewrite (IH _ Hv), elem_of_add_pods. split.
      * intros [[?|(p & i & Hp & Hi & ->)]|(Hx & ? & ?)]; [by left|right..].
        -- simpl. split; [by left|]. split; [done|]. by exists pods, p.
        -- split; [by right|done].
      * intros [?|(Hx & Hn & Hr)]; [left; by left|].
        apply elem_of_cons in Hx as [Hx|Hx]; [left; right|right; done].
        destruct Hr as (pods' & p & Hpods' & Hp & Hi). rewrite Hx, Hpods in Hpods'.
        injection Hpods' as <-. exists p, x.1. split; [done|]. split; [done|].
        destruct x as [i n]. simpl in *. by subst.
Qed.

Lemma visit_namespaces_returns c todo acc :
  (∀ ns, ns ∈ todo → ns ∉ system_namespaces → ∃ pods, list_namespaced_pod c ns = Ok pods) →
  ∃ res, visit_namespaces c todo acc = Ok res.
Proof.
  revert acc. induction todo as [|ns todo IH]; intros acc Hok; simpl; [by eexists|].
  case_bool_decide as Hsys.
  - apply IH. intros ns' Hns'. apply Hok. by right.
  - destruct (Hok ns) as [pods ->]; [by left|done|].
    apply IH. intros ns' Hns'. apply Hok. by right.
Qed.

Lemma visit_namespaces_raises c todo acc ns e :
  ns ∈ todo → ns ∉ system_namespaces → list_namespaced_pod c ns = Raise e →
  ∃ e', visit_namespaces c todo acc = Raise e'.
Proof.
  revert acc. induction todo as [|ns' todo IH]; intros acc Hin Hsys He; simpl.
  - by apply elem_of_nil in Hin.
  - case_bool_decide as Hsys'.
    + apply IH; [|done..]. apply elem_of_cons in Hin as [->|?]; done.
    + destruct (list_namespaced_pod c ns') as [pods|e'] eqn:Hpods; [|by eexists].
      apply IH; [|done..]. apply elem_of_cons in Hin as [->|?]; [congruence|done].
Qed.

Lemma get_images_from_cluster_returns c :
  ∃ l, outcome (get_images_from_cluster c) = Ok l.
Proof.
  unfold get_images_from_cluster. rewrite outcome_try_except.
  destruct (outcome _) as [l|e]; by eexists.
Qed.

Lemma get_images_from_cluster_found c todo res :
  namespaces c = Ok todo → visit_namespaces c todo ∅ = Ok res →
  get_images_from_cluster c = ([PrometheusExporter.Log Info], Ok (elements res)).
Proof.
  unfold get_images_from_cluster. intros Hn Hv.
  by rewrite Hn, lift_bind_ok, Hv, lift_bind_ok, emit_bind.
Qed.
End InventoryFacts.

Section InventoryLookup.
Import Inventory.
Variable repr_container : json → string.

(** X1: [get_images_from_cluster] never raises.  When the namespaces cannot
    be listed, or the pods of any namespace it visits cannot, it logs the
    error and returns the empty list, dropping the images it had collected
    from other namespaces; [scan_all_images] then logs a warning, scans
    nothing and returns. *)
Theorem inventory_failure_gives_no_images
    (c : cluster) (scan : string → string → PrometheusExporter.attempt)
    (todo : list string) (ns : string) (e : exn) :
  (∃ l, outcome (get_images_from_cluster c) = Ok l)
  ∧ (namespaces c = Raise e →
     get_images_from_cluster c = ([PrometheusExporter.Log Error], Ok []))
  ∧ (namespaces c = Ok todo → ns ∈ todo → ns ∉ system_namespaces →
     list_namespaced_pod c ns = Raise e →
     get_images_from_cluster c = ([PrometheusExporter.Log Error], Ok [])
     ∧ scan_all_images repr_container c scan =
       ([PrometheusExporter.Log Error; PrometheusExporter.Log Warning], Ok ())).
Proof.
  split; [apply get_images_from_cluster_returns|]. split.
  - unfold get_images_from_cluster. by intros ->.
  - intros Hn Hin Hsys He.
    destruct (visit_namespaces_raises c todo ∅ ns e Hin Hsys He) as [e' Hv].
    assert (get_images_from_cluster c = ([PrometheusExporter.Log Error], Ok [])) as Hget.
    { unfold get_images_from_cluster. by rewrite Hn, lift_bind_ok, Hv. }
    split; [done|]. unfold scan_all_images. by rewrite Hget.
Qed.

(** X2: when the namespaces and the pods of every namespace it visits can
    be listed, [get_images_from_cluster] returns, without repetition,
    exactly the pairs [(image, namespace)] in which the namespace is one
    of those to visit, is not a system namespace, and has a pod with a
    container or an init container of that image. *)
Theorem inventory_lists_running_images (c : cluster) (todo : list string) :
  namespaces c = Ok todo →
  (∀ ns, ns ∈ todo → ns ∉ system_namespaces →
         ∃ pods, list_namespaced_pod c ns = Ok pods) →
  ∃ l, get_images_from_cluster c = ([PrometheusExporter.Log Info], Ok l)
       ∧ NoDup l
       ∧ ∀ image ns, (image, ns) ∈ l ↔
                     ns ∈ todo ∧ (ns ∉ system_namespaces) ∧ runs_in c image ns.
Proof.
  intros Hn Hok. destruct (visit_namespaces_returns c todo ∅ Hok) as [res Hv].
  exists (elements res). split; [by apply (get_images_from_cluster_found c todo)|].
  split; [apply NoDup_elements|]. intros image ns.
  rewrite elem_of_elements, (visit_namespaces_ok c todo ∅ res (image, ns) Hv). simpl.
  split; [intros [Hx|?]; [by apply not_elem_of_empty in Hx|done] | by right].
Qed.

(** X3: whatever the API answers, no pair that [get_images_from_cluster]
    returns lies in a system namespace or, when a filter is set, outside
    the filter, and each is an image of a pod listed in its namespace; a
    filter that names a system namespace gives the empty list. *)
Theorem inventory_respects_filter
    (c : cluster) (l : list (string * string)) (image ns f : string) :
  (outcome (get_images_from_cluster c) = Ok l → (image, ns) ∈ l →
   (ns ∉ system_namespaces)
   ∧ (namespace_filter c = Some f → f ≠ "" → ns = f)
   ∧ runs_in c image ns)
  ∧ (namespace_filter c = Some f → f ∈ system_namespaces →
     get_images_from_cluster c = ([PrometheusExporter.Log Info], Ok [])).
Proof.
  split.
  - intros Hl Hin.
    destruct (namespaces c) as [todo|e] eqn:Hn; cycle 1.
    { unfold get_images_from_cluster in Hl. rewrite Hn in Hl. injection Hl as <-.
      by apply elem_of_nil in Hin. }
    destruct (visit_namespaces c todo ∅) as [res|e] eqn:Hv; cycle 1.
    { unfold get_images_from_cluster in Hl. rewrite Hn, lift_bind_ok, Hv in Hl.
      injection Hl as <-. by apply elem_of_nil in Hin. }
    rewrite (get_images_from_cluster_found c todo res Hn Hv) in Hl. injection Hl as <-.
    apply elem_of_elements in Hin.
    destruct (proj1 (visit_namespaces_ok c todo ∅ res (image, ns) Hv) Hin)
      as [Hemp|(Htodo & Hsys & Hr)].
    { by apply not_elem_of_empty in Hemp. }
    simpl in *. split; [done|]. split; [|done].
    intros Hf Hne. unfold namespaces in Hn. rewrite Hf in Hn. simpl in Hn.
    destruct (String.eqb f "") eqn:Hempty.
    { by apply String.eqb_eq in Hempty. }
    simpl in Hn. injection Hn as <-. by apply list_elem_of_singleton in Htodo.
  - intros Hf Hsys.
    assert (f ≠ "") as Hne.
    { intros ->. unfold system_namespaces in Hsys.
      repeat (apply elem_of_cons in Hsys as [Hsys|Hsys]; [discriminate Hsys|]).
      by apply elem_of_nil in Hsys. }
    assert (namespaces c = Ok [f]) as Hn.
    { unfold namespaces. rewrite Hf. simpl.
      destruct (String.eqb f "") eqn:Hempty; [by apply String.eqb_eq in Hempty|done]. }
    assert (visit_namespaces c [f] ∅ = Ok ∅) as Hv.
    { simpl. by rewrite bool_decide_true. }
    rewrite (get_images_from_cluster_found c [f] ∅ Hn Hv). by rewrite elements_empty.
Qed.
End InventoryLookup.

(** Closes [x ∉ l] and [x ∈ l] for a string and a list of strings that are
    both given. *)
Ltac given_strings :=
  lazymatch goal with
  | |- _ ∉ _ =>
      let H := fresh in
      intros H;
      repeat (apply elem_of_cons in H as [H|H]; [discriminate H|]);
      by apply elem_of_nil in H
  | |- _ ∈ _ => repeat first [by left | right]
  end.

Lemma inventory_failure_gives_no_images_witness :
  let c := Sample.cluster None ["default"; "broken"] in
  Inventory.get_images_from_cluster c = ([PrometheusExporter.Log Error], Ok [])
  ∧ Inventory.scan_all_images Sample.repr c (λ _ _, Sample.timed_out) =
    ([PrometheusExporter.Log Error; PrometheusExporter.Log Warning], Ok ()).
Proof.
  intros c.
  destruct (inventory_failure_gives_no_images Sample.repr c (λ _ _, Sample.timed_out)
              ["default"; "broken"] "broken" OSError) as (_ & _ & H).
  apply H; [reflexivity | given_strings | | reflexivity].
  unfold Inventory.system_namespaces. given_strings.
Defined.

Lemma inventory_lists_running_images_witness :
  let c := Sample.cluster None ["default"; "kube-system"] in
  ∃ l, Inventory.get_images_from_cluster c = ([PrometheusExporter.Log Info], Ok l)
       ∧ NoDup l
       ∧ (("web:3", "default") ∈ l) ∧ (("init:1", "default") ∈ l)
       ∧ (("dns:1", "kube-system") ∉ l).
Proof.
  intros c.
  destruct (inventory_lists_running_images c ["default"; "kube-system"] eq_refl)
    as (l & Hget & Hnd & Hl).
  - intros ns Hns Hsys. apply elem_of_cons in Hns as [->|Hns]; [by eexists|].
    apply list_elem_of_singleton in Hns as ->. by eexists.
  - exists l. split; [done|]. split; [done|].
    split; [|split].
    + apply Hl. split; [given_strings|]. split.
      * unfold Inventory.system_namespaces. given_strings.
      * eexists _, _. split; [reflexivity|]. split; [by left|].
        unfold pod_images. simpl. given_strings.
    + apply Hl. split; [given_strings|]. split.
      * unfold Inventory.system_namespaces. given_strings.
      * eexists _, _. split; [reflexivity|]. split; [by left|].
        unfold pod_images. simpl. given_strings.
    + intros Hin. apply Hl in Hin as (_ & Hsys & _). apply Hsys.
      unfold Inventory.system_namespaces. given_strings.
Defined.

Lemma inventory_respects_filter_witness :
  Inventory.get_images_from_cluster (Sample.cluster (Some "kube-system") []) =
    ([PrometheusExporter.Log Info], Ok [])
  ∧ ∀ l image ns,
      outcome (Inventory.get_images_from_cluster (Sample.cluster (Some "default") [])) = Ok l →
      (image, ns) ∈ l → ns = "default".
Proof.
  split.
  - destruct (inventory_respects_filter (Sample.cluster (Some "kube-system") []) [] "" ""
                "kube-system") as [_ H].
    apply H; [reflexivity|]. unfold Inventory.system_namespaces. given_strings.
  - intros l image ns Hl Hin.
    destruct (inventory_respects_filter (Sample.cluster (Some "default") []) l image ns
                "default") as [H _].
    destruct (H Hl Hin) as (_ & Hf & _). by apply Hf.
Defined.

(** ** What the parser reads and what it rejects *)

Section ParserReads.
Import Exporter.

Lemma parse_vulnerabilities_reads img vs acc :
  forallb is_object vs = true →
  parse_vulnerabilities img vs acc =
  ([], Ok (acc ++ omap (λ v, match v with
                             | JObj vm => Some (finding_record img vm)
                             | _ => None
                             end) vs)).
Proof.
  revert acc. induction vs as [|v vs IH]; intros acc Hvs.
  - simpl. by rewrite app_nil_r.
  - apply andb_prop in Hvs as [Hv Hvs]. destruct v as [| | | | |vm]; try done.
    rewrite parse_vulnerabilities_cons, parse_vulnerability_object, pure_bind.
    rewrite (IH _ Hvs). simpl omap. by rewrite <- app_assoc.
Qed.

Lemma parse_results_reads img rs acc :
  forallb result_shaped rs = true →
  parse_results img rs acc = ([], Ok (acc ++ flat_map (findings_of img) rs)).
Proof.
  revert acc. induction rs as [|r rs IH]; intros acc Hrs.
  - simpl. by rewrite app_nil_r.
  - apply andb_prop in Hrs as [Hr Hrs]. destruct r as [| | | | |m]; try done.
    rewrite parse_results_cons.
    change (py_get (JObj m) "Vulnerabilities" (JArr []))
      with (Ok (field m "Vulnerabilities" (JArr []))).
    rewrite lift_bind_ok. simpl in Hr. simpl flat_map. unfold findings_of at 1.
    unfold findings_shaped in Hr.
    destruct (truthy (field m "Vulnerabilities" (JArr []))) eqn:Ht; simpl in Hr.
    + destruct (field m "Vulnerabilities" (JArr [])) as [| | | |vs|]; try done.
      change (py_iter (JArr vs)) with (Ok vs). rewrite lift_bind_ok.
      rewrite (parse_vulnerabilities_reads _ _ _ Hr), pure_bind, (IH _ Hrs).
      by rewrite <- app_assoc.
    + change (py_iter (JArr [])) with (Ok (@nil json)). rewrite lift_bind_ok.
      change (parse_vulnerabilities img [] acc) with (([], Ok acc) : eff call _).
      rewrite pure_bind, (IH _ Hrs).
      destruct (field m "Vulnerabilities" (JArr [])) as [| | | |vs|]; try done.
      by destruct vs.
Qed.

Lemma parse_report_reads (members : list (string * json)) (rs : list json) :
  field members "Results" (JArr []) = JArr rs →
  forallb result_shaped rs = true →
  parse_trivy_report (Loads (JObj members)) =
  ([], Ok (Some {| image := field members "ArtifactName" (JStr "unknown");
                   scan_time := field members "CreatedAt" (JStr "");
                   vulnerabilities :=
                     flat_map (findings_of (field members "ArtifactName" (JStr "unknown")))
                       rs |})).
Proof.
  intros Hres Hrs. unfold parse_trivy_report, parse_body.
  change (load (Loads (JObj members))) with (Ok (JObj members)).
  rewrite lift_bind_ok.
  change (py_get (JObj members) "ArtifactName" (JStr "unknown"))
    with (Ok (field members "ArtifactName" (JStr "unknown"))).
  change (py_get (JObj members) "CreatedAt" (JStr ""))
    with (Ok (field members "CreatedAt" (JStr ""))).
  change (py_get (JObj members) "Results" (JArr []))
    with (Ok (field members "Results" (JArr []))).
  rewrite !lift_bind_ok, Hres.
  change (py_iter (JArr rs)) with (Ok rs). rewrite lift_bind_ok.
  rewrite (parse_results_reads _ _ _ Hrs). by rewrite !pure_bind.
Qed.

(** X4: a document of the shape Trivy writes parses to the report that
    carries its artifact name and creation time (or their defaults) and
    one finding for every object listed under "Vulnerabilities" in every
    result, in the order of the document, each with the artifact name of
    the report. *)
Theorem parse_reads_every_finding (members : list (string * json)) (rs : list json) :
  field members "Results" (JArr []) = JArr rs →
  forallb result_shaped rs = true →
  let img := field members "ArtifactName" (JStr "unknown") in
  parse_trivy_report (Loads (JObj members)) =
  ([], Ok (Some {| image := img;
                   scan_time := field members "CreatedAt" (JStr "");
                   vulnerabilities := flat_map (findings_of img) rs |})).
Proof.
  intros Hres Hrs img. subst img. unfold parse_trivy_report, parse_body.
  change (load (Loads (JObj members))) with (Ok (JObj members)).
  rewrite lift_bind_ok.
  change (py_get (JObj members) "ArtifactName" (JStr "unknown"))
    with (Ok (field members "ArtifactName" (JStr "unknown"))).
  change (py_get (JObj members) "CreatedAt" (JStr ""))
    with (Ok (field members "CreatedAt" (JStr ""))).
  change (py_get (JObj members) "Results" (JArr []))
    with (Ok (field members "Results" (JArr []))).
  rewrite !lift_bind_ok, Hres.
  change (py_iter (JArr rs)) with (Ok rs). rewrite lift_bind_ok.
  rewrite (parse_results_reads _ _ _ Hrs). by rewrite !pure_bind.
Qed.

Lemma parse_vulnerabilities_rejects img vs acc :
  forallb is_object vs = false →
  ∃ e, outcome (parse_vulnerabilities img vs acc) = Raise e.
Proof.
  revert acc. induction vs as [|v vs IH]; intros acc Hvs; [done|].
  rewrite parse_vulnerabilities_cons, outcome_bind.
  destruct v as [| | | | |vm]; try (eexists; reflexivity).
  rewrite parse_vulnerability_object. simpl in Hvs. apply IH, Hvs.
Qed.

Lemma chars_strings s : s ≠ "" → forallb is_object (chars s) = false.
Proof. by destruct s. Qed.

Lemma dict_keys_strings m : m ≠ [] → forallb is_object (JStr <$> dict_keys [] m) = false.
Proof.
  destruct m as [|[k v] m]; [done|]. intros _. reflexivity.
Qed.

Lemma parse_results_rejects img rs acc :
  forallb result_shaped rs = false →
  ∃ e, outcome (parse_results img rs acc) = Raise e.
Proof.
  revert acc. induction rs as [|r rs IH]; intros acc Hrs; [done|].
  rewrite parse_results_cons. simpl in Hrs.
  destruct (result_shaped r) eqn:Hr.
  - destruct r as [| | | | |m]; try done.
    change (py_get (JObj m) "Vulnerabilities" (JArr []))
      with (Ok (field m "Vulnerabilities" (JArr []))).
    rewrite lift_bind_ok.
    destruct (findings_shaped_iter _ Hr) as (vs & -> & Hvs). rewrite lift_bind_ok.
    destruct (parse_vulnerabilities_objects img vs Hvs acc) as (f1 & _ & ->).
    rewrite pure_bind. apply IH, Hrs.
  - clear Hrs IH. destruct r as [| | | | |m]; try (eexists; reflexivity).
    change (py_get (JObj m) "Vulnerabilities" (JArr []))
      with (Ok (field m "Vulnerabilities" (JArr []))).
    rewrite lift_bind_ok. simpl in Hr. unfold findings_shaped in Hr.
    destruct (truthy (field m "Vulnerabilities" (JArr []))) eqn:Ht; [|done].
    simpl in Hr.
    destruct (field m "Vulnerabilities" (JArr [])) as [|b|n|s|vs|fm]; try (eexists; reflexivity).
    + change (py_iter (JStr s)) with (Ok (chars s)).
      rewrite lift_bind_ok, outcome_bind.
      destruct (parse_vulnerabilities_rejects img (chars s) acc) as [e ->]; [|eexists; reflexivity].
      apply chars_strings. by destruct s.
    + change (py_iter (JArr vs)) with (Ok vs).
      rewrite lift_bind_ok, outcome_bind.
      destruct (parse_vulnerabilities_rejects img vs acc Hr) as [e ->]. eexists; reflexivity.
    + change (py_iter (JObj fm)) with (Ok (JStr <$> dict_keys [] fm)).
      rewrite lift_bind_ok, outcome_bind.
      destruct (parse_vulnerabilities_rejects img (JStr <$> dict_keys [] fm) acc) as [e ->];
        [|eexists; reflexivity].
      apply dict_keys_strings. by destruct fm.
Qed.

(** X5: [parse_trivy_report] makes a report of a decoded document exactly
    when the document is an object whose "Results" can be iterated and
    yields only objects whose "Vulnerabilities" is empty, [null] or a list
    of objects; every other document gives [None], so that one finding
    that is not an object loses the whole report. *)
Theorem parse_returns_report_iff_readable (d : json) :
  ((∃ r, outcome (parse_trivy_report (Loads d)) = Ok (Some r)) ↔ readable d = true)
  ∧ (readable d = false → outcome (parse_trivy_report (Loads d)) = Ok None).
Proof.
  assert (readable d = false → outcome (parse_trivy_report (Loads d)) = Ok None) as Hno.
  { intros Hd. unfold parse_trivy_report. rewrite outcome_try_except, outcome_bind.
    assert (∃ e, outcome (parse_body (Loads d)) = Raise e) as [e ->]; [|done].
    unfold parse_body.
    destruct d as [| | | | |m]; try (eexists; reflexivity).
    change (load (Loads (JObj m))) with (Ok (JObj m)). rewrite lift_bind_ok.
    change (py_get (JObj m) "ArtifactName" (JStr "unknown"))
      with (Ok (field m "ArtifactName" (JStr "unknown"))).
    change (py_get (JObj m) "CreatedAt" (JStr ""))
      with (Ok (field m "CreatedAt" (JStr ""))).
    change (py_get (JObj m) "Results" (JArr []))
      with (Ok (field m "Results" (JArr []))).
    rewrite !lift_bind_ok. simpl in Hd.
    destruct (py_iter (field m "Results" (JArr []))) as [items|e]; [|eexists; reflexivity].
    rewrite lift_bind_ok, outcome_bind.
    destruct (parse_results_rejects (field m "ArtifactName" (JStr "unknown")) items [] Hd)
      as [e ->]. eexists; reflexivity. }
  split; [|done]. split.
  - intros [r Hr]. destruct (readable d) eqn:Hd; [done|]. by rewrite Hno in Hr.
  - intros Hd. destruct d as [| | | | |m]; try done. simpl in Hd.
    destruct (py_iter (field m "Results" (JArr []))) as [items|e] eqn:Hi; [|done].
    unfold parse_trivy_report, parse_body.
    change (load (Loads (JObj m))) with (Ok (JObj m)).
    rewrite lift_bind_ok.
    change (py_get (JObj m) "ArtifactName" (JStr "unknown"))
      with (Ok (field m "ArtifactName" (JStr "unknown"))).
    change (py_get (JObj m) "CreatedAt" (JStr ""))
      with (Ok (field m "CreatedAt" (JStr ""))).
    change (py_get (JObj m) "Results" (JArr []))
      with (Ok (field m "Results" (JArr []))).
    rewrite !lift_bind_ok, Hi, lift_bind_ok.
    destruct (parse_results_shaped (field m "ArtifactName" (JStr "unknown")) items Hd [])
      as (found & ->).
    rewrite !pure_bind. by eexists.
Qed.
End ParserReads.

Lemma parse_reads_every_finding_witness :
  Exporter.parse_trivy_report
    (Loads (Sample.document "app:1.0"
              [Sample.finding "CVE-1" "libfoo" "HIGH"; Sample.finding "CVE-2" "libbar" "LOW"])) =
  ([], Ok (Some {|
     Exporter.image := JStr "app:1.0";
     Exporter.scan_time := JStr "";
     Exporter.vulnerabilities :=
       [finding_record (JStr "app:1.0")
          [("VulnerabilityID", JStr "CVE-1"); ("PkgName", JStr "libfoo");
           ("Severity", JStr "HIGH")];
        finding_record (JStr "app:1.0")
          [("VulnerabilityID", JStr "CVE-2"); ("PkgName", JStr "libbar");
           ("Severity", JStr "LOW")]] |})).
Proof.
  exact (parse_reads_every_finding
           [("ArtifactName", JStr "app:1.0");
            ("Results",
             JArr [JObj [("Target", JStr "app:1.0");
                         ("Vulnerabilities",
                          JArr [Sample.finding "CVE-1" "libfoo" "HIGH";
                                Sample.finding "CVE-2" "libbar" "LOW"])]])]
           [JObj [("Target", JStr "app:1.0");
                  ("Vulnerabilities",
                   JArr [Sample.finding "CVE-1" "libfoo" "HIGH";
                         Sample.finding "CVE-2" "libbar" "LOW"])]]
           eq_refl eq_refl).
Defined.

Lemma parse_returns_report_iff_readable_witness :
  let bad := JObj [("ArtifactName", JStr "app:1.0");
                   ("Results", JArr [JObj [("Vulnerabilities",
                      JArr [Sample.finding "CVE-1" "libfoo" "HIGH"; JStr "CVE-2"])]])] in
  readable bad = false
  ∧ outcome (Exporter.parse_trivy_report (Loads bad)) = Ok None
  ∧ ∃ r, outcome (Exporter.parse_trivy_report (Loads (JObj [("Results", JStr "")]))) =
         Ok (Some r).
Proof.
  intros bad. split; [reflexivity|]. split.
  - destruct (parse_returns_report_iff_readable bad) as [_ H]. by apply H.
  - destruct (parse_returns_report_iff_readable (JObj [("Results", JStr "")])) as [[_ H] _].
    by apply H.
Defined.

(** ** Missing fields *)

Section Defaults.
Variable repr_container : json → string.

Abbreviation text := (py_str repr_container).

(** C9 (as amended): [parse_trivy_report] returns a report or [None] on
    every input and never raises; input that does not decode gives [None];
    a document of the shape Trivy writes parses whichever members are
    left out: the artifact name defaults to "unknown", the creation time
    to the empty string, a missing "Results" and a missing
    "Vulnerabilities" to the empty list, and the report holds one finding
    for every object listed, with the severity defaulting to "UNKNOWN"
    and the other fields of the finding to the empty string.  In
    [process_scan_results] a finding that is an object is published with
    the severity defaulting to "UNKNOWN" and its other fields to "N/A". *)
Theorem parse_defaults_missing_fields
    (file : loaded) (e : exn) (members : list (string * json)) (rs : list json)
    (result finding : list (string * json)) (img : json)
    (image namespace : string) (rest : list json) (n : Z) :
  (outcome (Exporter.parse_trivy_report file) = Ok None ∨
   ∃ r, outcome (Exporter.parse_trivy_report file) = Ok (Some r))
  ∧ Exporter.parse_trivy_report (LoadFails e) = ([Exporter.Log Error], Ok None)
  ∧ (field members "Results" (JArr []) = JArr rs →
     forallb result_shaped rs = true →
     Exporter.parse_trivy_report (Loads (JObj members)) =
     ([], Ok (Some {|
        Exporter.image := field members "ArtifactName" (JStr "unknown");
        Exporter.scan_time := field members "CreatedAt" (JStr "");
        Exporter.vulnerabilities :=
          flat_map (findings_of (field members "ArtifactName" (JStr "unknown"))) rs |})))
  ∧ (dict_lookup "Results" members = None →
     Exporter.parse_trivy_report (Loads (JObj members)) =
     ([], Ok (Some {|
        Exporter.image := field members "ArtifactName" (JStr "unknown");
        Exporter.scan_time := field members "CreatedAt" (JStr "");
        Exporter.vulnerabilities := [] |})))
  ∧ (dict_lookup "Vulnerabilities" result = None → findings_of img (JObj result) = [])
  ∧ findings_of img (JObj [("Vulnerabilities", JArr [JObj finding])]) =
    [{| Exporter.vuln_image := img;
        Exporter.vulnerability_id := field finding "VulnerabilityID" (JStr "");
        Exporter.package := field finding "PkgName" (JStr "");
        Exporter.installed_version := field finding "InstalledVersion" (JStr "");
        Exporter.fixed_version := field finding "FixedVersion" (JStr "");
        Exporter.severity := field finding "Severity" (JStr "UNKNOWN");
        Exporter.title := field finding "Title" (JStr "") |}]
  ∧ Exporter.parse_vulnerability img (JObj members) =
    ([], Ok {|
       Exporter.vuln_image := img;
       Exporter.vulnerability_id := field members "VulnerabilityID" (JStr "");
       Exporter.package := field members "PkgName" (JStr "");
       Exporter.installed_version := field members "InstalledVersion" (JStr "");
       Exporter.fixed_version := field members "FixedVersion" (JStr "");
       Exporter.severity := field members "Severity" (JStr "UNKNOWN");
       Exporter.title := field members "Title" (JStr "") |})
  ∧ PrometheusExporter.process_vulnerabilities repr_container image namespace
      (JObj members :: rest) n =
    (let labels := (image,
                    text (field members "Severity" (JStr "UNKNOWN")),
                    namespace,
                    text (field members "VulnerabilityID" (JStr "N/A")),
                    text (field members "PkgName" (JStr "N/A")),
                     text (field members "InstalledVersion" (JStr "N/A")),
                    text (field members "FixedVersion" (JStr "N/A"))) in
     emit (PrometheusExporter.VulnerabilityGauge (Gauge.Labels labels));;
     emit (PrometheusExporter.VulnerabilityGauge (Gauge.SetChild labels 1));;
     PrometheusExporter.process_vulnerabilities repr_container image namespace rest (n + 1)%Z).
Proof.
  split; [apply parse_trivy_report_never_raises|].
  split; [apply parse_trivy_report_undecodable|].
  split; [apply parse_report_reads|].
  split.
  { intros Hnone.
    apply (parse_report_reads members []); [|done]. unfold field. by rewrite Hnone. }
  split; [intros Hnone; unfold findings_of, field; by rewrite Hnone|].
  split; [reflexivity|].
  split; [apply parse_vulnerability_object|].
  change (PrometheusExporter.process_vulnerabilities repr_container image namespace
            (JObj members :: rest) n)
    with (severity ← lift (py_get (JObj members) "Severity" (JStr "UNKNOWN"));
          vuln_id ← lift (py_get (JObj members) "VulnerabilityID" (JStr "N/A"));
          pkg_name ← lift (py_get (JObj members) "PkgName" (JStr "N/A"));
          installed_ver ← lift (py_get (JObj members) "InstalledVersion" (JStr "N/A"));
          fixed_ver ← lift (py_get (JObj members) "FixedVersion" (JStr "N/A"));
          let labels := (image, text severity, namespace, text vuln_id, text pkg_name,
                         text installed_ver, text fixed_ver) in
          emit (PrometheusExporter.VulnerabilityGauge (Gauge.Labels labels));;
          emit (PrometheusExporter.VulnerabilityGauge (Gauge.SetChild labels 1));;
          PrometheusExporter.process_vulnerabilities repr_container image namespace rest
            (n + 1)%Z).
  unfold py_get. by rewrite !lift_bind_ok.
Qed.
End Defaults.

Lemma parse_defaults_missing_fields_witness :
  let finding := [("VulnerabilityID", JStr "CVE-1")] in
  let rs := [JObj [("Target", JStr "app:1.0")];
             JObj [("Vulnerabilities", JArr [JObj finding])]] in
  field [("Results", JArr rs)] "Results" (JArr []) = JArr rs
  ∧ forallb result_shaped rs = true
  ∧ Exporter.parse_trivy_report (Loads (JObj [("Results", JArr rs)])) =
    ([], Ok (Some {|
       Exporter.image := JStr "unknown";
       Exporter.scan_time := JStr "";
       Exporter.vulnerabilities :=
         [{| Exporter.vuln_image := JStr "unknown";
             Exporter.vulnerability_id := JStr "CVE-1";
             Exporter.package := JStr "";
             Exporter.installed_version := JStr "";
             Exporter.fixed_version := JStr "";
             Exporter.severity := JStr "UNKNOWN";
             Exporter.title := JStr "" |}] |})).
Proof.
  intros finding rs.
  pose proof (parse_defaults_missing_fields Sample.repr (LoadFails JSONDecodeError)
                JSONDecodeError [("Results", JArr rs)] rs [] finding JNull "" "" [] 0)
    as (_ & _ & Hshaped & _).
  split; [reflexivity|]. split; [reflexivity|].
  exact (Hshaped eq_refl eq_refl).
Defined.

(** C9 (as stated) fails: not every missing string field defaults to the
    empty string.  The empty document parses with the image "unknown", and
    [process_scan_results] publishes a finding that has no member under
    "N/A" for its identifier, package and versions. *)
Lemma missing_fields_do_not_all_default_to_empty :
  outcome (Exporter.parse_trivy_report (Loads (JObj []))) =
    Ok (Some {| Exporter.image := JStr "unknown";
                Exporter.scan_time := JStr "";
                Exporter.vulnerabilities := [] |})
  ∧ JStr "unknown" ≠ JStr ""
  ∧ calls (PrometheusExporter.process_scan_results Sample.repr "app:1.0" "default"
             (JObj [("Results", JArr [JObj [("Vulnerabilities", JArr [JObj []])]])])) =
    [PrometheusExporter.VulnerabilityGauge
       (Gauge.Labels ("app:1.0", "UNKNOWN", "default", "N/A", "N/A", "N/A", "N/A"));
     PrometheusExporter.VulnerabilityGauge
       (Gauge.SetChild ("app:1.0", "UNKNOWN", "default", "N/A", "N/A", "N/A", "N/A") 1);
     PrometheusExporter.Log Info].
Proof. split; [reflexivity|]. split; [discriminate|]. vm_compute. reflexivity. Qed.

(** ** The two report parsers *)

Section ParserAgreement.

Lemma dashboard_parse_vulnerabilities_cons img tgt v vs acc :
  Dashboard.parse_vulnerabilities img tgt (v :: vs) acc =
  (x ← Dashboard.parse_vulnerability img tgt v;
   Dashboard.parse_vulnerabilities img tgt vs (acc ++ [x])).
Proof. reflexivity. Qed.

Lemma dashboard_parse_results_cons img r rs acc :
  Dashboard.parse_results img (r :: rs) acc =
  (target ← lift (py_get r "Target" (JStr ""));
   vs ← lift (py_get r "Vulnerabilities" (JArr []));
   vulns ← lift (py_iter vs);
   acc ← Dashboard.parse_vulnerabilities img target vulns acc;
   Dashboard.parse_results img rs acc).
Proof. reflexivity. Qed.

Lemma parse_vulnerabilities_agree img tgt vs acc res :
  outcome (Dashboard.parse_vulnerabilities img tgt vs acc) = Ok res →
  outcome (Exporter.parse_vulnerabilities img vs (forget_target <$> acc)) =
  Ok (forget_target <$> res).
Proof.
  revert acc. induction vs as [|v vs IH]; intros acc Hd.
  - injection Hd as <-. done.
  - rewrite dashboard_parse_vulnerabilities_cons, outcome_bind in Hd.
    rewrite parse_vulnerabilities_cons, outcome_bind.
    destruct v as [| | | | |vm]; try done.
    change (outcome (Dashboard.parse_vulnerability img tgt (JObj vm))) with
      (Ok {| Dashboard.vuln_image := img; Dashboard.target := tgt;
             Dashboard.vulnerability_id := field vm "VulnerabilityID" (JStr "");
             Dashboard.package := field vm "PkgName" (JStr "");
             Dashboard.installed_version := field vm "InstalledVersion" (JStr "");
             Dashboard.fixed_version := field vm "FixedVersion" (JStr "");
             Dashboard.severity := field vm "Severity" (JStr "UNKNOWN");
             Dashboard.title := field vm "Title" (JStr "") |}) in Hd.
    rewrite parse_vulnerability_object.
    change (outcome ([], Ok ?x)) with (Ok x).
    specialize (IH _ Hd). by rewrite fmap_app in IH.
Qed.

Lemma iterated_as_it_is vs items :
  py_iter vs = Ok items → py_iter (if truthy vs then vs else JArr []) = Ok items.
Proof.
  destruct vs as [| | |s|l|m]; try done.
  - destruct s; [|done]. simpl. by intros [= <-].
  - destruct l; [|done]. simpl. by intros [= <-].
  - destruct m; [|done]. simpl. by intros [= <-].
Qed.

Lemma parse_results_agree img rs acc res :
  outcome (Dashboard.parse_results img rs acc) = Ok res →
  outcome (Exporter.parse_results img rs (forget_target <$> acc)) =
  Ok (forget_target <$> res).
Proof.
  revert acc. induction rs as [|r rs IH]; intros acc Hd.
  - injection Hd as <-. done.
  - rewrite dashboard_parse_results_cons in Hd. rewrite parse_results_cons.
    destruct r as [| | | | |m]; try done.
    change (py_get (JObj m) "Target" (JStr "")) with (Ok (field m "Target" (JStr ""))) in Hd.
    change (py_get (JObj m) "Vulnerabilities" (JArr []))
      with (Ok (field m "Vulnerabilities" (JArr []))) in Hd |- *.
    rewrite !lift_bind_ok in Hd. rewrite lift_bind_ok.
    destruct (py_iter (field m "Vulnerabilities" (JArr []))) as [items|e] eqn:Hi; [|done].
    rewrite (iterated_as_it_is _ _ Hi). rewrite lift_bind_ok, outcome_bind in Hd.
    rewrite lift_bind_ok, outcome_bind.
    destruct (outcome (Dashboard.parse_vulnerabilities img (field m "Target" (JStr ""))
                         items acc)) as [acc'|e] eqn:Hv; [|done].
    rewrite (parse_vulnerabilities_agree _ _ _ _ _ Hv). by apply IH.
Qed.

(** X6: every report file that the parser of dashboard/trivy_exporter.py
    reads is read by the parser of trivy-exporter.py as the same report:
    the same artifact name and creation time and the same findings in the
    same order, the target apart. *)
Theorem exporter_parses_what_dashboard_parses (file : loaded) (r : Dashboard.report) :
  outcome (Dashboard.parse_trivy_report file) = Ok (Some r) →
  outcome (Exporter.parse_trivy_report file) = Ok (Some (as_exporter_report r)).
Proof.
  unfold Dashboard.parse_trivy_report, Exporter.parse_trivy_report.
  rewrite !outcome_try_except, !outcome_bind. intros Hd.
  destruct (outcome (Dashboard.parse_body file)) as [r'|e] eqn:Hbody; [|done].
  injection Hd as <-.
  assert (outcome (Exporter.parse_body file) = Ok (as_exporter_report r')) as ->; [|done].
  unfold Dashboard.parse_body in Hbody. unfold Exporter.parse_body.
  destruct file as [e|d]; [done|].
  change (load (Loads d)) with (Ok d) in Hbody |- *.
  rewrite lift_bind_ok in Hbody. rewrite lift_bind_ok.
  destruct d as [| | | | |m]; try done.
  change (py_get (JObj m) "ArtifactName" (JStr "unknown"))
    with (Ok (field m "ArtifactName" (JStr "unknown"))) in Hbody |- *.
  change (py_get (JObj m) "CreatedAt" (JStr ""))
    with (Ok (field m "CreatedAt" (JStr ""))) in Hbody |- *.
  change (py_get (JObj m) "Results" (JArr []))
    with (Ok (field m "Results" (JArr []))) in Hbody |- *.
  rewrite !lift_bind_ok in Hbody. rewrite !lift_bind_ok.
  destruct (py_iter (field m "Results" (JArr []))) as [items|e]; [|done].
  rewrite lift_bind_ok, outcome_bind in Hbody. rewrite lift_bind_ok, outcome_bind.
  destruct (outcome (Dashboard.parse_results (field m "ArtifactName" (JStr "unknown"))
                       items [])) as [found|e] eqn:Hres; [|done].
  pose proof (parse_results_agree _ _ [] _ Hres) as Hx.
  change (forget_target <$> []) with (@nil Exporter.vulnerability) in Hx.
  rewrite Hx. by injection Hbody as <-.
Qed.
End ParserAgreement.

Lemma exporter_parses_what_dashboard_parses_witness :
  let file := Loads (Sample.document "app:1.0" [Sample.finding "CVE-1" "libfoo" "HIGH"]) in
  ∃ r, outcome (Dashboard.parse_trivy_report file) = Ok (Some r)
       ∧ outcome (Exporter.parse_trivy_report file) = Ok (Some (as_exporter_report r))
       ∧ length (Dashboard.vulnerabilities r) = 1.
Proof.
  intros file. eexists. split; [reflexivity|]. split; [|reflexivity].
  by apply exporter_parses_what_dashboard_parses.
Defined.

(** ** Repeating a cycle *)

Section GaugeRuns.
Context `{Countable K}.
Implicit Types (g : gmap K Z) (cs : list (Gauge.call K)).

Lemma gauge_apply_child c g k : Gauge.apply c g !! k = child_step c k (g !! k).
Proof.
  destruct c as [|k'|k' v]; simpl.
  - apply lookup_empty.
  - destruct (decide (k' = k)) as [->|Hne].
    + by destruct (g !! k) eqn:Hk; rewrite ?Hk, ?lookup_insert_eq.
    + destruct (g !! k'); [done|]. by rewrite lookup_insert_ne.
  - destruct (decide (k' = k)) as [->|Hne];
      [apply lookup_insert_eq | by apply lookup_insert_ne].
Qed.

Lemma gauge_run_child cs g k :
  foldl (λ g c, Gauge.apply c g) g cs !! k =
  foldl (λ o c, child_step c k o) (g !! k) cs.
Proof.
  revert g. induction cs as [|c cs IH]; intros g; [done|].
  simpl. by rewrite IH, gauge_apply_child.
Qed.

(** What a run of calls does to one child is to leave it, to give it a
    fixed value (or remove it), or to create it at 0 when it is missing. *)
Lemma child_run_shape cs k :
  (∀ o, foldl (λ o c, child_step c k o) o cs = o)
  ∨ (∃ r, ∀ o, foldl (λ o c, child_step c k o) o cs = r)
  ∨ (∀ o, foldl (λ o c, child_step c k o) o cs = Some (default 0%Z o)).
Proof.
  induction cs as [|c cs IH]; [by left|]. simpl.
  destruct IH as [Hid|[[r Hr]|Hl]].
  - destruct c as [|k'|k' v]; simpl.
    + right. left. exists None. intros o. apply Hid.
    + destruct (decide (k' = k)); [|by left].
      right. right. intros o. apply Hid.
    + destruct (decide (k' = k)); [|by left].
      right. left. exists (Some v). intros o. apply Hid.
  - right. left. exists r. intros o. apply Hr.
  - destruct c as [|k'|k' v]; simpl.
    + right. left. exists (Some 0%Z). intros o. apply Hl.
    + destruct (decide (k' = k)); [|by (right; right)].
      right. right. intros o. by rewrite Hl.
    + destruct (decide (k' = k)); [|by (right; right)].
      right. left. exists (Some v). intros o. by rewrite Hl.
Qed.

Lemma gauge_run_twice cs g :
  foldl (λ g c, Gauge.apply c g) (foldl (λ g c, Gauge.apply c g) g cs) cs =
  foldl (λ g c, Gauge.apply c g) g cs.
Proof.
  apply map_eq. intros k. rewrite !gauge_run_child.
  destruct (child_run_shape cs k) as [Hid|[[r Hr]|Hl]].
  - by rewrite !Hid.
  - by rewrite !Hr.
  - by rewrite !Hl.
Qed.
End GaugeRuns.

Section Repeating.
Import Exporter.
Variable repr_container : json → string.
Variable iso_timestamp : string → option (result Z).

Lemma exec_on_vulnerabilities cs s :
  trivy_image_vulnerabilities (exec cs s) =
  foldl (λ g c, Gauge.apply c g) (trivy_image_vulnerabilities s) (on_vulnerabilities cs).
Proof.
  revert s. induction cs as [|c cs IH]; intros s; [done|].
  rewrite exec_cons, IH. by destruct c.
Qed.

Lemma exec_on_last_scan cs s :
  trivy_last_scan_timestamp (exec cs s) =
  foldl (λ g c, Gauge.apply c g) (trivy_last_scan_timestamp s) (on_last_scan cs).
Proof.
  revert s. induction cs as [|c cs IH]; intros s; [done|].
  rewrite exec_cons, IH. by destruct c.
Qed.

Lemma exec_on_vulnerability_info cs s :
  trivy_vulnerability_info (exec cs s) =
  foldl (λ g c, Gauge.apply c g) (trivy_vulnerability_info s) (on_vulnerability_info cs).
Proof.
  revert s. induction cs as [|c cs IH]; intros s; [done|].
  rewrite exec_cons, IH. by destruct c.
Qed.

Lemma exec_images_scanned_twice cs s :
  trivy_images_scanned (exec cs (exec cs s)) = trivy_images_scanned (exec cs s).
Proof.
  assert ((∀ s, trivy_images_scanned (exec cs s) = trivy_images_scanned s)
          ∨ ∃ n, ∀ s, trivy_images_scanned (exec cs s) = n) as [Hid|[n Hn]].
  { induction cs as [|c cs IH]; [by left|].
    destruct IH as [Hid|[n Hn]].
    - destruct c as [g|g|g|n0| |l|n0];
        try (left; intros s'; rewrite exec_cons, Hid; done).
      right. exists n0. intros s'. by rewrite exec_cons, Hid.
    - right. exists n. intros s'. by rewrite exec_cons, Hn. }
  - by rewrite !Hid.
  - by rewrite !Hn.
Qed.

Lemma exec_ready_twice cs s : _ready (exec cs (exec cs s)) = _ready (exec cs s).
Proof.
  destruct (_ready (exec cs s)) eqn:Hr; [by apply ready_stays|].
  assert (∀ cs s, _ready (exec cs s) = false → _ready s = false) as Hback.
  { clear. intros cs s Hr. destruct (_ready s) eqn:Hs; [|done].
    by rewrite ready_stays in Hr. }
  assert (∀ cs s1 s2, _ready s1 = _ready s2 → _ready (exec cs s1) = _ready (exec cs s2))
    as Hsame.
  { clear. induction cs as [|c cs IH]; intros s1 s2 Hs; [done|].
    rewrite !exec_cons. apply IH. by destruct c. }
  rewrite (Hsame cs (exec cs s) s), Hr; [done|]. rewrite Hr. symmetry. by eapply Hback.
Qed.

Lemma exec_twice cs s : exec cs (exec cs s) = exec cs s.
Proof.
  assert (trivy_image_vulnerabilities (exec cs (exec cs s)) =
          trivy_image_vulnerabilities (exec cs s)) as Hv.
  { rewrite (exec_on_vulnerabilities cs (exec cs s)), (exec_on_vulnerabilities cs s).
    apply gauge_run_twice. }
  assert (trivy_last_scan_timestamp (exec cs (exec cs s)) =
          trivy_last_scan_timestamp (exec cs s)) as Ht.
  { rewrite (exec_on_last_scan cs (exec cs s)), (exec_on_last_scan cs s).
    apply gauge_run_twice. }
  assert (trivy_vulnerability_info (exec cs (exec cs s)) =
          trivy_vulnerability_info (exec cs s)) as Hi.
  { rewrite (exec_on_vulnerability_info cs (exec cs s)), (exec_on_vulnerability_info cs s).
    apply gauge_run_twice. }
  pose proof (exec_images_scanned_twice cs s) as Hn.
  pose proof (exec_ready_twice cs s) as Hr.
  destruct (exec cs (exec cs s)), (exec cs s). simpl in *. congruence.
Qed.

(** X7: running [update_metrics] again over an unchanged directory, from
    the state the first run left, leaves that state as it is: every family,
    the number of images and the readiness event.  The same holds for a
    whole turn of the loop. *)
Theorem cycle_is_idempotent (interval : Z) (d : reports_dir) (s : state) :
  let once := exec (calls (update_metrics repr_container iso_timestamp d)) s in
  let turn := exec (calls (main_cycle repr_container iso_timestamp interval d)) s in
  exec (calls (update_metrics repr_container iso_timestamp d)) once = once
  ∧ exec (calls (main_cycle repr_container iso_timestamp interval d)) turn = turn.
Proof. split; apply exec_twice. Qed.
End Repeating.

(** ** What a cycle of trivy-exporter.py leaves alone *)

Section Leftovers.
Import Exporter.
Variable repr_container : json → string.
Variable iso_timestamp : string → option (result Z).
Variable SCAN_INTERVAL : Z.

Lemma gauge_run_dom_mono `{Countable K} (gs : list (Gauge.call K)) (g : gmap K Z) :
  Forall (λ c, keeps_children c = true) gs →
  dom g ⊆ dom (foldl (λ g c, Gauge.apply c g) g gs).
Proof.
  revert g. induction gs as [|c gs IH]; intros g Hgs; [done|].
  inversion_clear Hgs as [|?? Hc Hrest]. simpl.
  etrans; [by apply gauge_apply_dom_mono|]. by apply IH.
Qed.

Lemma publishes_on_last_scan cs :
  Forall publishes cs → Forall (λ c, keeps_children c = true) (on_last_scan cs).
Proof.
  induction 1 as [|c cs Hc _ IH]; [constructor|].
  unfold on_last_scan. simpl. destruct c; try done. by constructor.
Qed.

(** X8: a cycle never removes a last-scan timestamp: an image that had one
    before [update_metrics] has one after it, whether or not a report for
    the image is still in the directory; and a cycle that finds no report
    leaves the timestamps exactly as they were, although it empties the
    count and detail families. *)
Theorem timestamps_outlive_reports
    (d : reports_dir) (s : state) (image : string) (t : Z) :
  let after := exec (calls (update_metrics repr_container iso_timestamp d)) s in
  (trivy_last_scan_timestamp s !! image = Some t →
   ∃ t', trivy_last_scan_timestamp after !! image = Some t')
  ∧ (no_reports d = true →
     trivy_last_scan_timestamp after = trivy_last_scan_timestamp s
     ∧ trivy_image_vulnerabilities after = ∅
     ∧ trivy_vulnerability_info after = ∅).
Proof.
  intros after. subst after. split.
  - intros Ht. apply (elem_of_dom (M := gmap string)).
    rewrite exec_on_last_scan, update_metrics_calls.
    change (on_last_scan (Vulnerabilities Gauge.Clear :: VulnerabilityInfo Gauge.Clear :: ?cs))
      with (on_last_scan cs).
    eapply gauge_run_dom_mono.
    + apply publishes_on_last_scan, read_reports_publishes.
    + apply elem_of_dom. by eexists.
  - intros Hd.
    by destruct (update_metrics_no_reports repr_container iso_timestamp d Hd) as [l ->].
Qed.

Lemma slept_app cs1 cs2 : slept (cs1 ++ cs2) = (slept cs1 + slept cs2)%Z.
Proof.
  induction cs1 as [|c cs1 IH]; [done|]. simpl. rewrite IH. destruct c; lia.
Qed.

Lemma slept_publishes cs : Forall publishes cs → slept cs = 0%Z.
Proof. induction 1 as [|c cs Hc _ IH]; [done|]. simpl. by destruct c. Qed.

Lemma slept_main_cycle d :
  slept (calls (main_cycle repr_container iso_timestamp SCAN_INTERVAL d)) =
  if raised (py_sleep SCAN_INTERVAL) then 0%Z else SCAN_INTERVAL.
Proof.
  rewrite main_cycle_calls, update_metrics_calls, !slept_app.
  change (slept (Vulnerabilities Gauge.Clear :: VulnerabilityInfo Gauge.Clear :: ?cs))
    with (slept cs).
  rewrite slept_publishes by apply read_reports_publishes.
  destruct (raised (outcome _)), (raised (py_sleep _)); simpl; lia.
Qed.

(** X9: when SCAN_INTERVAL is a length that [time.sleep] accepts, the loop
    of [main] never ends by an exception, and in any number of turns it
    sleeps SCAN_INTERVAL seconds per turn and no more: the only sleep is
    the one that ends a turn.  With an interval that [time.sleep] refuses
    (a negative one) the first turn raises out of the loop, and nothing
    is slept. *)
Theorem loop_sleeps_once_per_turn (dirs : list reports_dir) :
  (sleep_accepts SCAN_INTERVAL →
   outcome (main_loop repr_container iso_timestamp SCAN_INTERVAL dirs) = Ok ()
   ∧ slept (calls (main_loop repr_container iso_timestamp SCAN_INTERVAL dirs)) =
     (Z.of_nat (length dirs) * SCAN_INTERVAL)%Z)
  ∧ (¬ sleep_accepts SCAN_INTERVAL → dirs ≠ [] →
     raised (outcome (main_loop repr_container iso_timestamp SCAN_INTERVAL dirs)) = true
     ∧ slept (calls (main_loop repr_container iso_timestamp SCAN_INTERVAL dirs)) = 0%Z).
Proof.
  split.
  - intros Hok. pose proof (py_sleep_accepts _ Hok) as Hsleep.
    induction dirs as [|d dirs [IHo IHs]]; [done|]. split.
    + unfold main_loop in *. by rewrite outcome_for_each_cons, main_cycle_outcome, Hsleep.
    + rewrite main_calls_cons, slept_app, slept_main_cycle, Hsleep. simpl raised. cbv iota.
      rewrite IHs. simpl length. lia.
  - intros Hno Hdirs. pose proof (py_sleep_refuses _ Hno) as Hsleep.
    destruct dirs as [|d dirs]; [done|]. split.
    + unfold main_loop. rewrite outcome_for_each_cons, main_cycle_outcome.
      by destruct (py_sleep SCAN_INTERVAL).
    + rewrite main_calls_cons, slept_app, slept_main_cycle, Hsleep. done.
Qed.
End Leftovers.

Lemma loop_sleeps_once_per_turn_witness :
  let dirs := [Sample.absent; listing [Sample.unhashable]; Sample.unreadable] in
  sleep_accepts 300 ∧ ¬ sleep_accepts (-5)
  ∧ outcome (Exporter.main_loop Sample.repr Sample.clock 300 dirs) = Ok ()
  ∧ slept (calls (Exporter.main_loop Sample.repr Sample.clock 300 dirs)) = 900%Z
  ∧ raised (outcome (Exporter.main_loop Sample.repr Sample.clock (-5) dirs)) = true
  ∧ slept (calls (Exporter.main_loop Sample.repr Sample.clock (-5) dirs)) = 0%Z.
Proof.
  intros dirs.
  assert (sleep_accepts 300) as Hok by (unfold sleep_accepts, sleep_limit; lia).
  assert (¬ sleep_accepts (-5)) as Hno by (unfold sleep_accepts; lia).
  destruct (loop_sleeps_once_per_turn Sample.repr Sample.clock 300 dirs) as [Hyes _].
  destruct (loop_sleeps_once_per_turn Sample.repr Sample.clock (-5) dirs) as [_ Hrefused].
  destruct (Hyes Hok) as [Hreturns Hslept].
  destruct (Hrefused Hno ltac:(discriminate)) as [Hraises Hnone].
  split; [exact Hok|]. split; [exact Hno|].
  split; [exact Hreturns|]. split; [exact Hslept|]. split; [exact Hraises|exact Hnone].
Defined.

Lemma timestamps_outlive_reports_witness :
  let after := Exporter.exec
                 (calls (Exporter.update_metrics Sample.repr (λ _, Some (Ok 1700000000%Z))
                           (listing [Loads (JObj [("ArtifactName", JStr "app:1.0");
                                                  ("CreatedAt", JStr "2023-11-14T22:13:20Z")])])))
                 Exporter.initial in
  let later := Exporter.exec
                 (calls (Exporter.update_metrics Sample.repr (λ _, Some (Ok 1700000000%Z))
                           Sample.absent)) after in
  Exporter.trivy_last_scan_timestamp after !! "app:1.0" = Some 1700000000%Z
  ∧ (∃ t', Exporter.trivy_last_scan_timestamp later !! "app:1.0" = Some t')
  ∧ Exporter.trivy_last_scan_timestamp later = Exporter.trivy_last_scan_timestamp after.
Proof.
  intros after later.
  assert (Exporter.trivy_last_scan_timestamp after !! "app:1.0" = Some 1700000000%Z) as Ht.
  { vm_compute. reflexivity. }
  destruct (timestamps_outlive_reports Sample.repr (λ _, Some (Ok 1700000000%Z)) Sample.absent
              after "app:1.0" 1700000000) as [H1 H2].
  split; [exact Ht|]. split; [exact (H1 Ht)|]. exact (proj1 (H2 eq_refl)).
Defined.

(** ** trivy-prometheus-exporter.py: what the scans call *)

Section ScanCalls.
Import PrometheusExporter.
Variable repr_container : json → string.

Lemma process_vulnerabilities_cons image namespace vuln rest n :
  process_vulnerabilities repr_container image namespace (vuln :: rest) n =
  (severity ← lift (py_get vuln "Severity" (JStr "UNKNOWN"));
   vuln_id ← lift (py_get vuln "VulnerabilityID" (JStr "N/A"));
   pkg_name ← lift (py_get vuln "PkgName" (JStr "N/A"));
   installed_ver ← lift (py_get vuln "InstalledVersion" (JStr "N/A"));
   fixed_ver ← lift (py_get vuln "FixedVersion" (JStr "N/A"));
   let labels := (image, py_str repr_container severity, namespace,
                  py_str repr_container vuln_id, py_str repr_container pkg_name,
                  py_str repr_container installed_ver, py_str repr_container fixed_ver) in
   emit (VulnerabilityGauge (Gauge.Labels labels));;
   emit (VulnerabilityGauge (Gauge.SetChild labels 1));;
   process_vulnerabilities repr_container image namespace rest (n + 1)%Z).
Proof. reflexivity. Qed.

Lemma process_results_cons image namespace result rest n :
  process_results repr_container image namespace (result :: rest) n =
  (vulnerabilities ← lift (py_get result "Vulnerabilities" (JArr []));
   vulns ← lift (py_iter vulnerabilities);
   n ← process_vulnerabilities repr_container image namespace vulns n;
   process_results repr_container image namespace rest n).
Proof. reflexivity. Qed.

Section AnyCall.
Variable P : call → Prop.
Hypothesis P_log : ∀ l, P (Log l).
Hypothesis P_labels : ∀ k, P (VulnerabilityGauge (Gauge.Labels k)).
Hypothesis P_set : ∀ k, P (VulnerabilityGauge (Gauge.SetChild k 1)).
Hypothesis P_errors : ∀ g, keeps_children g = true → P (ScanErrors g).
Hypothesis P_last_scan : ∀ g, keeps_children g = true → P (LastScan g).
Hypothesis P_duration_labels : ∀ i, P (ScanDurationLabels i).
Hypothesis P_duration_observe : ∀ i v, P (ScanDurationObserve i v).

Lemma process_vulnerabilities_any image namespace vulns n :
  Forall P (calls (process_vulnerabilities repr_container image namespace vulns n)).
Proof.
  revert n. induction vulns as [|v vulns IH]; intros n; [apply all_mret|].
  rewrite process_vulnerabilities_cons. all_calls. cbv zeta.
  all_calls; [apply P_labels|apply P_set|apply IH].
Qed.

Lemma process_results_any image namespace results n :
  Forall P (calls (process_results repr_container image namespace results n)).
Proof.
  revert n. induction results as [|r results IH]; intros n; [apply all_mret|].
  rewrite process_results_cons. all_calls; [apply process_vulnerabilities_any|apply IH].
Qed.

Lemma process_scan_results_any image namespace scan_data :
  Forall P (calls (process_scan_results repr_container image namespace scan_data)).
Proof.
  unfold process_scan_results. destruct (negb (truthy scan_data)); [apply all_mret|].
  all_calls. destruct (negb _); [apply all_mret|].
  all_calls; [apply process_results_any|apply P_log].
Qed.

Lemma scan_image_any image namespace a :
  Forall P (calls (scan_image image namespace a)).
Proof.
  destruct (run_result a) as [result|e] eqn:Hrun.
  - destruct (returncode result =? 0)%Z eqn:Hrc.
    + destruct (stdout result) as [e|data] eqn:Hout.
      * rewrite (scan_image_undecodable _ _ _ _ _ Hrun Hrc Hout).
        repeat constructor; auto.
      * rewrite (scan_image_succeeds _ _ _ _ _ Hrun Hrc Hout).
        repeat constructor; auto.
    + rewrite (scan_image_exit_code _ _ _ _ Hrun Hrc). repeat constructor; auto.
  - rewrite (scan_image_raises _ _ _ _ Hrun). repeat constructor; auto.
Qed.

Lemma process_scanned_any image namespace (scan_data : option json) :
  Forall P (calls (match scan_data with
                   | Some data =>
                       if truthy data
                       then process_scan_results repr_container image namespace data
                       else mret ()
                   | None => mret ()
                   end)).
Proof.
  destruct scan_data as [data|]; [|apply all_mret].
  destruct (truthy data); [apply process_scan_results_any|apply all_mret].
Qed.
End AnyCall.

Lemma scan_one_unfold image namespace a :
  scan_one repr_container (image, namespace, a) =
  (scan_data ← scan_image image namespace a;
   match scan_data with
   | Some data =>
       if truthy data
       then process_scan_results repr_container image namespace data
       else mret ()
   | None => mret ()
   end;;
   emit (Sleep 2)).
Proof. reflexivity. Qed.

End ScanCalls.

(** ** trivy-prometheus-exporter.py: what the scans keep *)

Section ScanInvariants.
Import PrometheusExporter.
Variable repr_container : json → string.
Variable Inv : state → Prop.
Hypothesis Inv_beside : ∀ s c, beside_findings c → Inv s → Inv (apply s c).
Hypothesis Inv_publish : ∀ s k,
  Inv s →
  Inv (apply (apply s (VulnerabilityGauge (Gauge.Labels k)))
             (VulnerabilityGauge (Gauge.SetChild k 1))).

Lemma keeps_beside {A} (m : eff call A) :
  Forall beside_findings (calls m) → scan_keeps Inv m.
Proof.
  unfold scan_keeps. induction (calls m) as [|c cs IH]; intros Hcs s Hs; [done|].
  inversion_clear Hcs as [|?? Hc Hrest].
  change (exec (c :: cs) s) with (exec cs (apply s c)). apply IH; [done|].
  by apply Inv_beside.
Qed.

Lemma keeps_bind {A B} (m : eff call A) (f : A → eff call B) :
  scan_keeps Inv m → (∀ a, scan_keeps Inv (f a)) → scan_keeps Inv (m ≫= f).
Proof.
  intros Hm Hf s Hs. rewrite calls_bind, scan_exec_app.
  destruct (outcome m); [by apply Hf, Hm | by apply Hm].
Qed.

Lemma keeps_lift {A} (r : result A) : scan_keeps Inv (lift r : eff call A).
Proof. by intros s Hs. Qed.

Lemma keeps_mret {A} (a : A) : scan_keeps Inv (mret a : eff call A).
Proof. by intros s Hs. Qed.

Lemma keeps_emit c : beside_findings c → scan_keeps Inv (emit c).
Proof. intros Hc s Hs. by apply Inv_beside. Qed.

Lemma keeps_sleep secs : scan_keeps Inv (sleep secs).
Proof.
  intros s Hs. unfold sleep. destruct (py_sleep secs) as [[]|e]; [|done].
  by apply Inv_beside.
Qed.

Lemma keeps_try_except {A} (m : eff call A) h :
  scan_keeps Inv m → (∀ e, scan_keeps Inv (h e)) → scan_keeps Inv (try_except m h).
Proof.
  intros Hm Hh s Hs. rewrite calls_try_except, scan_exec_app.
  destruct (outcome m); [by apply Hm | by apply Hh, Hm].
Qed.

Lemma keeps_for_each {A} (xs : list A) (body : A → eff call unit) :
  (∀ x, scan_keeps Inv (body x)) → scan_keeps Inv (for_each xs body).
Proof.
  intros Hb. induction xs as [|x xs IH]; [by intros s Hs|].
  simpl. by apply keeps_bind.
Qed.

Lemma process_vulnerabilities_object image namespace vm rest n :
  process_vulnerabilities repr_container image namespace (JObj vm :: rest) n =
  (publish_finding repr_container image namespace vm ++
   calls (process_vulnerabilities repr_container image namespace rest (n + 1)),
   outcome (process_vulnerabilities repr_container image namespace rest (n + 1))).
Proof.
  rewrite process_vulnerabilities_cons.
  change (py_get (JObj vm) "Severity" (JStr "UNKNOWN"))
    with (Ok (field vm "Severity" (JStr "UNKNOWN")) : result json).
  rewrite lift_bind_ok.
  change (py_get (JObj vm) "VulnerabilityID" (JStr "N/A"))
    with (Ok (field vm "VulnerabilityID" (JStr "N/A")) : result json).
  rewrite lift_bind_ok.
  change (py_get (JObj vm) "PkgName" (JStr "N/A"))
    with (Ok (field vm "PkgName" (JStr "N/A")) : result json).
  rewrite lift_bind_ok.
  change (py_get (JObj vm) "InstalledVersion" (JStr "N/A"))
    with (Ok (field vm "InstalledVersion" (JStr "N/A")) : result json).
  rewrite lift_bind_ok.
  change (py_get (JObj vm) "FixedVersion" (JStr "N/A"))
    with (Ok (field vm "FixedVersion" (JStr "N/A")) : result json).
  rewrite lift_bind_ok. cbv zeta. by rewrite !emit_bind.
Qed.

Lemma process_vulnerabilities_not_object image namespace v rest n :
  is_object v = false →
  process_vulnerabilities repr_container image namespace (v :: rest) n =
  ([], Raise AttributeError).
Proof. by destruct v. Qed.

Lemma process_vulnerabilities_keeps image namespace vulns n :
  scan_keeps Inv (process_vulnerabilities repr_container image namespace vulns n).
Proof.
  revert n. induction vulns as [|v vulns IH]; intros n; [apply keeps_mret|].
  destruct (is_object v) eqn:Hv.
  - destruct v as [| | | | |vm]; try done.
    rewrite process_vulnerabilities_object. intros s Hs.
    change (Inv (exec (publish_finding repr_container image namespace vm ++
                       calls (process_vulnerabilities repr_container image namespace
                                vulns (n + 1))) s)).
    rewrite scan_exec_app. apply IH. by apply Inv_publish.
  - rewrite process_vulnerabilities_not_object by done. by intros s Hs.
Qed.

Lemma process_results_keeps image namespace results n :
  scan_keeps Inv (process_results repr_container image namespace results n).
Proof.
  revert n. induction results as [|r results IH]; intros n; [apply keeps_mret|].
  rewrite process_results_cons.
  apply keeps_bind; [apply keeps_lift|]. intros vulnerabilities.
  apply keeps_bind; [apply keeps_lift|]. intros vulns.
  apply keeps_bind; [apply process_vulnerabilities_keeps|]. intros n'. apply IH.
Qed.

Lemma process_scan_results_keeps image namespace scan_data :
  scan_keeps Inv (process_scan_results repr_container image namespace scan_data).
Proof.
  unfold process_scan_results. destruct (negb (truthy scan_data)); [apply keeps_mret|].
  apply keeps_bind; [apply keeps_lift|]. intros has_results.
  destruct (negb has_results); [apply keeps_mret|].
  apply keeps_bind; [apply keeps_lift|]. intros results.
  apply keeps_bind; [apply keeps_lift|]. intros results'.
  apply keeps_bind; [apply process_results_keeps|]. intros _. by apply keeps_emit.
Qed.

Lemma scan_one_keeps subject : scan_keeps Inv (scan_one repr_container subject).
Proof.
  destruct subject as [[image namespace] a]. rewrite scan_one_unfold.
  apply keeps_bind; [apply keeps_beside; by apply scan_image_any|]. intros scan_data.
  apply keeps_bind; [|intros _; by apply keeps_emit].
  destruct scan_data as [data|]; [|apply keeps_mret].
  destruct (truthy data); [apply process_scan_results_keeps|apply keeps_mret].
Qed.

Lemma scan_all_images_keeps images :
  scan_keeps Inv (scan_all_images repr_container images).
Proof.
  destruct images as [|x images]; [by apply keeps_emit|].
  apply keeps_for_each, scan_one_keeps.
Qed.

Lemma run_keeps interval cycles : scan_keeps Inv (run repr_container interval cycles).
Proof.
  unfold run. apply keeps_bind; [by apply keeps_emit|]. intros _.
  apply keeps_for_each. intros images. unfold run_cycle.
  apply keeps_try_except.
  - apply keeps_bind; [by apply keeps_emit|]. intros _.
    apply keeps_bind; [apply scan_all_images_keeps|]. intros _.
    apply keeps_bind; [by apply keeps_emit|]. intros _. apply keeps_sleep.
  - intros e. apply keeps_bind; [by apply keeps_emit|]. intros _. apply keeps_sleep.
Qed.
End ScanInvariants.

Section ScanKeeps.
Import PrometheusExporter.
Variable repr_container : json → string.

Lemma gauge_labels_dom `{Countable K} (k : K) (g : gmap K Z) :
  dom g ⊆ dom (Gauge.apply (Gauge.Labels k) g).
Proof.
  simpl. destruct (g !! k); [done|]. rewrite dom_insert. apply union_subseteq_r.
Qed.

Lemma gauge_keeps_dom `{Countable K} (c : Gauge.call K) (g : gmap K Z) :
  keeps_children c = true → dom g ⊆ dom (Gauge.apply c g).
Proof.
  destruct c as [|k|k v]; [done|intros _; apply gauge_labels_dom|intros _].
  simpl. rewrite dom_insert. apply union_subseteq_r.
Qed.

(** X10: whatever the scans of any number of cycles return, [run] removes
    no child from any of the four families: a finding, a timestamp, a
    histogram child or an error sample that is exported once is exported
    for as long as the process runs. *)
Theorem run_never_removes_a_child
    (interval : Z) (cycles : list (list (string * string * attempt))) (s : state) :
  children_within s (exec (calls (run repr_container interval cycles)) s).
Proof.
  apply (run_keeps repr_container (children_within s)); [| |done].
  - intros s' c Hc (Hv & Ht & Hd & He).
    destruct c as [g|g|g|i|i v|l|n]; simpl in Hc; try done; repeat split; simpl; try done.
    + etrans; [exact Ht|]. by apply gauge_keeps_dom.
    + etrans; [exact He|]. by apply gauge_keeps_dom.
    + etrans; [exact Hd|]. destruct (scan_duration s' !! i); [done|].
      rewrite dom_insert. apply union_subseteq_r.
    + etrans; [exact Hd|]. rewrite dom_insert. apply union_subseteq_r.
  - intros s' k (Hv & Ht & Hd & He). repeat split; simpl; try done.
    etrans; [exact Hv|]. rewrite dom_insert.
    etrans; [apply (gauge_labels_dom k)|]. apply union_subseteq_r.
Qed.

(** X11: the vulnerability gauge only ever holds the value 1: when every
    sample of it reads 1 before [run], as in the empty registry, every
    sample reads 1 after any number of cycles; the family records which
    findings were seen, and counts nothing. *)
Theorem finding_samples_read_one
    (interval : Z) (cycles : list (list (string * string * attempt))) (s : state) :
  findings_read_one s →
  findings_read_one (exec (calls (run repr_container interval cycles)) s).
Proof.
  apply (run_keeps repr_container findings_read_one).
  - intros s' c Hc Hs'. by destruct c.
  - intros s' k Hs'. unfold findings_read_one in *. simpl.
    destruct (vulnerability_gauge s' !! k).
    + by apply map_Forall_insert_2.
    + rewrite insert_insert_eq. by apply map_Forall_insert_2.
Qed.
End ScanKeeps.

Lemma finding_samples_read_one_witness :
  let scanned findings :=
    [("app:1.0", "default", Sample.exits 0 (Loads (Sample.document "app:1.0" findings)))] in
  let cycles := [scanned [Sample.finding "CVE-1" "libfoo" "HIGH"]; scanned []] in
  findings_read_one PrometheusExporter.initial
  ∧ findings_read_one
      (PrometheusExporter.exec (calls (PrometheusExporter.run Sample.repr 3600 cycles))
         PrometheusExporter.initial).
Proof.
  intros scanned cycles.
  assert (findings_read_one PrometheusExporter.initial) as Hinit by apply map_Forall_empty.
  split; [exact Hinit|].
  exact (finding_samples_read_one Sample.repr 3600 cycles PrometheusExporter.initial Hinit).
Defined.

(** ** trivy-prometheus-exporter.py: the pauses of a cycle *)

Section ScanPauses.
Import PrometheusExporter.
Variable repr_container : json → string.

Lemma scan_slept_app cs1 cs2 : scan_slept (cs1 ++ cs2) = (scan_slept cs1 + scan_slept cs2)%Z.
Proof.
  induction cs1 as [|c cs1 IH]; [done|]. simpl. destruct c; rewrite ?IH; lia.
Qed.

Lemma scan_slept_quiet cs : Forall quiet_call cs → scan_slept cs = 0%Z.
Proof.
  induction 1 as [|c cs Hc _ IH]; [done|]. simpl. by destruct c.
Qed.

Lemma scan_one_slept subject :
  scan_slept (calls (scan_one repr_container subject)) =
  if raised (outcome (scan_one repr_container subject)) then 0%Z else 2%Z.
Proof.
  destruct subject as [[image namespace] a]. rewrite scan_one_unfold.
  rewrite !calls_bind, !outcome_bind, !scan_slept_app.
  rewrite (scan_slept_quiet (calls (scan_image image namespace a)))
    by (by apply scan_image_any).
  destruct (outcome (scan_image image namespace a)) as [scan_data|e]; [|done].
  rewrite calls_bind, outcome_bind, scan_slept_app.
  rewrite scan_slept_quiet by (by apply process_scanned_any).
  by destruct (outcome _).
Qed.

Lemma for_each_scan_one_slept images :
  scan_slept (calls (for_each images (scan_one repr_container))) =
  (2 * Z.of_nat (completed_scans repr_container images))%Z.
Proof.
  induction images as [|x images IH]; [done|].
  rewrite calls_for_each_cons, scan_slept_app, scan_one_slept. simpl completed_scans.
  destruct (outcome (scan_one repr_container x)) as [[]|e]; simpl raised; [|done].
  rewrite IH. lia.
Qed.

Lemma for_each_scan_one_completed images :
  if raised (outcome (for_each images (scan_one repr_container)))
  then (completed_scans repr_container images < length images)%nat
  else completed_scans repr_container images = length images.
Proof.
  induction images as [|x images IH]; [done|].
  rewrite outcome_for_each_cons. simpl completed_scans.
  destruct (outcome (scan_one repr_container x)) as [[]|e]; simpl; [|lia].
  destruct (raised _); simpl in *; lia.
Qed.

(** X12: a cycle pauses 2 seconds after each subject it is through with,
    and once more at its end.  When the interval is a length that
    [time.sleep] accepts, that last pause is the interval when
    [scan_all_images] returned, which it does after all the subjects, and
    60 seconds when it raised, which it does before the last one is
    through; with an interval that [time.sleep] refuses it is 60 seconds
    in both cases. *)
Theorem cycle_pauses_after_each_image
    (interval : Z) (images : list (string * string * attempt)) :
  let failed := raised (outcome (scan_all_images repr_container images)) in
  (sleep_accepts interval →
   scan_slept (calls (run_cycle repr_container interval images)) =
     (2 * Z.of_nat (completed_scans repr_container images) +
      (if failed then 60 else interval))%Z)
  ∧ (¬ sleep_accepts interval →
     scan_slept (calls (run_cycle repr_container interval images)) =
       (2 * Z.of_nat (completed_scans repr_container images) + 60)%Z)
  ∧ (if failed
     then (completed_scans repr_container images < length images)%nat
     else completed_scans repr_container images = length images).
Proof.
  intros failed. subst failed.
  assert (scan_slept (calls (scan_all_images repr_container images)) =
          (2 * Z.of_nat (completed_scans repr_container images))%Z) as Hscans.
  { destruct images as [|x images]; [done|]. apply for_each_scan_one_slept. }
  split; [|split].
  - intros Hok. rewrite run_cycle_calls, !scan_slept_app, Hscans, (py_sleep_accepts _ Hok).
    destruct (raised _); simpl; lia.
  - intros Hno. rewrite run_cycle_calls, !scan_slept_app, Hscans, (py_sleep_refuses _ Hno).
    destruct (raised _); simpl; lia.
  - destruct images as [|x images]; [done|]. apply for_each_scan_one_completed.
Qed.
End ScanPauses.

Lemma cycle_pauses_after_each_image_witness :
  let scanned image :=
    (image, "default",
     Sample.exits 0 (Loads (Sample.document image [Sample.finding "CVE-1" "libfoo" "HIGH"]))) in
  let images := [scanned "db:2"; ("app:1.0", "default", Sample.timed_out); scanned "web:3"] in
  sleep_accepts 3600
  ∧ scan_slept (calls (PrometheusExporter.run_cycle Sample.repr 3600 images)) = 3606%Z.
Proof.
  intros scanned images.
  assert (sleep_accepts 3600) as Hok by (unfold sleep_accepts, sleep_limit; lia).
  split; [exact Hok|].
  exact (proj1 (cycle_pauses_after_each_image Sample.repr 3600 images) Hok).
Defined.

(** ** trivy-prometheus-exporter.py: what scanner output publishes *)

Section ScanOutput.
Import PrometheusExporter.
Variable repr_container : json → string.

Lemma process_vulnerabilities_listed image namespace vs n :
  forallb is_object vs = true →
  process_vulnerabilities repr_container image namespace vs n =
  (flat_map (publish_finding repr_container image namespace)
     (omap (λ v, match v with JObj vm => Some vm | _ => None end) vs),
   Ok (n + Z.of_nat (length vs))%Z).
Proof.
  revert n. induction vs as [|v vs IH]; intros n Hvs.
  - simpl. by rewrite Z.add_0_r.
  - simpl in Hvs. apply andb_prop in Hvs as [Hv Hvs].
    destruct v as [| | | | |vm]; try done.
    rewrite process_vulnerabilities_object, IH by done.
    unfold calls, outcome. simpl. do 2 f_equal. lia.
Qed.

Lemma length_listed_objects vs :
  forallb is_object vs = true →
  length (omap (λ v, match v with JObj vm => Some vm | _ => None end) vs) = length vs.
Proof.
  induction vs as [|v vs IH]; [done|]. simpl. intros Hvs.
  apply andb_prop in Hvs as [Hv Hvs]. destruct v; try done. simpl. f_equal. by apply IH.
Qed.

Lemma process_results_listed image namespace rs n :
  forallb result_listed rs = true →
  process_results repr_container image namespace rs n =
  (flat_map (publish_finding repr_container image namespace) (flat_map listed_findings rs),
   Ok (n + Z.of_nat (length (flat_map listed_findings rs)))%Z).
Proof.
  revert n. induction rs as [|r rs IH]; intros n Hrs.
  - simpl. by rewrite Z.add_0_r.
  - simpl in Hrs. apply andb_prop in Hrs as [Hr Hrs].
    destruct r as [| | | | |m]; try done.
    rewrite process_results_cons. unfold result_listed in Hr.
    change (py_get (JObj m) "Vulnerabilities" (JArr []))
      with (Ok (field m "Vulnerabilities" (JArr [])) : result json).
    rewrite lift_bind_ok.
    simpl flat_map. unfold listed_findings at 1 2.
    destruct (field m "Vulnerabilities" (JArr [])) as [| | | |vs|]; try done.
    change (py_iter (JArr vs)) with (Ok vs : result (list json)). rewrite lift_bind_ok.
    rewrite (bind_ok _ _ _ _ (process_vulnerabilities_listed image namespace vs n Hr)).
    rewrite IH by done. unfold calls, outcome. simpl.
    rewrite flat_map_app, length_app, Nat2Z.inj_add.
    rewrite length_listed_objects by done. f_equal. f_equal. unfold listed_findings. lia.
Qed.
Lemma publishing_keeps_finding image namespace vms l s :
  vulnerability_gauge s !! l = Some 1%Z →
  vulnerability_gauge
    (exec (flat_map (publish_finding repr_container image namespace) vms) s) !! l = Some 1%Z.
Proof.
  revert s. induction vms as [|vm vms IH]; intros s Hs; [done|].
  simpl. apply IH. simpl.
  destruct (decide (finding_labels repr_container image namespace vm = l)) as [->|Hne].
  - apply lookup_insert_eq.
  - rewrite lookup_insert_ne by done.
    destruct (vulnerability_gauge s !! finding_labels repr_container image namespace vm);
      [done|]. by rewrite lookup_insert_ne.
Qed.

Lemma publishing_sets_finding image namespace vms vm s :
  vm ∈ vms →
  vulnerability_gauge
    (exec (flat_map (publish_finding repr_container image namespace) vms) s)
    !! finding_labels repr_container image namespace vm = Some 1%Z.
Proof.
  revert s. induction vms as [|v vms IH]; intros s Hin.
  - by apply elem_of_nil in Hin.
  - apply elem_of_cons in Hin as [->|Hin].
    + simpl. apply publishing_keeps_finding. simpl. apply lookup_insert_eq.
    + simpl. by apply IH.
Qed.

Lemma process_scan_results_listed image namespace m rs :
  dict_lookup "Results" m = Some (JArr rs) →
  forallb result_listed rs = true →
  process_scan_results repr_container image namespace (JObj m) =
  (flat_map (publish_finding repr_container image namespace) (flat_map listed_findings rs) ++
   [Log Info], Ok ()).
Proof.
  intros Hm Hrs. unfold process_scan_results.
  assert (truthy (JObj m) = true) as -> by (by destruct m).
  simpl negb. cbv iota.
  change (py_contains "Results" (JObj m))
    with (Ok (bool_decide (is_Some (dict_lookup "Results" m))) : result bool).
  rewrite lift_bind_ok, Hm, bool_decide_eq_true_2 by done. simpl negb. cbv iota.
  change (py_get (JObj m) "Results" (JArr []))
    with (Ok (field m "Results" (JArr [])) : result json).
  rewrite lift_bind_ok. unfold field. rewrite Hm. simpl default.
  change (py_iter (JArr rs)) with (Ok rs : result (list json)). rewrite lift_bind_ok.
  by rewrite (bind_ok _ _ _ _ (process_results_listed image namespace rs 0 Hrs)).
Qed.

(** X13: when the scanner output holds a list under "Results" whose
    members are objects with "Vulnerabilities" absent or a list of
    objects, [process_scan_results] returns after a [labels] and a
    [set(1)] for each finding, result by result in the order of the
    output, and one log line; the labels come from the image, the
    namespace and the finding, with 'UNKNOWN' for a missing severity and
    'N/A' for the other missing members; afterwards every finding of the
    output reads 1. *)
Theorem listed_output_publishes_each_finding
    (image namespace : string) (m : list (string * json)) (rs : list json) (s : state) :
  dict_lookup "Results" m = Some (JArr rs) →
  forallb result_listed rs = true →
  let found := flat_map listed_findings rs in
  process_scan_results repr_container image namespace (JObj m) =
    (flat_map (publish_finding repr_container image namespace) found ++ [Log Info], Ok ())
  ∧ ∀ vm, vm ∈ found →
      vulnerability_gauge
        (exec (calls (process_scan_results repr_container image namespace (JObj m))) s)
        !! finding_labels repr_container image namespace vm = Some 1%Z.
Proof.
  intros Hm Hrs found.
  pose proof (process_scan_results_listed image namespace m rs Hm Hrs) as Hcalls.
  fold found in Hcalls.
  split; [exact Hcalls|]. intros vm Hvm. rewrite Hcalls.
  change (calls (flat_map (publish_finding repr_container image namespace) found ++ [Log Info],
                 Ok ()))
    with (flat_map (publish_finding repr_container image namespace) found ++ [Log Info]).
  rewrite scan_exec_app. simpl. by apply publishing_sets_finding.
Qed.
End ScanOutput.

Lemma listed_output_publishes_each_finding_witness :
  let rs := [JObj [("Target", JStr "app:1.0");
                   ("Vulnerabilities", JArr [Sample.finding "CVE-1" "libfoo" "HIGH"])];
             JObj [("Target", JStr "requirements.txt")]] in
  let m := [("ArtifactName", JStr "app:1.0"); ("Results", JArr rs)] in
  let labels := ("app:1.0", "HIGH", "default", "CVE-1", "libfoo", "N/A", "N/A") in
  PrometheusExporter.process_scan_results Sample.repr "app:1.0" "default" (JObj m) =
    ([PrometheusExporter.VulnerabilityGauge (Gauge.Labels labels);
      PrometheusExporter.VulnerabilityGauge (Gauge.SetChild labels 1);
      PrometheusExporter.Log Info], Ok ())
  ∧ PrometheusExporter.vulnerability_gauge
      (PrometheusExporter.exec
         (calls (PrometheusExporter.process_scan_results Sample.repr "app:1.0" "default" (JObj m)))
         PrometheusExporter.initial) !! labels = Some 1%Z.
Proof.
  intros rs m labels.
  destruct (listed_output_publishes_each_finding Sample.repr "app:1.0" "default" m rs
              PrometheusExporter.initial eq_refl eq_refl) as [Hcalls Hreads].
  split; [exact Hcalls|].
  apply (Hreads [("VulnerabilityID", JStr "CVE-1"); ("PkgName", JStr "libfoo");
                 ("Severity", JStr "HIGH")]).
  by left.
Defined.

(** ** trivy-prometheus-exporter.py: a failing subject among the others *)

Section ScanIsolation.
Import PrometheusExporter.
Variable repr_container : json → string.

Abbreviation scan_step := (scan_one repr_container).
Abbreviation scan_cycle := (scan_all_images repr_container).

Lemma scan_cycle_outcome images :
  outcome (scan_cycle images) = outcome (for_each images scan_step).
Proof. by destruct images. Qed.

Lemma scan_one_scanned_well image namespace a m rs :
  scanned_well a m rs →
  scan_step (image, namespace, a) =
  (calls (scan_image image namespace a) ++
   flat_map (publish_finding repr_container image namespace) (flat_map listed_findings rs) ++
   [Log Info; Sleep 2], Ok ()).
Proof.
  intros (result & Hrun & Hrc & Hout & Hm & Hrs). rewrite scan_one_unfold.
  assert ((returncode result =? 0)%Z = true) as Hrc' by (by rewrite Hrc).
  rewrite (bind_ok _ _ _ _ (scan_image_succeeds image namespace a result (JObj m) Hrun Hrc' Hout)).
  rewrite (scan_image_succeeds image namespace a result (JObj m) Hrun Hrc' Hout).
  assert (truthy (JObj m) = true) as -> by (by destruct m).
  rewrite (process_scan_results_listed repr_container image namespace m rs Hm Hrs).
  unfold calls, outcome. simpl. by rewrite <- !app_assoc.
Qed.

(** A finding that reads 1 reads 1 after any further scans. *)
Lemma finding_outlives_scans images l s :
  vulnerability_gauge s !! l = Some 1%Z →
  vulnerability_gauge (exec (calls (for_each images scan_step)) s) !! l = Some 1%Z.
Proof.
  apply (keeps_for_each (λ s, vulnerability_gauge s !! l = Some 1%Z)).
  intros subject. apply scan_one_keeps.
  - intros s' c Hc Hs'. by destruct c.
  - intros s' k Hs'. simpl. destruct (decide (k = l)) as [->|Hne].
    + apply lookup_insert_eq.
    + rewrite lookup_insert_ne by done.
      destruct (vulnerability_gauge s' !! k); [done|]. by rewrite lookup_insert_ne.
Qed.

(** In a cycle that returns, every finding of a subject that was scanned
    well reads 1 at the end. *)
Lemma cycle_publishes_subject images image namespace a m rs vm s :
  (image, namespace, a) ∈ images →
  scanned_well a m rs →
  outcome (for_each images scan_step) = Ok () →
  vm ∈ flat_map listed_findings rs →
  vulnerability_gauge (exec (calls (for_each images scan_step)) s)
    !! finding_labels repr_container image namespace vm = Some 1%Z.
Proof.
  intros Hin Hwell Hok Hvm.
  apply list_elem_of_split in Hin as (l1 & l2 & ->).
  rewrite outcome_for_each_app in Hok. rewrite calls_for_each_app.
  destruct (outcome (for_each l1 scan_step)) as [[]|e]; [|done].
  rewrite calls_for_each_cons, (scan_one_scanned_well _ _ _ _ _ Hwell).
  unfold calls at 2, outcome at 1. simpl fst. simpl snd. cbv iota.
  rewrite !scan_exec_app. apply finding_outlives_scans.
  change (exec [Log Info; Sleep 2] ?s0) with s0.
  by apply publishing_sets_finding.
Qed.

(** C4: when the scan of a subject fails, [scan_image] returns [None]
    without raising and the loop body for the subject returns; after it
    the error gauge of the subject reads 1 and the vulnerability gauge is
    as before; the loop goes on to the remaining subjects, so that the
    cycle makes the calls of the subjects before, of this subject and of
    the subjects after, and ends as the subjects after make it end; the
    vulnerability gauge at the end of the cycle is the one the cycle
    leaves without the failing subject; and when the other subjects make a
    cycle that returns, the cycle with the failing subject returns too,
    and after it every finding of every other subject that was scanned
    well reads 1. *)
Theorem failed_scan_is_isolated
    (image namespace : string) (a : attempt)
    (pre post : list (string * string * attempt)) (s : state) :
  scan_fails a = true →
  let subject := (image, namespace, a) in
  let s' := exec (calls (scan_step subject)) s in
  outcome (scan_image image namespace a) = Ok None
  ∧ outcome (scan_step subject) = Ok ()
  ∧ scan_errors s' !! (image, namespace) = Some 1%Z
  ∧ vulnerability_gauge s' = vulnerability_gauge s
  ∧ (outcome (for_each pre scan_step) = Ok () →
     calls (scan_cycle (pre ++ subject :: post)) =
       calls (for_each pre scan_step) ++ calls (scan_step subject) ++
       calls (for_each post scan_step)
     ∧ outcome (scan_cycle (pre ++ subject :: post)) = outcome (for_each post scan_step))
  ∧ vulnerability_gauge (exec (calls (scan_cycle (pre ++ subject :: post))) s) =
    vulnerability_gauge (exec (calls (scan_cycle (pre ++ post))) s)
  ∧ (outcome (scan_cycle (pre ++ post)) = Ok () →
     outcome (scan_cycle (pre ++ subject :: post)) = Ok ()
     ∧ ∀ image' namespace' a' m rs vm,
         (image', namespace', a') ∈ pre ++ post →
         scanned_well a' m rs →
         vm ∈ flat_map listed_findings rs →
         vulnerability_gauge (exec (calls (scan_cycle (pre ++ subject :: post))) s)
           !! finding_labels repr_container image' namespace' vm = Some 1%Z).
Proof.
  intros Hf subject s'. subst subject s'.
  pose proof (scan_one_fails repr_container image namespace a Hf) as Hone.
  destruct (scan_image_fails image namespace a Hf) as (cs & Hs & Hcs).
  assert (∀ s0, vulnerability_gauge (exec (calls (scan_step (image, namespace, a))) s0) =
                vulnerability_gauge s0) as Hgauge.
  { intros s0. rewrite Hone, Hs. unfold calls. simpl fst.
    apply scan_exec_gauge_untouched.
    rewrite !Forall_app. split; [split|]; [|by repeat constructor..].
    eapply Forall_impl; [exact Hcs|]. by intros []. }
  split; [by rewrite Hs|]. split; [by rewrite Hone|]. split.
  { rewrite Hone, Hs. unfold calls. simpl fst.
    rewrite <- app_assoc, scan_exec_app. simpl.
    apply lookup_insert_eq. }
  split; [apply Hgauge|]. split; [|split].
  - intros Hpre.
    assert (scan_cycle (pre ++ (image, namespace, a) :: post) =
            for_each (pre ++ (image, namespace, a) :: post) scan_step) as ->.
    { unfold scan_all_images. by destruct pre. }
    rewrite calls_for_each_app, outcome_for_each_app, Hpre.
    rewrite calls_for_each_cons, outcome_for_each_cons, Hone. done.
  - rewrite !scan_all_images_gauge, !calls_for_each_app.
    destruct (outcome (for_each pre scan_step)) as [[]|e]; [|done].
    rewrite calls_for_each_cons, Hone. unfold outcome at 1. simpl snd.
    rewrite !scan_exec_app. apply scan_exec_gauge_only.
    rewrite <- Hone. apply Hgauge.
  - rewrite !scan_cycle_outcome. intros Hothers.
    assert (outcome (for_each (pre ++ (image, namespace, a) :: post) scan_step) = Ok ())
      as Hall.
    { rewrite outcome_for_each_app in *.
      destruct (outcome (for_each pre scan_step)) as [[]|e]; [|done].
      by rewrite outcome_for_each_cons, Hone. }
    split; [exact Hall|].
    intros image' namespace' a' m rs vm Hin Hwell Hvm.
    rewrite scan_all_images_gauge.
    apply (cycle_publishes_subject _ image' namespace' a' m rs); try done.
    apply elem_of_app in Hin as [Hin|Hin]; apply elem_of_app; [by left|].
    right. by apply elem_of_cons; right.
Qed.
End ScanIsolation.

Lemma failed_scan_is_isolated_witness :
  let output image :=
    [("ArtifactName", JStr image);
     ("Results", JArr [JObj [("Target", JStr image);
                             ("Vulnerabilities",
                              JArr [Sample.finding "CVE-1" "libfoo" "HIGH"])]])] in
  let scanned image := (image, "default", Sample.exits 0 (Loads (JObj (output image)))) in
  let failing := ("app:1.0", "default", Sample.timed_out) in
  let cycle := PrometheusExporter.scan_all_images Sample.repr in
  let after images := PrometheusExporter.exec (calls (cycle images)) PrometheusExporter.initial in
  scan_fails Sample.timed_out = true
  ∧ PrometheusExporter.scan_errors (after [scanned "db:2"; failing; scanned "web:3"])
      !! ("app:1.0", "default") = Some 1%Z
  ∧ PrometheusExporter.vulnerability_gauge (after [scanned "db:2"; failing; scanned "web:3"]) =
    PrometheusExporter.vulnerability_gauge (after [scanned "db:2"; scanned "web:3"])
  ∧ outcome (cycle [scanned "db:2"; failing; scanned "web:3"]) = Ok ()
  ∧ PrometheusExporter.vulnerability_gauge (after [scanned "db:2"; failing; scanned "web:3"])
      !! ("db:2", "HIGH", "default", "CVE-1", "libfoo", "N/A", "N/A") = Some 1%Z
  ∧ PrometheusExporter.vulnerability_gauge (after [scanned "db:2"; failing; scanned "web:3"])
      !! ("web:3", "HIGH", "default", "CVE-1", "libfoo", "N/A", "N/A") = Some 1%Z.
Proof.
  intros output scanned failing cycle after.
  pose proof (failed_scan_is_isolated Sample.repr "app:1.0" "default" Sample.timed_out
                [scanned "db:2"] [scanned "web:3"] PrometheusExporter.initial eq_refl)
    as (_ & _ & _ & _ & _ & Hgauge & Hothers).
  destruct (Hothers eq_refl) as [Hreturns Hfound].
  assert (∀ image, scanned_well (Sample.exits 0 (Loads (JObj (output image)))) (output image)
                     [JObj [("Target", JStr image);
                            ("Vulnerabilities",
                             JArr [Sample.finding "CVE-1" "libfoo" "HIGH"])]]) as Hwell.
  { intros image. eexists. repeat split. }
  split; [reflexivity|]. split; [vm_compute; reflexivity|]. split; [exact Hgauge|].
  split; [exact Hreturns|]. split.
  - apply (Hfound "db:2" "default" _ _ _
             [("VulnerabilityID", JStr "CVE-1"); ("PkgName", JStr "libfoo");
              ("Severity", JStr "HIGH")] ltac:(by left) (Hwell "db:2")).
    by left.
  - apply (Hfound "web:3" "default" _ _ _
             [("VulnerabilityID", JStr "CVE-1"); ("PkgName", JStr "libfoo");
              ("Severity", JStr "HIGH")] ltac:(by right; left) (Hwell "web:3")).
    by left.
Defined.

(** ** trivy-exporter.py: the access log *)

Section AccessLog.

Lemma append_cons (b : ascii) (k post : string) :
  String.append (String b k) post = String b (String.append k post).
Proof. reflexivity. Qed.

Lemma prefix_occurs (k s : string) :
  String.prefix k s = true ↔ ∃ post, s = String.append k post.
Proof.
  revert s. induction k as [|a k IH]; intros s.
  - split; [intros _; by exists s|intros _; by destruct s].
  - destruct s as [|b s]; simpl.
    + split; [done|]. by intros [post Hpost].
    + destruct (Ascii.ascii_dec a b) as [->|Hne].
      * rewrite IH. split; intros [post Hpost]; exists post; rewrite append_cons in *;
          congruence.
      * split; [done|]. intros [post Hpost]. rewrite append_cons in Hpost. congruence.
Qed.

Lemma index_cons (k : string) (c : ascii) (s : string) :
  String.index 0 k (String c s) =
  if String.prefix k (String c s) then Some 0
  else match String.index 0 k s with Some n => Some (S n) | None => None end.
Proof. reflexivity. Qed.

Lemma index_occurs (k s : string) :
  k ≠ EmptyString → (is_Some (String.index 0 k s) ↔ occurs_in k s).
Proof.
  intros Hk. induction s as [|c s IH].
  - simpl. destruct k as [|a k]; [done|]. split; [by intros [? ?]|].
    intros (pre & post & Heq). by destruct pre.
  - rewrite index_cons. destruct (String.prefix k (String c s)) eqn:Hpre.
    + split; [intros _|intros _; by eexists].
      apply prefix_occurs in Hpre as [post Hpost]. by exists EmptyString, post.
    + assert (is_Some (match String.index 0 k s with
                       | Some n => Some (S n)
                       | None => None
                       end) ↔ is_Some (String.index 0 k s)) as ->.
      { destruct (String.index 0 k s); split; intros [? ?]; by eexists. }
      rewrite IH. split.
      * intros (pre & post & ->). by exists (String c pre), post.
      * intros (pre & post & Heq). destruct pre as [|b pre].
        -- assert (String.prefix k (String c s) = true) as Hyes
             by (apply prefix_occurs; by exists post).
           congruence.
        -- exists pre, post. rewrite append_cons in Heq. congruence.
Qed.

Lemma contains_occurs (k s : string) :
  k ≠ EmptyString →
  ∃ b, py_contains k (JStr s) = Ok b ∧ (b = true ↔ occurs_in k s).
Proof.
  intros Hk. simpl. pose proof (index_occurs k s Hk) as Hocc.
  destruct (String.index 0 k s) as [n|].
  - exists true. split; [done|]. split; [intros _|done]. apply Hocc. by eexists.
  - exists false. split; [done|]. split; [done|]. intros Hin.
    apply Hocc in Hin as [? ?]. done.
Qed.

(** X14: [log_message] drops the access-log line exactly when the first
    argument, a string, holds one of the two probe paths anywhere in it,
    and hands format and arguments to [logger.debug] otherwise; with no
    argument it logs; with a number as first argument, as in the
    [log_error("code %d, message %s", code, message)] of the base
    handler, the test [ep in args[0]] raises TypeError. *)
Theorem probe_requests_are_not_logged (fmt line : string) (rest : list json) (code : Z) :
  let probe := occurs_in "/-/healthy" line ∨ occurs_in "/-/ready" line in
  (probe → Handler.log_message fmt (JStr line :: rest) = Ok None)
  ∧ (¬ probe →
     Handler.log_message fmt (JStr line :: rest) = Ok (Some (fmt, JStr line :: rest)))
  ∧ Handler.log_message fmt [] = Ok (Some (fmt, []))
  ∧ Handler.log_message fmt (JNum code :: rest) = Raise TypeError.
Proof.
  intros probe. subst probe.
  cut ((occurs_in "/-/healthy" line ∨ occurs_in "/-/ready" line →
        Handler.log_message fmt (JStr line :: rest) = Ok None)
       ∧ (¬ (occurs_in "/-/healthy" line ∨ occurs_in "/-/ready" line) →
          Handler.log_message fmt (JStr line :: rest) = Ok (Some (fmt, JStr line :: rest)))).
  { intros [Hyes Hno]. by repeat split. }
  unfold Handler.log_message.
  destruct (contains_occurs "/-/healthy" line) as (b1 & -> & H1); [done|].
  destruct (contains_occurs "/-/ready" line) as (b2 & -> & H2); [done|].
  destruct b1.
  - split; [done|]. intros Hno. destruct Hno. left. by apply H1.
  - destruct b2.
    + split; [done|]. intros Hno. destruct Hno. right. by apply H2.
    + split; [|done].
      intros [Hin|Hin]; [apply H1 in Hin|apply H2 in Hin]; done.
Qed.
End AccessLog.

Lemma probe_requests_are_not_logged_witness :
  occurs_in "/-/ready" "GET /-/ready HTTP/1.1"
  ∧ Handler.log_message "%s %s %s" [JStr "GET /-/ready HTTP/1.1"; JStr "200"; JStr "-"] =
    Ok None.
Proof.
  assert (occurs_in "/-/ready" "GET /-/ready HTTP/1.1") as Hin
    by (by exists "GET ", " HTTP/1.1").
  split; [exact Hin|].
  exact (proj1 (probe_requests_are_not_logged "%s %s %s" "GET /-/ready HTTP/1.1"
                  [JStr "200"; JStr "-"] 0) (or_intror Hin)).
Defined.

(** ** dashboard/trivy_exporter.py: what a cycle leaves behind *)

Section DashboardKeeps.
Import Dashboard.
Variable repr_container : json → string.
Variable iso_timestamp : string → option (result Z).
Variable SCAN_INTERVAL : Z.

Lemma dashboard_parse_vulnerabilities_keeps img tgt vs acc :
  Forall dashboard_keeps (calls (parse_vulnerabilities img tgt vs acc)).
Proof.
  revert acc. induction vs as [|v vs IH]; intros acc; [apply all_mret|].
  rewrite dashboard_parse_vulnerabilities_cons.
  apply all_bind; [unfold parse_vulnerability; all_calls|]. intros x. apply IH.
Qed.

Lemma dashboard_parse_results_keeps img rs acc :
  Forall dashboard_keeps (calls (parse_results img rs acc)).
Proof.
  revert acc. induction rs as [|r rs IH]; intros acc; [apply all_mret|].
  rewrite dashboard_parse_results_cons.
  all_calls; [apply dashboard_parse_vulnerabilities_keeps|apply IH].
Qed.

Lemma dashboard_parse_keeps file :
  Forall dashboard_keeps (calls (parse_trivy_report file)).
Proof.
  unfold parse_trivy_report, parse_body.
  all_calls; [apply dashboard_parse_results_keeps|done].
Qed.

Lemma dashboard_count_vulnerabilities_cons img vuln rest d :
  count_vulnerabilities repr_container img (vuln :: rest) d =
  (d' ← lift (count_one (img, severity vuln, package vuln) d);
   set_vulnerability_id repr_container img vuln;;
   count_vulnerabilities repr_container img rest d').
Proof. reflexivity. Qed.

Lemma dashboard_count_vulnerabilities_keeps img vulns d :
  Forall dashboard_keeps (calls (count_vulnerabilities repr_container img vulns d)).
Proof.
  revert d. induction vulns as [|v vulns IH]; intros d; [apply all_mret|].
  rewrite dashboard_count_vulnerabilities_cons.
  all_calls; [|apply IH].
  unfold set_vulnerability_id. cbv zeta. all_calls; done.
Qed.

Lemma dashboard_publish_report_keeps r :
  Forall dashboard_keeps (calls (publish_report repr_container iso_timestamp r)).
Proof.
  unfold publish_report. apply all_bind; [|intros _; apply all_bind].
  - unfold update_last_scan. destruct (truthy (scan_time r)); all_calls; done.
  - apply dashboard_count_vulnerabilities_keeps.
  - intros d. unfold publish_counts. apply all_for_each.
    intros [[[img sev] pkg] count]. all_calls; done.
Qed.

Lemma dashboard_process_reports_cons file rest n :
  process_reports repr_container iso_timestamp (file :: rest) n =
  (report_data ← parse_trivy_report file;
   match report_data with
   | None => process_reports repr_container iso_timestamp rest n
   | Some r =>
       publish_report repr_container iso_timestamp r;;
       process_reports repr_container iso_timestamp rest (n + 1)%Z
   end).
Proof. reflexivity. Qed.

Lemma dashboard_process_reports_keeps files n :
  Forall dashboard_keeps (calls (process_reports repr_container iso_timestamp files n)).
Proof.
  revert n. induction files as [|file files IH]; intros n; [apply all_mret|].
  rewrite dashboard_process_reports_cons.
  apply all_bind; [apply dashboard_parse_keeps|]. intros [r|]; [|apply IH].
  apply all_bind; [apply dashboard_publish_report_keeps|]. intros _. apply IH.
Qed.

Lemma dashboard_main_loop_keeps dirs :
  Forall dashboard_keeps
    (calls (main_loop repr_container iso_timestamp SCAN_INTERVAL dirs)).
Proof.
  unfold main_loop. apply all_for_each. intros d. unfold main_cycle.
  apply all_bind; [|intros _; unfold sleep; all_calls; done].
  apply all_try_except; [|intros e; by apply all_emit].
  unfold update_metrics. apply all_bind; [apply all_lift|]. intros is_there.
  destruct (negb is_there); [by apply all_emit|].
  apply all_bind; [by apply all_emit|]. intros _.
  apply all_bind; [apply all_lift|]. intros [|file files]; [by apply all_emit|].
  apply all_bind; [by apply all_emit|]. intros _.
  apply all_bind; [apply dashboard_process_reports_keeps|]. intros n.
  apply all_bind; [by apply all_emit|]. intros _. by apply all_emit.
Qed.

Lemma dashboard_exec_keeps cs s :
  Forall dashboard_keeps cs →
  dom (trivy_vulnerability_id s) ⊆ dom (trivy_vulnerability_id (exec cs s))
  ∧ dom (trivy_last_scan_timestamp s) ⊆ dom (trivy_last_scan_timestamp (exec cs s)).
Proof.
  revert s. induction cs as [|c cs IH]; intros s Hcs; [done|].
  inversion_clear Hcs as [|?? Hc Hrest].
  change (exec (c :: cs) s) with (exec cs (apply s c)).
  destruct (IH (apply s c) Hrest) as [Hid Hts].
  split; (etrans; [|eassumption]); destruct c as [g|g|k|k val|n|l|n]; simpl; try done.
  - destruct (trivy_vulnerability_id s !! k); [done|].
    rewrite dom_insert. apply union_subseteq_r.
  - rewrite dom_insert. apply union_subseteq_r.
  - by apply gauge_keeps_dom.
Qed.

(** X15: the loop of dashboard/trivy_exporter.py removes no child of the
    detail family and no timestamp: whatever the directory holds in each
    turn, every finding and every image that was exported once is still
    exported after any number of turns. *)
Theorem dashboard_details_are_never_removed (dirs : list reports_dir) (s : state) :
  let s' := exec (calls (main_loop repr_container iso_timestamp SCAN_INTERVAL dirs)) s in
  dom (trivy_vulnerability_id s) ⊆ dom (trivy_vulnerability_id s')
  ∧ dom (trivy_last_scan_timestamp s) ⊆ dom (trivy_last_scan_timestamp s').
Proof. apply dashboard_exec_keeps, dashboard_main_loop_keeps. Qed.
End DashboardKeeps.
